(** * FacetSearch: the incremental facet-search controller of search-ui

    A shallow embedding of [src/ui/Facet/FacetSearch.ts].  The class is an
    event-driven object: every DOM listener, timer callback and promise
    callback runs to completion on the fields of one [FacetSearch]
    instance.  Methods are written in a small state-and-writer monad; the
    writer part records the calls made on collaborators (query controller,
    logger, facet, popup), the state part holds the fields of the instance
    together with the table of timers and promise callbacks that the
    instance has registered with the browser. *)

From stdpp Require Import base option list numbers strings gmap.

Open Scope Z_scope.

(** ** Data *)

(** [IIndexFieldValue] (rest/FieldValue): what the endpoint returns. *)
Record IIndexFieldValue := mkFieldValue {
  fv_value : string;
  numberOfResults : Z
}.

(** [IEndpointError] (rest/EndpointError). *)
Record IEndpointError := mkEndpointError {
  statusCode : Z;
  message : string
}.

(** Modelled from the spec: [FacetValue] (Facet/FacetValues.ts is not part of
    the sources at hand).  "Emits ... (value, selected/excluded)": a value
    with its two marks. *)
Record FacetValue := mkFacetValue {
  value : string;
  occurrences : Z;
  selected : bool;
  excluded : bool
}.

(** Modelled from the spec: [FacetValue.create(fieldValue)], a fresh value
    that is neither selected nor excluded. *)
Definition FacetValue_create (f : IIndexFieldValue) : FacetValue :=
  {| value := fv_value f; occurrences := numberOfResults f;
     selected := false; excluded := false |}.

(** Modelled from the spec: [FacetSearchParameters] (Facet/FacetSearchParameters.ts
    is not part of the sources at hand).  "RequestDescriptor: search term,
    exclusion set, result-count cap, and a fetchMore flag"; the field
    [searchEvenIfEmpty] is read by [startNewSearchTimeout]. *)
Record FacetSearchParameters := mkParams {
  valueToSearch : string;
  alwaysExclude : list string;
  nbResults : Z;
  fetchMore : bool;
  searchEvenIfEmpty : bool
}.

Definition with_valueToSearch (v : string) (p : FacetSearchParameters) :=
  {| valueToSearch := v; alwaysExclude := alwaysExclude p;
     nbResults := nbResults p; fetchMore := fetchMore p;
     searchEvenIfEmpty := searchEvenIfEmpty p |}.

Definition with_alwaysExclude (l : list string) (p : FacetSearchParameters) :=
  {| valueToSearch := valueToSearch p; alwaysExclude := l;
     nbResults := nbResults p; fetchMore := fetchMore p;
     searchEvenIfEmpty := searchEvenIfEmpty p |}.

Definition with_nbResults (n : Z) (p : FacetSearchParameters) :=
  {| valueToSearch := valueToSearch p; alwaysExclude := alwaysExclude p;
     nbResults := n; fetchMore := fetchMore p;
     searchEvenIfEmpty := searchEvenIfEmpty p |}.

Definition with_fetchMore (b : bool) (p : FacetSearchParameters) :=
  {| valueToSearch := valueToSearch p; alwaysExclude := alwaysExclude p;
     nbResults := nbResults p; fetchMore := b;
     searchEvenIfEmpty := searchEvenIfEmpty p |}.

(** A child of the [<ul class="coveo-facet-search-results">] element.  The
    two CSS classes the controller reads are kept as flags; [el_value] is
    the facet value an [<li>] was built for, [None] for the "select all"
    entry. *)
Record Element := mkElement {
  el_value : option string;
  coveo_facet_selectable : bool;
  coveo_current : bool
}.

Definition with_current (b : bool) (e : Element) : Element :=
  {| el_value := el_value e;
     coveo_facet_selectable := coveo_facet_selectable e;
     coveo_current := b |}.

(** Keys told apart by [handleKeyboardNavigation] ([KEYBOARD] of
    utils/KeyboardUtils); every other key code is [OTHER]. *)
Inductive Key := ENTER | DELETE | ESCAPE | DOWN_ARROW | UP_ARROW | OTHER (which : Z).

(** Calls made on collaborators, in the order they are made. *)
Inductive Effect :=
| ClearTimeout (id : nat)
| SetTimeout (id : nat)
| WaitingAnimationShown
| WaitingAnimationHidden
| UnfadeInactiveValuesInMainList
| FadeInactiveValuesInMainList
| RemoveFacetSearchingClass
| LoggerInfo
| LoggerDebug (fieldValues : list IIndexFieldValue)
| LoggerError (error : IEndpointError)
| LogCustomEvent
| QueryControllerSearch (promise : nat) (params : FacetSearchParameters)
| PositionPopup
| HighlightCurrentQuery (search : string)
| ClipCaptions
| SelectActionOnCurrent (current : option nat)
| ExcludeActionOnCurrent (current : list nat)
| FacetShowWaitingAnimation
| ModalBoxClose
| ProcessFacetSearchAllResultsSelected (facetValues : list FacetValue)
| AssertionFailed.

(** How a call ends: it returns, or an exception leaves it. *)
Inductive Completion := Returned | Thrown.

(** The fields of a [FacetSearch] instance. *)
Record FacetSearch := mkFacetSearch {
  currentlyDisplayedResults : option (list string);
  searchResults : list Element;      (* children of this.searchResults *)
  searchResultsDisplayed : bool;     (* this.searchResults.style.display != 'none' *)
  scrollListeners : nat;             (* 'scroll' listeners on this.searchResults *)
  inputValue : string;               (* this.input.value *)
  clearDisplayed : bool;             (* this.clear shown *)
  noResultsClass : bool;             (* 'coveo-facet-search-no-results' on this.search *)
  facetSearchTimeout : option nat;
  showingFacetSearchWaitAnimation : bool;
  facetSearchPromise : option nat;
  moreValuesToFetch : bool
}.

(** What the instance has handed to the browser: callbacks of timers that
    are armed and of promises that have not settled. *)
Inductive TimerCallback :=
| SearchTimeout (params : FacetSearchParameters)   (* startNewSearchTimeout *)
| DeferredDismiss.                                 (* setupFacetSearchResultsEvents *)

Inductive PromiseCallbacks :=
| FacetSearchCallbacks (params : FacetSearchParameters)  (* triggerNewFacetSearch *)
| SelectAllCallbacks.                                    (* selectAllValuesMatchingSearch *)

Record World := mkWorld {
  this : FacetSearch;
  timers : gmap nat TimerCallback;
  promises : gmap nat PromiseCallbacks;
  nextHandle : nat
}.

(** ** The method monad *)

Definition M (A : Type) : Type := World → A * World * list Effect.

#[global] Instance M_ret : MRet M := λ A a w, (a, w, []).

#[global] Instance M_bind : MBind M := λ A B k m w,
  let '(a, w1, e1) := m w in
  let '(b, w2, e2) := k a w1 in
  (b, w2, e1 ++ e2).

Definition emit (e : Effect) : M unit := λ w, (tt, w, [e]).
Definition gets {A} (f : FacetSearch → A) : M A := λ w, (f (this w), w, []).
Definition modify (f : FacetSearch → FacetSearch) : M unit :=
  λ w, (tt, {| this := f (this w); timers := timers w;
               promises := promises w; nextHandle := nextHandle w |}, []).
Definition when (b : bool) (m : M unit) : M unit := if b then m else mret tt.

(** Registering and unregistering callbacks with the browser. *)
Definition setTimeout (cb : TimerCallback) : M nat :=
  λ w, (nextHandle w,
        {| this := this w; timers := <[nextHandle w := cb]> (timers w);
           promises := promises w; nextHandle := S (nextHandle w) |},
        [SetTimeout (nextHandle w)]).

Definition clearTimeout (id : nat) : M unit :=
  λ w, (tt,
        {| this := this w; timers := delete id (timers w);
           promises := promises w; nextHandle := nextHandle w |},
        [ClearTimeout id]).

Definition newPromise (cb : PromiseCallbacks) : M nat :=
  λ w, (nextHandle w,
        {| this := this w; timers := timers w;
           promises := <[nextHandle w := cb]> (promises w);
           nextHandle := S (nextHandle w) |},
        []).

Definition execState {A} (m : M A) (w : World) : World := (m w).1.2.
Definition execEffects {A} (m : M A) (w : World) : list Effect := (m w).2.
Definition evalM {A} (m : M A) (w : World) : A := (m w).1.1.

(** Field updates. *)
Definition set_currentlyDisplayedResults v (s : FacetSearch) : FacetSearch :=
  {| currentlyDisplayedResults := v; searchResults := searchResults s;
     searchResultsDisplayed := searchResultsDisplayed s;
     scrollListeners := scrollListeners s; inputValue := inputValue s;
     clearDisplayed := clearDisplayed s; noResultsClass := noResultsClass s;
     facetSearchTimeout := facetSearchTimeout s;
     showingFacetSearchWaitAnimation := showingFacetSearchWaitAnimation s;
     facetSearchPromise := facetSearchPromise s;
     moreValuesToFetch := moreValuesToFetch s |}.

Definition set_searchResults v (s : FacetSearch) : FacetSearch :=
  {| currentlyDisplayedResults := currentlyDisplayedResults s; searchResults := v;
     searchResultsDisplayed := searchResultsDisplayed s;
     scrollListeners := scrollListeners s; inputValue := inputValue s;
     clearDisplayed := clearDisplayed s; noResultsClass := noResultsClass s;
     facetSearchTimeout := facetSearchTimeout s;
     showingFacetSearchWaitAnimation := showingFacetSearchWaitAnimation s;
     facetSearchPromise := facetSearchPromise s;
     moreValuesToFetch := moreValuesToFetch s |}.

Definition set_searchResultsDisplayed v (s : FacetSearch) : FacetSearch :=
  {| currentlyDisplayedResults := currentlyDisplayedResults s;
     searchResults := searchResults s; searchResultsDisplayed := v;
     scrollListeners := scrollListeners s; inputValue := inputValue s;
     clearDisplayed := clearDisplayed s; noResultsClass := noResultsClass s;
     facetSearchTimeout := facetSearchTimeout s;
     showingFacetSearchWaitAnimation := showingFacetSearchWaitAnimation s;
     facetSearchPromise := facetSearchPromise s;
     moreValuesToFetch := moreValuesToFetch s |}.

Definition set_scrollListeners v (s : FacetSearch) : FacetSearch :=
  {| currentlyDisplayedResults := currentlyDisplayedResults s;
     searchResults := searchResults s;
     searchResultsDisplayed := searchResultsDisplayed s;
     scrollListeners := v; inputValue := inputValue s;
     clearDisplayed := clearDisplayed s; noResultsClass := noResultsClass s;
     facetSearchTimeout := facetSearchTimeout s;
     showingFacetSearchWaitAnimation := showingFacetSearchWaitAnimation s;
     facetSearchPromise := facetSearchPromise s;
     moreValuesToFetch := moreValuesToFetch s |}.

Definition set_inputValue v (s : FacetSearch) : FacetSearch :=
  {| currentlyDisplayedResults := currentlyDisplayedResults s;
     searchResults := searchResults s;
     searchResultsDisplayed := searchResultsDisplayed s;
     scrollListeners := scrollListeners s; inputValue := v;
     clearDisplayed := clearDisplayed s; noResultsClass := noResultsClass s;
     facetSearchTimeout := facetSearchTimeout s;
     showingFacetSearchWaitAnimation := showingFacetSearchWaitAnimation s;
     facetSearchPromise := facetSearchPromise s;
     moreValuesToFetch := moreValuesToFetch s |}.

Definition set_clearDisplayed v (s : FacetSearch) : FacetSearch :=
  {| currentlyDisplayedResults := currentlyDisplayedResults s;
     searchResults := searchResults s;
     searchResultsDisplayed := searchResultsDisplayed s;
     scrollListeners := scrollListeners s; inputValue := inputValue s;
     clearDisplayed := v; noResultsClass := noResultsClass s;
     facetSearchTimeout := facetSearchTimeout s;
     showingFacetSearchWaitAnimation := showingFacetSearchWaitAnimation s;
     facetSearchPromise := facetSearchPromise s;
     moreValuesToFetch := moreValuesToFetch s |}.

Definition set_noResultsClass v (s : FacetSearch) : FacetSearch :=
  {| currentlyDisplayedResults := currentlyDisplayedResults s;
     searchResults := searchResults s;
     searchResultsDisplayed := searchResultsDisplayed s;
     scrollListeners := scrollListeners s; inputValue := inputValue s;
     clearDisplayed := clearDisplayed s; noResultsClass := v;
     facetSearchTimeout := facetSearchTimeout s;
     showingFacetSearchWaitAnimation := showingFacetSearchWaitAnimation s;
     facetSearchPromise := facetSearchPromise s;
     moreValuesToFetch := moreValuesToFetch s |}.

Definition set_facetSearchTimeout v (s : FacetSearch) : FacetSearch :=
  {| currentlyDisplayedResults := currentlyDisplayedResults s;
     searchResults := searchResults s;
     searchResultsDisplayed := searchResultsDisplayed s;
     scrollListeners := scrollListeners s; inputValue := inputValue s;
     clearDisplayed := clearDisplayed s; noResultsClass := noResultsClass s;
     facetSearchTimeout := v;
     showingFacetSearchWaitAnimation := showingFacetSearchWaitAnimation s;
     facetSearchPromise := facetSearchPromise s;
     moreValuesToFetch := moreValuesToFetch s |}.

Definition set_showingFacetSearchWaitAnimation v (s : FacetSearch) : FacetSearch :=
  {| currentlyDisplayedResults := currentlyDisplayedResults s;
     searchResults := searchResults s;
     searchResultsDisplayed := searchResultsDisplayed s;
     scrollListeners := scrollListeners s; inputValue := inputValue s;
     clearDisplayed := clearDisplayed s; noResultsClass := noResultsClass s;
     facetSearchTimeout := facetSearchTimeout s;
     showingFacetSearchWaitAnimation := v;
     facetSearchPromise := facetSearchPromise s;
     moreValuesToFetch := moreValuesToFetch s |}.

Definition set_facetSearchPromise v (s : FacetSearch) : FacetSearch :=
  {| currentlyDisplayedResults := currentlyDisplayedResults s;
     searchResults := searchResults s;
     searchResultsDisplayed := searchResultsDisplayed s;
     scrollListeners := scrollListeners s; inputValue := inputValue s;
     clearDisplayed := clearDisplayed s; noResultsClass := noResultsClass s;
     facetSearchTimeout := facetSearchTimeout s;
     showingFacetSearchWaitAnimation := showingFacetSearchWaitAnimation s;
     facetSearchPromise := v;
     moreValuesToFetch := moreValuesToFetch s |}.

Definition set_moreValuesToFetch v (s : FacetSearch) : FacetSearch :=
  {| currentlyDisplayedResults := currentlyDisplayedResults s;
     searchResults := searchResults s;
     searchResultsDisplayed := searchResultsDisplayed s;
     scrollListeners := scrollListeners s; inputValue := inputValue s;
     clearDisplayed := clearDisplayed s; noResultsClass := noResultsClass s;
     facetSearchTimeout := facetSearchTimeout s;
     showingFacetSearchWaitAnimation := showingFacetSearchWaitAnimation s;
     facetSearchPromise := facetSearchPromise s;
     moreValuesToFetch := v |}.

(** ** The result list as the DOM wrapper sees it

    Children are identified by their position in the list.  These are the
    operations of [$$] (utils/Dom) and of underscore the class uses.  The
    wrapper itself is not part of the sources at hand; its tests are, and
    fix [find] and [findAll] as query selectors and [addClass] and
    [removeClass] as setting and clearing one class. *)
Module Dom.

(** Modelled from the spec: [$$(el).findAll(selector)] (utils/Dom), the
    matching children in document order. *)
Fixpoint findAllFrom (cls : Element → bool) (i : nat) (rs : list Element) : list nat :=
  match rs with
  | [] => []
  | e :: rs' => (if cls e then [i] else []) ++ findAllFrom cls (S i) rs'
  end.

Definition findAll (cls : Element → bool) (rs : list Element) : list nat :=
  findAllFrom cls 0 rs.

(** Modelled from the spec: [$$(el).find(selector)] (utils/Dom), the first
    match, if any. *)
Definition find (cls : Element → bool) (rs : list Element) : option nat :=
  head (findAll cls rs).

(** Modelled from the spec: [$$(elem).addClass('coveo-current')] and
    [removeClass] (utils/Dom); a target that does not exist leaves the list
    as it is. *)
Definition addCurrent (target : option nat) (rs : list Element) : list Element :=
  match target with
  | Some p => alter (with_current true) p rs
  | None => rs
  end.

Definition removeCurrent (p : nat) (rs : list Element) : list Element :=
  alter (with_current false) p rs.

(** [_.each(targets, t => $$(t).removeClass('coveo-current'))]. *)
Definition removeCurrentEach (targets : list nat) (rs : list Element) : list Element :=
  foldl (λ acc p, removeCurrent p acc) rs targets.

(** [_.indexOf(array, item)], [-1] when absent ([item] may be undefined). *)
Fixpoint indexOfFrom (i : Z) (l : list nat) (x : nat) : Z :=
  match l with
  | [] => -1
  | y :: l' => if decide (y = x) then i else indexOfFrom (i + 1) l' x
  end.

Definition indexOf (l : list nat) (x : option nat) : Z :=
  match x with
  | Some p => indexOfFrom 0 l p
  | None => -1
  end.

(** [array[i]] for a JavaScript number [i]: undefined out of range. *)
Definition at_index (l : list nat) (i : Z) : option nat :=
  if decide (0 ≤ i) then l !! Z.to_nat i else None.

End Dom.

(** What the class reads from its [facet] and from the page around it.
    None of it is decided by FacetSearch.ts, so it is kept abstract. *)
Record Facet := mkFacet {
  (* DeviceUtils.isMobileDevice() *)
  deviceIsMobile : bool;
  (* facet.searchInterface.isNewDesign() *)
  isNewDesign : bool;
  (* new FacetValuesOrder(facet, facet.facetSort).reorderValues *)
  reorderValues : list IIndexFieldValue → list IIndexFieldValue;
  (* facet.options.numberOfValuesInFacetSearch *)
  numberOfValuesInFacetSearch : Z;
  (* what a fresh FacetSearchParameters holds in searchEvenIfEmpty *)
  searchEvenIfEmptyByDefault : bool;
  (* facet.values.get *)
  values_get : string → option FacetValue
}.

(** Where a document click landed, as [handleClickElsewhere] tells it. *)
Inductive ClickTarget := OnSearch | OnSearchResults | Elsewhere.

(** What the browser can deliver to the instance. *)
Inductive Event :=
| UserInput (text : string)                 (* the user edits this.input *)
| KeyUp (key : Key) (shiftKey : bool)       (* 'keyup' on this.input *)
| Focus                                     (* 'focus' on this.input *)
| ClearClick                                (* 'click' on this.clear *)
| DocumentClick (target : ClickTarget)      (* 'click' on document *)
| ModalBoxValidation                        (* mobile modal closes *)
| WindowResize (smallFacet searching : bool)
| ResultMouseMove (elem : nat)              (* 'mousemove' on a result *)
| ResultMouseUp (elem : nat)                (* 'mouseup touchend', no drag *)
| SelectAllClick (elem : nat)               (* 'click' on the select-all entry *)
| ResultsScroll (clientHeight scrollHeight scrollTop : Z)
| TimerFired (id : nat)
| PromiseFulfilled (id : nat) (fieldValues : list IIndexFieldValue)
| PromiseRejected (id : nat) (error : option IEndpointError).

(** ** The methods of the class *)
Section FacetSearch.

Variable facet : Facet.

(** Modelled from the spec: [Utils.exists] (utils/Utils is not part of the
    sources at hand), "no real error": a value is there unless it is null
    or undefined. *)
Definition Utils_exists {A} (o : option A) : bool :=
  match o with Some _ => true | None => false end.

(** Modelled from the spec: [Utils.isNonEmptyString] (same module), a
    string other than the empty one. *)
Definition isNonEmptyString (s : string) : bool := negb (String.eqb s "").

(** Modelled from the spec: [new FacetSearchParameters(facet)] and its
    methods (Facet/FacetSearchParameters.ts is not part of the sources at
    hand).  A fresh descriptor has an empty term, no exclusion, the
    configured result cap and "replace" semantics. *)
Definition newFacetSearchParameters : FacetSearchParameters :=
  {| valueToSearch := ""; alwaysExclude := [];
     nbResults := numberOfValuesInFacetSearch facet;
     fetchMore := false;
     searchEvenIfEmpty := searchEvenIfEmptyByDefault facet |}.

(** Modelled from the spec: [setValueToSearch], "builds a remote-query
    descriptor from current input text". *)
Definition setValueToSearch (v : string) (p : FacetSearchParameters) :=
  with_valueToSearch v p.

(** The values shown in the result list, in order. *)
Definition displayedValues (rs : list Element) : list string :=
  omap el_value rs.

(** Modelled from the spec: [excludeCurrentlyDisplayedValuesInSearch]
    (Facet/FacetSearchParameters.ts), "the identifiers already shown as
    exclusions": the values of the entries rendered in the list it is
    given are added to the exclusions. *)
Definition excludeCurrentlyDisplayedValuesInSearch
    (rs : list Element) (p : FacetSearchParameters) :=
  with_alwaysExclude (alwaysExclude p ++ displayedValues rs) p.

(** Modelled from the spec: [new facetSearchValuesListKlass(facet,
    FacetValueElement).build(facetValues)], "produces the selectable
    elements": one selectable entry per value, in order. *)
Definition build (facetValues : list FacetValue) : list Element :=
  (λ v, {| el_value := Some (value v);
           coveo_facet_selectable := true;
           coveo_current := false |}) <$> facetValues.

Definition isMobileDevice : bool :=
  deviceIsMobile facet && negb (isNewDesign facet).

Definition getValueInInputForFacetSearch : M string := gets inputValue.

Definition getSelectables : M (list nat) :=
  gets (λ s, Dom.findAll coveo_facet_selectable (searchResults s)).

Definition appendChild (e : Element) : M unit :=
  modify (λ s, set_searchResults (searchResults s ++ [e]) s).

Definition showFacetSearchWaitingAnimation : M unit :=
  emit WaitingAnimationShown;;
  modify (set_showingFacetSearchWaitAnimation true).

Definition hideFacetSearchWaitingAnimation : M unit :=
  emit WaitingAnimationHidden;;
  modify (set_showingFacetSearchWaitAnimation false).

(** [Promise.reject(this.facetSearchPromise).catch(() => { })] builds a
    new promise, rejected with the pending one as its reason, and swallows
    it: the pending promise and the callbacks attached to it are left as
    they are, so the table of promises is not touched. *)
Definition cancelAnyPendingSearchOperation : M unit :=
  t ← gets facetSearchTimeout;
  match t with
  | Some id => clearTimeout id;; modify (set_facetSearchTimeout None)
  | None => mret tt
  end;;
  p ← gets facetSearchPromise;
  match p with
  | Some _ => modify (set_facetSearchPromise None)
  | None => mret tt
  end;;
  hideFacetSearchWaitingAnimation.

Definition hideSearchResultsElement : M unit :=
  modify (set_searchResultsDisplayed false).

(** After [positionSearchResults] the style of the list is never
    'none': it is 'block' off mobile, and '' otherwise. *)
Definition positionSearchResults : M unit :=
  modify (set_searchResultsDisplayed true);;
  emit PositionPopup.

Definition showSearchResultsElement : M unit := positionSearchResults.

Definition completelyDismissSearch : M unit :=
  cancelAnyPendingSearchOperation;;
  emit UnfadeInactiveValuesInMainList;;
  modify (set_searchResults []);;
  modify (set_moreValuesToFetch true);;
  modify (set_noResultsClass false);;
  emit RemoveFacetSearchingClass;;
  hideSearchResultsElement;;
  modify (set_inputValue "");;
  modify (set_clearDisplayed false);;
  modify (set_currentlyDisplayedResults None).

Definition highlightCurrentQueryWithinSearchResults : M unit :=
  search ← getValueInInputForFacetSearch;
  emit (HighlightCurrentQuery search).

Definition makeCurrentResult (result : option nat) : M unit :=
  selectables ← getSelectables;
  modify (λ s, set_searchResults (Dom.removeCurrentEach selectables (searchResults s)) s);;
  modify (λ s, set_searchResults (Dom.addCurrent result (searchResults s)) s).

Definition makeFirstSearchResultTheCurrentOne : M unit :=
  selectables ← getSelectables;
  makeCurrentResult (Dom.at_index selectables 0).

Definition moveCurrentResultDown : M unit :=
  current ← gets (λ s, Dom.find coveo_current (searchResults s));
  selectables ← getSelectables;
  modify (λ s, set_searchResults (Dom.removeCurrentEach selectables (searchResults s)) s);;
  allSelectables ← getSelectables;
  let idx := Dom.indexOf allSelectables current in
  if bool_decide (idx < Z.of_nat (length allSelectables) - 1) then
    modify (λ s, set_searchResults
              (Dom.addCurrent (Dom.at_index allSelectables (idx + 1)) (searchResults s)) s)
  else
    modify (λ s, set_searchResults
              (Dom.addCurrent (Dom.at_index allSelectables 0) (searchResults s)) s).

Definition moveCurrentResultUp : M unit :=
  current ← gets (λ s, Dom.find coveo_current (searchResults s));
  selectables ← gets (λ s, Dom.findAll coveo_facet_selectable (searchResults s));
  modify (λ s, set_searchResults (Dom.removeCurrentEach selectables (searchResults s)) s);;
  allSelectables ← getSelectables;
  let idx := Dom.indexOf allSelectables current in
  if bool_decide (0 < idx) then
    modify (λ s, set_searchResults
              (Dom.addCurrent (Dom.at_index allSelectables (idx - 1)) (searchResults s)) s)
  else
    modify (λ s, set_searchResults
              (Dom.addCurrent
                 (Dom.at_index allSelectables (Z.of_nat (length allSelectables) - 1))
                 (searchResults s)) s).

Definition rebuildSearchResults
    (fieldValues : list IIndexFieldValue) (facetSearchParameters : FacetSearchParameters)
    : M unit :=
  when (negb (fetchMore facetSearchParameters)) (modify (set_searchResults []));;
  let selectAll :=
    {| el_value := None;
       coveo_facet_selectable := isNonEmptyString (valueToSearch facetSearchParameters);
       coveo_current := false |} in
  when (isNonEmptyString (valueToSearch facetSearchParameters) && negb isMobileDevice)
       (appendChild selectAll);;
  let facetValues := FacetValue_create <$> fieldValues in
  modify (λ s, set_searchResults (searchResults s ++ build facetValues) s);;
  modify (λ s, set_currentlyDisplayedResults
                 (match currentlyDisplayedResults s with
                  | Some displayed => Some (displayed ++ (value <$> facetValues))
                  | None => Some (value <$> facetValues)
                  end) s);;
  when isMobileDevice (appendChild selectAll);;
  (* every selectable child also gets 'coveo-facet-search-selectable' and
     its mouse listeners here; no field changes *)
  when (isNewDesign facet)
       (modify (λ s, set_scrollListeners (S (scrollListeners s)) s)).

Definition processNewFacetSearchResults
    (fieldValues : list IIndexFieldValue) (facetSearchParameters : FacetSearchParameters)
    : M unit :=
  let fieldValues := reorderValues facet fieldValues in
  if bool_decide (0 < length fieldValues)%nat then
    modify (set_noResultsClass false);;
    emit FadeInactiveValuesInMainList;;
    rebuildSearchResults fieldValues facetSearchParameters;;
    when (negb (fetchMore facetSearchParameters)) showSearchResultsElement;;
    highlightCurrentQueryWithinSearchResults;;
    emit ClipCaptions;;
    makeFirstSearchResultTheCurrentOne
  else
    if fetchMore facetSearchParameters then
      modify (set_moreValuesToFetch false)
    else
      hideSearchResultsElement;;
      modify (set_noResultsClass true).

(** [this.facet.facetQueryController.search(params)]: one call on the
    controller, which hands back a fresh promise. *)
Definition facetQueryController_search (params : FacetSearchParameters) : M nat :=
  λ w, (nextHandle w,
        {| this := this w; timers := timers w; promises := promises w;
           nextHandle := S (nextHandle w) |},
        [QueryControllerSearch (nextHandle w) params]).

(** [promise.then(...)] / [promise.catch(...)]: the callbacks stay with
    the promise until it settles. *)
Definition attach (promise : nat) (cb : PromiseCallbacks) : M unit :=
  λ w, (tt,
        {| this := this w; timers := timers w;
           promises := <[promise := cb]> (promises w);
           nextHandle := nextHandle w |},
        []).

(** The controller is taken to hand back a promise, so the test
    [if (this.facetSearchPromise)] passes. *)
Definition triggerNewFacetSearch (params : FacetSearchParameters) : M unit :=
  cancelAnyPendingSearchOperation;;
  showFacetSearchWaitingAnimation;;
  emit LoggerInfo;;
  promise ← facetQueryController_search params;
  modify (set_facetSearchPromise (Some promise));;
  attach promise (FacetSearchCallbacks params).

(** The callback given to [then] in [triggerNewFacetSearch]. *)
Definition facetSearchFulfilled
    (params : FacetSearchParameters) (fieldValues : list IIndexFieldValue) : M unit :=
  emit LogCustomEvent;;
  emit (LoggerDebug fieldValues);;
  processNewFacetSearchResults fieldValues params;;
  hideFacetSearchWaitingAnimation;;
  modify (set_facetSearchPromise None).

(** The callback given to [catch] in [triggerNewFacetSearch];
    [Utils.exists(error)] is [error] being neither null nor undefined. *)
Definition facetSearchRejected (error : option IEndpointError) : M unit :=
  match error with
  | Some e => emit (LoggerError e);; hideFacetSearchWaitingAnimation
  | None => mret tt
  end;;
  modify (set_facetSearchPromise None).

Definition buildParamsForNormalSearch : M FacetSearchParameters :=
  v ← getValueInInputForFacetSearch;
  mret (with_fetchMore false (setValueToSearch v newFacetSearchParameters)).

Definition buildParamsForExcludingCurrentlyDisplayedValues : M FacetSearchParameters :=
  rs ← gets searchResults;
  v ← getValueInInputForFacetSearch;
  mret (setValueToSearch v
          (excludeCurrentlyDisplayedValuesInSearch rs newFacetSearchParameters)).

Definition buildParamsForFetchingMore : M FacetSearchParameters :=
  params ← buildParamsForExcludingCurrentlyDisplayedValues;
  mret (with_fetchMore true params).

Definition startNewSearchTimeout (params : FacetSearchParameters) : M unit :=
  cancelAnyPendingSearchOperation;;
  id ← setTimeout (SearchTimeout params);
  modify (set_facetSearchTimeout (Some id)).

(** The callback given to [setTimeout] in [startNewSearchTimeout]. *)
Definition searchTimeoutFired (params : FacetSearchParameters) : M unit :=
  valueInInput ← getValueInInputForFacetSearch;
  if String.eqb valueInInput "" then
    if searchEvenIfEmpty params then triggerNewFacetSearch params
    else completelyDismissSearch
  else triggerNewFacetSearch params.

(** The scroll listener.  Heights are whole pixels; [d < h / 2] is
    written [2 * d < h], the same comparison without the division. *)
Definition handleFacetSearchResultsScroll (clientHeight scrollHeight scrollTop : Z)
    : M unit :=
  pending ← gets facetSearchPromise;
  v ← getValueInInputForFacetSearch;
  more ← gets moreValuesToFetch;
  if Utils_exists pending || negb (String.eqb v "") || negb more then mret tt
  else
    let elementHeight := clientHeight in
    let bottomPosition := scrollTop + elementHeight in
    if bool_decide (2 * (scrollHeight - bottomPosition) < elementHeight) then
      params ← buildParamsForFetchingMore;
      triggerNewFacetSearch params
    else mret tt.

Definition selectAllValuesMatchingSearch : M unit :=
  emit FacetShowWaitingAnimation;;
  v ← getValueInInputForFacetSearch;
  let searchParameters :=
    setValueToSearch v (with_nbResults 1000 newFacetSearchParameters) in
  promise ← facetQueryController_search searchParameters;
  attach promise SelectAllCallbacks;;
  completelyDismissSearch.

Definition handleClickElsewhere (target : ClickTarget) : M unit :=
  displayed ← gets currentlyDisplayedResults;
  let elsewhere := match target with Elsewhere => true | _ => false end in
  when (Utils_exists displayed && negb isMobileDevice && elsewhere)
       completelyDismissSearch.

(** Modelled from the spec: [Assert.check(condition)] (misc/Assert is not
    part of the sources at hand, and the spec has no word on it).  A check
    that fails throws: the exception leaves the listener that is running,
    so that nothing after the check is run; the trace keeps a mark of
    it. *)
Definition Assert_check (condition : bool) : M Completion :=
  if condition then mret Returned else emit AssertionFailed;; mret Thrown.

(** Modelled from the spec: an entry built for a value carries the
    checkbox and the exclude control of its value ("produces the
    selectable elements", each with the controls of FacetValueElement,
    which is not part of the sources at hand); the "select all" entry
    carries neither. *)
Definition hasValueControls (e : Element) : bool := Utils_exists (el_value e).

(** [current.click()] on an entry without checkbox.  The click runs the
    listeners of the entry (the "select all" entry has
    [selectAllValuesMatchingSearch] as its listener when it was made
    selectable, and none otherwise), then it reaches the document, where
    the constructor has put [handleClickElsewhere]; the entry is neither
    [this.search] nor [this.searchResults]. *)
Definition click (e : Element) : M unit :=
  when (coveo_facet_selectable e) selectAllValuesMatchingSearch;;
  handleClickElsewhere Elsewhere.

(** [find] gives null when no entry is current, and [null != undefined]
    is false.  Ticking the checkbox of an entry and triggering 'change'
    on it is a call on the entry's own element, kept in the trace. *)
Definition performSelectActionOnCurrentSearchResult : M Completion :=
  current ← gets (λ s, Dom.find coveo_current (searchResults s));
  checked ← Assert_check (Utils_exists current);
  match checked with
  | Thrown => mret Thrown
  | Returned =>
      entry ← gets (λ s, current ≫= λ p, searchResults s !! p);
      match entry with
      | Some e =>
          if hasValueControls e then emit (SelectActionOnCurrent current)
          else click e
      | None => mret tt
      end;;
      mret Returned
  end.

(** The click on the exclude control of the one current entry is a call
    on the entry's own element, kept in the trace; where the current
    entry has no such control ([find] gives an empty set), nothing is
    clicked. *)
Definition performExcludeActionOnCurrentSearchResult : M Completion :=
  current ← gets (λ s, Dom.findAll coveo_current (searchResults s));
  checked ← Assert_check (bool_decide (length current = 1%nat));
  match checked with
  | Thrown => mret Thrown
  | Returned =>
      entry ← gets (λ s, head current ≫= λ p, searchResults s !! p);
      match entry with
      | Some e => when (hasValueControls e) (emit (ExcludeActionOnCurrent current))
      | None => mret tt
      end;;
      mret Returned
  end.

(** The callback given to [then] in [selectAllValuesMatchingSearch]. *)
Definition markSelected (fieldValue : IIndexFieldValue) : FacetValue :=
  let facetValue :=
    match values_get facet (fv_value fieldValue) with
    | Some known => known
    | None => FacetValue_create fieldValue
    end in
  {| value := value facetValue; occurrences := occurrences facetValue;
     selected := true; excluded := false |}.

Definition selectAllFulfilled (fieldValues : list IIndexFieldValue) : M unit :=
  completelyDismissSearch;;
  emit ModalBoxClose;;
  let facetValues := markSelected <$> fieldValues in
  emit (ProcessFacetSearchAllResultsSelected facetValues).

Definition keyboardNavigationEnterPressed (shiftKey isEmpty : bool) : M unit :=
  if shiftKey then
    params ← buildParamsForNormalSearch;
    triggerNewFacetSearch params
  else
    displayed ← gets searchResultsDisplayed;
    if (displayed : bool) then
      done ← performSelectActionOnCurrentSearchResult;
      match done with
      | Returned => completelyDismissSearch
      | Thrown => mret tt
      end
    else
      noResults ← gets noResultsClass;
      when (noResults && negb isEmpty) selectAllValuesMatchingSearch.

Definition keyboardNavigationDeletePressed (shiftKey : bool) : M unit :=
  when shiftKey
    (done ← performExcludeActionOnCurrentSearchResult;
     match done with
     | Returned => completelyDismissSearch;; modify (set_inputValue "")
     | Thrown => mret tt
     end).

Definition handleKeyboardNavigation (key : Key) (shiftKey isEmpty : bool) : M unit :=
  match key with
  | ENTER => keyboardNavigationEnterPressed shiftKey isEmpty
  | DELETE => keyboardNavigationDeletePressed shiftKey
  | ESCAPE => completelyDismissSearch
  | DOWN_ARROW => moveCurrentResultDown
  | UP_ARROW => moveCurrentResultUp
  | OTHER _ =>
      modify (set_moreValuesToFetch true);;
      highlightCurrentQueryWithinSearchResults;;
      params ← buildParamsForNormalSearch;
      startNewSearchTimeout params
  end.

Definition showOrHideClearElement (isEmpty : bool) : M unit :=
  if negb isEmpty then modify (set_clearDisplayed true)
  else
    modify (set_clearDisplayed false);;
    modify (set_noResultsClass false).

Definition handleFacetSearchKeyUp (key : Key) (shiftKey : bool) : M unit :=
  v ← gets inputValue;
  let isEmpty := String.eqb v "" in
  showOrHideClearElement isEmpty;;
  if negb isMobileDevice then handleKeyboardNavigation key shiftKey isEmpty
  else
    params ← buildParamsForNormalSearch;
    startNewSearchTimeout params.

Definition handleFacetSearchFocus : M unit :=
  when (negb isMobileDevice)
    (if isNewDesign facet then
       params ← buildParamsForExcludingCurrentlyDisplayedValues;
       startNewSearchTimeout params
     else
       params ← buildParamsForNormalSearch;
       startNewSearchTimeout params).

Definition handleFacetSearchClear : M unit :=
  modify (set_inputValue "");;
  modify (set_clearDisplayed false);;
  completelyDismissSearch.

(** [shouldPositionSearchResults]; the two flags are classes kept by the
    responsive manager and by the facet. *)
Definition onResize (smallFacet searching : bool) : M unit :=
  when (negb isMobileDevice && negb smallFacet && searching) positionSearchResults.

(** ** Dispatch: one event, run to completion *)

Definition takeTimer (id : nat) : M (option TimerCallback) :=
  λ w, (timers w !! id,
        {| this := this w; timers := delete id (timers w);
           promises := promises w; nextHandle := nextHandle w |}, []).

Definition takePromise (id : nat) : M (option PromiseCallbacks) :=
  λ w, (promises w !! id,
        {| this := this w; timers := timers w;
           promises := delete id (promises w); nextHandle := nextHandle w |}, []).

Definition isSelectable (elem : nat) : M bool :=
  selectables ← getSelectables;
  mret (bool_decide (elem ∈ selectables)).

Definition isSelectAllEntry (elem : nat) : M bool :=
  gets (λ s, match searchResults s !! elem with
             | Some e => coveo_facet_selectable e && negb (Utils_exists (el_value e))
             | None => false
             end).

Definition handle (ev : Event) : M unit :=
  match ev with
  | UserInput text => modify (set_inputValue text)
  | KeyUp key shiftKey => handleFacetSearchKeyUp key shiftKey
  | Focus => handleFacetSearchFocus
  | ClearClick => handleFacetSearchClear
  | DocumentClick target => handleClickElsewhere target
  | ModalBoxValidation => completelyDismissSearch
  | WindowResize smallFacet searching => onResize smallFacet searching
  | ResultMouseMove elem =>
      ok ← isSelectable elem;
      when ok (makeCurrentResult (Some elem))
  | ResultMouseUp elem =>
      ok ← isSelectable elem;
      when ok (setTimeout DeferredDismiss;; mret tt)
  | SelectAllClick elem =>
      ok ← isSelectAllEntry elem;
      when ok selectAllValuesMatchingSearch
  | ResultsScroll clientHeight scrollHeight scrollTop =>
      n ← gets scrollListeners;
      Nat.iter n (λ rest,
                    handleFacetSearchResultsScroll clientHeight scrollHeight scrollTop;;
                    rest) (mret tt)
  | TimerFired id =>
      cb ← takeTimer id;
      match cb with
      | Some (SearchTimeout params) => searchTimeoutFired params
      | Some DeferredDismiss => completelyDismissSearch
      | None => mret tt
      end
  | PromiseFulfilled id fieldValues =>
      cb ← takePromise id;
      match cb with
      | Some (FacetSearchCallbacks params) => facetSearchFulfilled params fieldValues
      | Some SelectAllCallbacks => selectAllFulfilled fieldValues
      | None => mret tt
      end
  | PromiseRejected id error =>
      cb ← takePromise id;
      match cb with
      | Some (FacetSearchCallbacks _) => facetSearchRejected error
      | Some SelectAllCallbacks => mret tt
      | None => mret tt
      end
  end.

(** A run of the event loop. *)
Fixpoint run (evs : list Event) : M unit :=
  match evs with
  | [] => mret tt
  | ev :: evs' => handle ev;; run evs'
  end.

End FacetSearch.

(** The instance as [build] leaves it. *)
Definition initial : World :=
  {| this := {| currentlyDisplayedResults := None; searchResults := [];
                searchResultsDisplayed := false; scrollListeners := 0;
                inputValue := ""; clearDisplayed := false;
                noResultsClass := false; facetSearchTimeout := None;
                showingFacetSearchWaitAnimation := false;
                facetSearchPromise := None; moreValuesToFetch := true |};
     timers := ∅; promises := ∅; nextHandle := 0 |}.

(** ** Observations on a state and on a trace of calls *)

(** Clearing the cursor class on every selectable child, as one map. *)
Definition cleared (rs : list Element) : list Element :=
  (λ e, if coveo_facet_selectable e then with_current false e else e) <$> rs.

(** SelectionCursor: the index, among the selectable children, of the one
    child that carries 'coveo-current'; [None] when no child, several
    children or a child that is not selectable carries it. *)
Definition cursor (rs : list Element) : option Z :=
  match Dom.findAll coveo_current rs with
  | [p] =>
      let idx := Dom.indexOf (Dom.findAll coveo_facet_selectable rs) (Some p) in
      if bool_decide (0 ≤ idx) then Some idx else None
  | _ => None
  end.

Definition unset (rs : list Element) : Prop := Dom.findAll coveo_current rs = [].

Definition selectableCount (rs : list Element) : Z :=
  Z.of_nat (length (Dom.findAll coveo_facet_selectable rs)).

(** The class is only ever put on selectable children. *)
Definition currentOnSelectables (rs : list Element) : Prop :=
  Dom.findAll coveo_current rs ⊆ Dom.findAll coveo_facet_selectable rs.

(** The children of the list once [rebuildSearchResults] has run: what was
    there (on "fetch more"), the "select all" entry in front off mobile,
    the entries built for the values, the "select all" entry at the end on
    mobile. *)
Definition selectAllEntry (params : FacetSearchParameters) : Element :=
  {| el_value := None;
     coveo_facet_selectable := isNonEmptyString (valueToSearch params);
     coveo_current := false |}.

Definition rendered (facet : Facet) (fieldValues : list IIndexFieldValue)
    (params : FacetSearchParameters) (rs : list Element) : list Element :=
  (if fetchMore params then rs else [])
  ++ (if isNonEmptyString (valueToSearch params) && negb (isMobileDevice facet)
      then [selectAllEntry params] else [])
  ++ build (FacetValue_create <$> fieldValues)
  ++ (if isMobileDevice facet then [selectAllEntry params] else []).

(** The remote calls in a trace, with the promise each one returned. *)
Definition requests (effs : list Effect) : list (nat * FacetSearchParameters) :=
  omap (λ e, match e with
             | QueryControllerSearch promise params => Some (promise, params)
             | _ => None
             end) effs.

(** The timers armed in a trace. *)
Definition timersArmed (effs : list Effect) : list nat :=
  omap (λ e, match e with SetTimeout id => Some id | _ => None end) effs.

(** The "bulk selection completed" notifications in a trace. *)
Definition bulkSelections (effs : list Effect) : list (list FacetValue) :=
  omap (λ e, match e with
             | ProcessFacetSearchAllResultsSelected facetValues => Some facetValues
             | _ => None
             end) effs.

(** The two tests of [handleFacetSearchResultsScroll]. *)
Definition nearBottom (clientHeight scrollHeight scrollTop : Z) : bool :=
  bool_decide (2 * (scrollHeight - (scrollTop + clientHeight)) < clientHeight).

Definition scrollSuppressed (s : FacetSearch) : bool :=
  Utils_exists (facetSearchPromise s) || negb (String.eqb (inputValue s) "")
  || negb (moreValuesToFetch s).

(** [currentlyDisplayedResults], read as a list. *)
Definition displayed (s : FacetSearch) : list string :=
  default [] (currentlyDisplayedResults s).

(** ** Properties of methods, as relations between the state before, the
    state after and the calls made *)
Definition Rel : Type := World → World → list Effect → Prop.

Definition sat {A} (R : Rel) (m : M A) : Prop :=
  ∀ w, R w (execState m w) (execEffects m w).

Class Compositional (R : Rel) : Prop := {
  rel_refl w : R w w [];
  rel_trans w1 w2 w3 e1 e2 : R w1 w2 e1 → R w2 w3 e2 → R w1 w3 (e1 ++ e2)
}.

(** [P] relates the fields before and after, unless the method went
    through a full dismiss ([facet.unfadeInactiveValuesInMainList] is called
    by [completelyDismissSearch] and by nothing else). *)
Definition unlessDismissed (P : relation FacetSearch) : Rel :=
  λ w w' effs, UnfadeInactiveValuesInMainList ∈ effs ∨ P (this w) (this w').

(** [P] relates the fields before and after, whatever the method did. *)
Definition onFields (P : relation FacetSearch) : Rel :=
  λ w w' _, P (this w) (this w').

(** A relation on runs that holds as soon as [P] holds of the fields. *)
Class FromFields (P : relation FacetSearch) (R : Rel) : Prop :=
  from_fields w w' effs : P (this w) (this w') → R w w' effs.

(** The list of displayed identifiers is kept or extended at its end. *)
Definition extends : relation FacetSearch :=
  λ s s', currentlyDisplayedResults s' = currentlyDisplayedResults s
          ∨ ∃ l, currentlyDisplayedResults s' = Some (displayed s ++ l).

(** [moreValuesToFetch] is not raised. *)
Definition notRaised : relation FacetSearch :=
  λ s s', moreValuesToFetch s' = true → moreValuesToFetch s = true.

(** The class stays on selectable children. *)
Definition keepsCurrentOnSelectables : relation FacetSearch :=
  λ s s', currentOnSelectables (searchResults s) → currentOnSelectables (searchResults s').

(** A facet of the new design on a desktop browser, used for the concrete
    runs below. *)
Definition desktopFacet : Facet :=
  {| deviceIsMobile := false; isNewDesign := true; reorderValues := id;
     numberOfValuesInFacetSearch := 15; searchEvenIfEmptyByDefault := true;
     values_get := λ _, None |}.

(** The same facet when it already holds the value "x", excluded, with 7
    occurrences. *)
Definition facetHoldingX : Facet :=
  {| deviceIsMobile := false; isNewDesign := true; reorderValues := id;
     numberOfValuesInFacetSearch := 15; searchEvenIfEmptyByDefault := true;
     values_get := λ s, if String.eqb s "x"
                        then Some {| value := "x"; occurrences := 7;
                                     selected := false; excluded := true |}
                        else None |}.

(** Values the remote source answers with in the concrete runs. *)
Definition valueX : IIndexFieldValue := {| fv_value := "x"; numberOfResults := 3 |}.
Definition valueY : IIndexFieldValue := {| fv_value := "y"; numberOfResults := 2 |}.
Definition valueZ : IIndexFieldValue := {| fv_value := "z"; numberOfResults := 1 |}.

(** A session in which the list [x, y] is shown for an empty term (an
    explicit search, answered), the user has moved down once, and a scroll
    near the bottom has asked for more: promise 1 is the "fetch more"
    request, still pending. *)
Definition fetchingMore : list Event :=
  [KeyUp ENTER true; PromiseFulfilled 0 [valueX; valueY];
   KeyUp DOWN_ARROW false; ResultsScroll 100 120 0].

(** Two explicit searches in a row, for "a" and then for "ab": promise 0 is
    superseded by promise 1, both are still pending. *)
Definition superseding : list Event :=
  [UserInput "a"; KeyUp ENTER true; UserInput "ab"; KeyUp ENTER true].

(** The list [x, y] shown for an empty term, cursor on [x]. *)
Definition shown : World :=
  execState (run desktopFacet [KeyUp ENTER true; PromiseFulfilled 0 [valueX; valueY]])
            initial.

(** The list [x, y] shown, then two explicit searches in a row: promise 1
    is superseded by promise 2, both are pending when the rejection without
    error value of promise 1 arrives. *)
Definition supersededThenCancelled : list Event :=
  [KeyUp ENTER true; PromiseFulfilled 0 [valueX; valueY];
   KeyUp ENTER true; KeyUp ENTER true; PromiseRejected 1 None].

(** The user has typed "a" and the debounce timer, timer 0, is armed. *)
Definition typing : World :=
  execState (run desktopFacet [UserInput "a"; KeyUp (OTHER 65) false]) initial.

(** The user has typed "abc"; nothing else has happened. *)
Definition typedAbc : World :=
  execState (run desktopFacet [UserInput "abc"]) initial.

(** ** Further observations on a state and on a run *)

(** The fields as [completelyDismissSearch] leaves them; only the number of
    scroll listeners survives a dismiss. *)
Definition dismissedFields (listeners : nat) : FacetSearch :=
  {| currentlyDisplayedResults := None; searchResults := [];
     searchResultsDisplayed := false; scrollListeners := listeners;
     inputValue := ""; clearDisplayed := false; noResultsClass := false;
     facetSearchTimeout := None; showingFacetSearchWaitAnimation := false;
     facetSearchPromise := None; moreValuesToFetch := true |}.

(** The method made no full dismiss, and [P] relates the fields before and
    after. *)
Definition withoutDismiss (P : relation FacetSearch) : Rel :=
  λ w w' effs, (UnfadeInactiveValuesInMainList ∉ effs) ∧ P (this w) (this w').

Definition anyFields : relation FacetSearch := λ _ _, True.

Definition sameListeners : relation FacetSearch :=
  λ s s', scrollListeners s' = scrollListeners s.

(** If the method went through a full dismiss, it leaves the fields as a
    dismiss from the state it started in would. *)
Definition dismissesAsOne {A} (m : M A) : Prop :=
  ∀ w, UnfadeInactiveValuesInMainList ∈ execEffects m w →
       this (execState m w) = dismissedFields (scrollListeners (this w)).

(** What holds of the timers the instance has armed: their identifiers,
    and the one kept in [facetSearchTimeout], were handed out earlier, and
    a debounce timer that is armed is the one kept in
    [facetSearchTimeout]. *)
Definition DebounceInv (w : World) : Prop :=
  (∀ id cb, timers w !! id = Some cb → (id < nextHandle w)%nat)
  ∧ (∀ id, facetSearchTimeout (this w) = Some id → (id < nextHandle w)%nat)
  ∧ (∀ id params, timers w !! id = Some (SearchTimeout params) →
                  facetSearchTimeout (this w) = Some id).

(** A property of states that a method keeps. *)
Definition invariant (I : World → Prop) : Rel := λ w w' _, I w → I w'.

(** While a request is held in [facetSearchPromise], the waiting animation
    is showing. *)
Definition waitingWhileHeld (w : World) : Prop :=
  is_Some (facetSearchPromise (this w)) →
  showingFacetSearchWaitAnimation (this w) = true.

(** The clear button is shown exactly when the input holds some text. *)
Definition clearMatchesInput (w : World) : Prop :=
  clearDisplayed (this w) = negb (String.eqb (inputValue (this w)) "").

(** [k] runs of a method in a row, as for a key pressed [k] times. *)
Definition repeatedly (k : nat) (m : M unit) : M unit :=
  Nat.iter k (λ rest, m;; rest) (mret tt).

(** The entries of the list, the cursor class left aside. *)
Definition entries (rs : list Element) : list Element := with_current false <$> rs.

(** A step that only moves the cursor: no call is made, nothing is handed
    to the browser, and no field changes other than the cursor class in the
    list and the two marks [showOrHideClearElement] derives from the input. *)
Definition navigationOnly : Rel := λ w w' effs,
  effs = []
  ∧ timers w' = timers w ∧ promises w' = promises w ∧ nextHandle w' = nextHandle w
  ∧ entries (searchResults (this w')) = entries (searchResults (this w))
  ∧ currentlyDisplayedResults (this w') = currentlyDisplayedResults (this w)
  ∧ searchResultsDisplayed (this w') = searchResultsDisplayed (this w)
  ∧ scrollListeners (this w') = scrollListeners (this w)
  ∧ inputValue (this w') = inputValue (this w)
  ∧ facetSearchTimeout (this w') = facetSearchTimeout (this w)
  ∧ showingFacetSearchWaitAnimation (this w') = showingFacetSearchWaitAnimation (this w)
  ∧ facetSearchPromise (this w') = facetSearchPromise (this w)
  ∧ moreValuesToFetch (this w') = moreValuesToFetch (this w).

(** The clear button and the no-results mark as [showOrHideClearElement]
    sets them from the input: the button shows when there is text, and an
    empty input takes the mark away. *)
Definition marksSetFromInput (w w' : World) : Prop :=
  clearDisplayed (this w') = negb (String.eqb (inputValue (this w)) "")
  ∧ noResultsClass (this w')
    = noResultsClass (this w) && negb (String.eqb (inputValue (this w)) "").

(** The keyups of the two arrow keys. *)
Definition isArrowKeyUp (ev : Event) : bool :=
  match ev with
  | KeyUp DOWN_ARROW _ | KeyUp UP_ARROW _ => true
  | _ => false
  end.

(** The activations of the entry under the cursor in a trace: what
    [performSelectActionOnCurrentSearchResult] found as current, and what
    [performExcludeActionOnCurrentSearchResult] found. *)
Definition selectActions (effs : list Effect) : list (option nat) :=
  omap (λ e, match e with SelectActionOnCurrent current => Some current | _ => None end)
       effs.

Definition excludeActions (effs : list Effect) : list (list nat) :=
  omap (λ e, match e with ExcludeActionOnCurrent current => Some current | _ => None end)
       effs.

(** The settlement of promise [id]. *)
Definition settles (id : nat) (ev : Event) : bool :=
  match ev with
  | PromiseFulfilled k _ | PromiseRejected k _ => bool_decide (k = id)
  | _ => false
  end.

(** Promise [id] has been handed out and carries the callbacks [cb]. *)
Definition attached (id : nat) (cb : PromiseCallbacks) (w : World) : Prop :=
  (id < nextHandle w)%nat ∧ promises w !! id = Some cb.

(** The values shown in the list are the last ones of
    [currentlyDisplayedResults]. *)
Definition shownAtTheEnd (w : World) : Prop :=
  displayedValues (searchResults (this w)) `suffix_of` displayed (this w).

(** A method that either leaves [facet.unfadeInactiveValuesInMainList]
    alone and the scroll listeners as they are, or ends with the fields
    dismissed. *)
Definition quietOrDismissed : Rel := λ w w' effs,
  ((UnfadeInactiveValuesInMainList ∉ effs)
   ∧ scrollListeners (this w') = scrollListeners (this w))
  ∨ this w' = dismissedFields (scrollListeners (this w)).

(** The number of scroll listeners does not go down. *)
Definition listenersKept : relation FacetSearch :=
  λ s s', (scrollListeners s ≤ scrollListeners s')%nat.

(** ** The listeners on the window and on the document

    The constructor of the class registers two listeners outside the
    facet, and [handleNuke] is there to take them away.  The browser keeps,
    for each target and event type, the function objects registered, and
    [removeEventListener] takes away the listener that is the very function
    object it is given.  The function objects at hand are the two the
    constructor stores in fields ([this.onResize], the debounced function,
    and [this.onDocumentClick]) and the two arrow functions it passes to
    [addEventListener], which call them. *)
Module Listeners.

Inductive EventTarget := Window | Document.

Inductive FunctionObject :=
| OnResize             (* this.onResize = _.debounce(...) *)
| OnDocumentClick      (* this.onDocumentClick = (e) => ... *)
| ResizeArrow          (* () => this.onResize() *)
| ClickArrow.          (* (e) => this.onDocumentClick(e) *)

(** A listener: target, event type, and the function object, told apart
    by the instance that created it. *)
Definition Listener : Type := EventTarget * string * (nat * FunctionObject).

#[global] Instance EventTarget_eq_dec : EqDecision EventTarget.
Proof. solve_decision. Defined.

#[global] Instance FunctionObject_eq_dec : EqDecision FunctionObject.
Proof. solve_decision. Defined.

(** [target.addEventListener(type, f)]: a listener already there is not
    added twice. *)
Definition addEventListener (l : Listener) (ls : list Listener) : list Listener :=
  if decide (l ∈ ls) then ls else ls ++ [l].

(** [target.removeEventListener(type, f)]. *)
Definition removeEventListener (l : Listener) (ls : list Listener) : list Listener :=
  filter (λ l', l' ≠ l) ls.

(** The two registrations of the constructor of instance [inst]. *)
Definition constructor (inst : nat) (ls : list Listener) : list Listener :=
  addEventListener (Document, "click", (inst, ClickArrow))
    (addEventListener (Window, "resize", (inst, ResizeArrow)) ls).

Definition handleNuke (inst : nat) (ls : list Listener) : list Listener :=
  removeEventListener (Document, "click", (inst, OnDocumentClick))
    (removeEventListener (Window, "resize", (inst, OnResize)) ls).

(** The function objects the browser calls for an event. *)
Definition dispatch (target : EventTarget) (type : string) (ls : list Listener)
    : list (nat * FunctionObject) :=
  omap (λ l : Listener,
          if decide (l.1 = (target, type)) then Some l.2 else None) ls.

End Listeners.

(** A facet of the old design on a mobile device, and a state in which an
    explicit search on an empty input is under way (request 0), for the
    concrete runs below. *)
Definition mobileFacet : Facet :=
  {| deviceIsMobile := true; isNewDesign := false; reorderValues := id;
     numberOfValuesInFacetSearch := 15; searchEvenIfEmptyByDefault := true;
     values_get := λ _, None |}.

Definition awaiting : World :=
  execState (run desktopFacet [KeyUp ENTER true]) initial.

Definition plainSearch : FacetSearchParameters :=
  {| valueToSearch := ""; alwaysExclude := []; nbResults := 15;
     fetchMore := false; searchEvenIfEmpty := true |}.

(** The arrival of an answer. *)
Definition isAnswer (ev : Event) : bool :=
  match ev with PromiseFulfilled _ _ => true | _ => false end.

(** Nothing has been rendered since the last dismiss. *)
Definition nothingRendered (w : World) : Prop :=
  currentlyDisplayedResults (this w) = None.

(** * What the methods guarantee *)

(** ** The method monad: how a sequence runs *)

Lemma execState_bind {A B} (m : M A) (k : A → M B) w :
  execState (m ≫= k) w = execState (k (evalM m w)) (execState m w).
Proof.
  unfold execState, evalM, mbind, M_bind.
  destruct (m w) as [[a w1] e1]. simpl. by destruct (k a w1) as [[b w2] e2].
Qed.

Lemma execEffects_bind {A B} (m : M A) (k : A → M B) w :
  execEffects (m ≫= k) w
  = execEffects m w ++ execEffects (k (evalM m w)) (execState m w).
Proof.
  unfold execEffects, execState, evalM, mbind, M_bind.
  destruct (m w) as [[a w1] e1]. simpl. by destruct (k a w1) as [[b w2] e2].
Qed.

Lemma bind_run {A B} (m : M A) (k : A → M B) w :
  (m ≫= k) w
  = ((k (evalM m w) (execState m w)).1.1,
     (k (evalM m w) (execState m w)).1.2,
     execEffects m w ++ (k (evalM m w) (execState m w)).2).
Proof.
  unfold execEffects, execState, evalM, mbind, M_bind.
  destruct (m w) as [[a w1] e1]. simpl. by destruct (k a w1) as [[b w2] e2].
Qed.

Lemma M_eta {A} (m : M A) w : m w = (evalM m w, execState m w, execEffects m w).
Proof. unfold evalM, execState, execEffects. by destruct (m w) as [[a w1] e1]. Qed.

(** ** Facts about the result list *)
Module DomFacts.
Import Dom.

Lemma findAllFrom_elem cls k rs p :
  p ∈ findAllFrom cls k rs ↔
  (k ≤ p)%nat ∧ ∃ e, rs !! (p - k)%nat = Some e ∧ cls e = true.
Proof.
  revert k. induction rs as [|e rs IH]; intros k; simpl.
  - rewrite elem_of_nil. split; [tauto|]. intros (_ & e & He & _). discriminate.
  - rewrite elem_of_app, IH. split.
    + intros [Hh | (Hk & e' & He' & Hc)].
      * destruct (cls e) eqn:Hc; [|by apply elem_of_nil in Hh].
        apply list_elem_of_singleton in Hh as ->. split; [lia|].
        exists e. by rewrite Nat.sub_diag.
      * split; [lia|]. exists e'. split; [|done].
        replace (p - k)%nat with (S (p - S k)) by lia. done.
    + intros (Hk & e' & He' & Hc).
      destruct (decide (p = k)) as [->|Hne].
      * left. rewrite Nat.sub_diag in He'. simplify_eq/=. rewrite Hc.
        apply list_elem_of_singleton. done.
      * right. split; [lia|]. exists e'. split; [|done].
        replace (p - k)%nat with (S (p - S k)) in He' by lia. done.
Qed.

Lemma findAll_elem cls rs p :
  p ∈ findAll cls rs ↔ ∃ e, rs !! p = Some e ∧ cls e = true.
Proof.
  unfold findAll. rewrite findAllFrom_elem, Nat.sub_0_r.
  split; [tauto|]. intros H. split; [lia|done].
Qed.

Lemma findAllFrom_NoDup cls k rs : NoDup (findAllFrom cls k rs).
Proof.
  revert k. induction rs as [|e rs IH]; intros k; simpl; [constructor|].
  destruct (cls e); simpl; [|apply IH].
  constructor; [|apply IH].
  rewrite findAllFrom_elem. lia.
Qed.

Lemma findAllFrom_ext cls cls' k rs rs' :
  cls <$> rs = cls' <$> rs' → findAllFrom cls k rs = findAllFrom cls' k rs'.
Proof.
  revert k rs'. induction rs as [|e rs IH]; intros k [|e' rs'] H;
    simplify_eq/=; [done|].
  f_equal; [by rewrite H|]. by apply IH.
Qed.

Lemma removeCurrentEach_cleared_from pre rs :
  removeCurrentEach (findAllFrom coveo_facet_selectable (length pre) rs) (pre ++ rs)
  = pre ++ cleared rs.
Proof.
  revert pre. induction rs as [|e rs IH]; intros pre; simpl; [done|].
  specialize (IH (pre ++ [if coveo_facet_selectable e then with_current false e else e])).
  rewrite length_app, Nat.add_1_r in IH. simpl in IH.
  rewrite <- !(assoc_L (++)) in IH. simpl in IH. rewrite <- IH.
  destruct (coveo_facet_selectable e); simpl; [|done].
  unfold removeCurrentEach at 1. simpl. f_equal.
  unfold removeCurrent. rewrite alter_app_r_alt by lia.
  replace (length pre - length pre)%nat with 0%nat by lia. done.
Qed.

Lemma removeCurrentEach_cleared rs :
  removeCurrentEach (findAll coveo_facet_selectable rs) rs = cleared rs.
Proof. apply (removeCurrentEach_cleared_from []). Qed.

Lemma findAll_selectable_cleared rs :
  findAll coveo_facet_selectable (cleared rs) = findAll coveo_facet_selectable rs.
Proof.
  apply findAllFrom_ext. unfold cleared. rewrite <- list_fmap_compose.
  apply list_fmap_ext. intros ? e ?. simpl. by destruct (coveo_facet_selectable e) eqn:E.
Qed.

Lemma findAll_selectable_addCurrent target rs :
  findAll coveo_facet_selectable (addCurrent target rs)
  = findAll coveo_facet_selectable rs.
Proof.
  destruct target as [q|]; [|done]. apply findAllFrom_ext. simpl.
  rewrite (list_fmap_alter _ _ id), list_alter_id; [done..|].
  by apply Forall_forall.
Qed.

Lemma length_cleared rs : length (cleared rs) = length rs.
Proof. apply length_fmap. Qed.

Lemma findAll_lt cls rs p : p ∈ findAll cls rs → (p < length rs)%nat.
Proof. rewrite findAll_elem. intros (e & He & _). by eapply lookup_lt_Some. Qed.

Lemma NoDup_only {A} (l : list A) (q : A) :
  NoDup l → (∀ x, x ∈ l ↔ x = q) → l = [q].
Proof.
  intros Hnd Hq. destruct l as [|x l].
  - specialize (Hq q). rewrite elem_of_nil in Hq. tauto.
  - assert (x = q) as -> by (apply Hq; left).
    f_equal. destruct l as [|y l]; [done|].
    assert (y = q) as -> by (apply Hq; right; left).
    apply NoDup_cons in Hnd as [Hnd _]. exfalso. apply Hnd. left.
Qed.

(** Once no selectable child carries the class, no child does, provided
    the class only ever sat on selectable children. *)
Lemma findAll_current_cleared rs :
  findAll coveo_current rs ⊆ findAll coveo_facet_selectable rs →
  findAll coveo_current (cleared rs) = [].
Proof.
  intros Hsub. apply elem_of_nil_inv. intros p.
  rewrite findAll_elem. intros (e' & He' & Hc). unfold cleared in He'.
  rewrite list_lookup_fmap in He'.
  destruct (rs !! p) as [e|] eqn:He; simplify_eq/=.
  destruct (coveo_facet_selectable e) eqn:Hs; [done|].
  assert (p ∈ findAll coveo_facet_selectable rs) as Hp.
  { apply Hsub, findAll_elem. eauto. }
  apply findAll_elem in Hp as (e2 & He2 & Hs2). congruence.
Qed.

Lemma findAll_current_addCurrent rs q :
  findAll coveo_current rs = [] → (q < length rs)%nat →
  findAll coveo_current (addCurrent (Some q) rs) = [q].
Proof.
  intros Hnone Hq. apply NoDup_only; [apply findAllFrom_NoDup|].
  intros p. rewrite findAll_elem. simpl. split.
  - intros (e & He & Hc). destruct (decide (p = q)) as [|Hne]; [done|].
    rewrite list_lookup_alter_ne in He by done.
    assert (p ∈ findAll coveo_current rs) as Hp by (apply findAll_elem; eauto).
    rewrite Hnone in Hp. by apply elem_of_nil in Hp.
  - intros ->. rewrite list_lookup_alter_eq.
    destruct (lookup_lt_is_Some_2 rs q Hq) as [e He]. rewrite He. simpl. eauto.
Qed.

Lemma indexOfFrom_lookup l k i p :
  NoDup l → l !! i = Some p → indexOfFrom k l p = k + Z.of_nat i.
Proof.
  revert k i. induction l as [|y l IH]; intros k i Hnd Hi; [done|].
  apply NoDup_cons in Hnd as [Hy Hnd]. simpl. destruct (decide (y = p)) as [->|Hne].
  - destruct i as [|i]; [lia|]. simpl in Hi. exfalso. apply Hy.
    by eapply list_elem_of_lookup_2.
  - destruct i as [|i]; simplify_eq/=. rewrite (IH _ i) by done. lia.
Qed.

Lemma indexOf_lookup cls rs i p :
  findAll cls rs !! i = Some p → indexOf (findAll cls rs) (Some p) = Z.of_nat i.
Proof.
  intros Hi. unfold indexOf. rewrite (indexOfFrom_lookup _ _ i); [lia| |done].
  apply findAllFrom_NoDup.
Qed.

Lemma at_index_nat l (i : nat) : at_index l (Z.of_nat i) = l !! i.
Proof. unfold at_index. rewrite decide_True by lia. by rewrite Nat2Z.id. Qed.

Lemma indexOfFrom_cases l k p :
  (indexOfFrom k l p = -1 ∧ p ∉ l) ∨
  (∃ i : nat, indexOfFrom k l p = k + Z.of_nat i ∧ l !! i = Some p).
Proof.
  revert k. induction l as [|y l IH]; intros k; simpl.
  - left. split; [done|]. apply not_elem_of_nil.
  - destruct (decide (y = p)) as [->|Hne].
    + right. exists 0%nat. split; [lia|done].
    + destruct (IH (k + 1)) as [[-> Hp]|(i & -> & Hi)].
      * left. split; [done|]. rewrite elem_of_cons. by intros [?|?].
      * right. exists (S i). split; [lia|done].
Qed.

Lemma cursor_Some rs i :
  cursor rs = Some i ↔
  ∃ (j : nat) p, i = Z.of_nat j ∧ findAll coveo_facet_selectable rs !! j = Some p
                 ∧ findAll coveo_current rs = [p].
Proof.
  unfold cursor. split.
  - destruct (findAll coveo_current rs) as [|p [|? ?]]; try done.
    case_bool_decide as Hi; [|done]. intros [= <-].
    unfold indexOf in *.
    destruct (indexOfFrom_cases (findAll coveo_facet_selectable rs) 0 p)
      as [[E _]|(j & E & Hj)]; rewrite E in *; [lia|].
    exists j, p. split; [lia|done].
  - intros (j & p & -> & Hj & ->).
    rewrite (indexOf_lookup _ _ j) by done.
    rewrite bool_decide_eq_true_2 by lia. done.
Qed.

Lemma cursor_addCurrent_cleared rs (j : nat) q :
  findAll coveo_current rs ⊆ findAll coveo_facet_selectable rs →
  findAll coveo_facet_selectable rs !! j = Some q →
  cursor (addCurrent (Some q) (cleared rs)) = Some (Z.of_nat j).
Proof.
  intros Hsub Hj. apply cursor_Some. exists j, q. split; [done|]. split.
  - by rewrite findAll_selectable_addCurrent, findAll_selectable_cleared.
  - apply findAll_current_addCurrent; [by apply findAll_current_cleared|].
    rewrite length_cleared. eapply findAll_lt, list_elem_of_lookup_2, Hj.
Qed.

Lemma moveCurrentResultDown_results w :
  searchResults (this (execState moveCurrentResultDown w)) =
    let rs := searchResults (this w) in
    let rs1 := removeCurrentEach (findAll coveo_facet_selectable rs) rs in
    let allSelectables := findAll coveo_facet_selectable rs1 in
    let idx := indexOf allSelectables (find coveo_current rs) in
    addCurrent
      (if bool_decide (idx < Z.of_nat (length allSelectables) - 1)
       then at_index allSelectables (idx + 1)
       else at_index allSelectables 0) rs1.
Proof.
  unfold moveCurrentResultDown, execState, getSelectables, gets, modify, mbind, M_bind.
  simpl. by case_bool_decide.
Qed.

Lemma moveCurrentResultUp_results w :
  searchResults (this (execState moveCurrentResultUp w)) =
    let rs := searchResults (this w) in
    let rs1 := removeCurrentEach (findAll coveo_facet_selectable rs) rs in
    let allSelectables := findAll coveo_facet_selectable rs1 in
    let idx := indexOf allSelectables (find coveo_current rs) in
    addCurrent
      (if bool_decide (0 < idx)
       then at_index allSelectables (idx - 1)
       else at_index allSelectables (Z.of_nat (length allSelectables) - 1)) rs1.
Proof.
  unfold moveCurrentResultUp, execState, getSelectables, gets, modify, mbind, M_bind.
  simpl. by case_bool_decide.
Qed.

Lemma cursor_at_index rs (j : nat) :
  findAll coveo_current rs ⊆ findAll coveo_facet_selectable rs →
  Z.of_nat j < selectableCount rs →
  cursor (addCurrent (at_index (findAll coveo_facet_selectable rs) (Z.of_nat j))
                     (cleared rs)) = Some (Z.of_nat j).
Proof.
  intros Hsub Hj. unfold selectableCount in Hj. rewrite at_index_nat.
  destruct (lookup_lt_is_Some_2 (findAll coveo_facet_selectable rs) j) as [q Hq]; [lia|].
  rewrite Hq. by apply cursor_addCurrent_cleared.
Qed.

Lemma cursor_bounds rs i :
  cursor rs = Some i →
  0 ≤ i < selectableCount rs ∧
  findAll coveo_current rs ⊆ findAll coveo_facet_selectable rs ∧
  indexOf (findAll coveo_facet_selectable rs) (find coveo_current rs) = i.
Proof.
  intros (j & p & -> & Hj & Hc)%cursor_Some. split; [|split].
  - apply lookup_lt_Some in Hj. unfold selectableCount. lia.
  - rewrite Hc. intros x ->%list_elem_of_singleton.
    by eapply list_elem_of_lookup_2.
  - unfold find. rewrite Hc. simpl. by apply indexOf_lookup.
Qed.

Lemma unset_bounds rs :
  unset rs →
  findAll coveo_current rs ⊆ findAll coveo_facet_selectable rs ∧
  indexOf (findAll coveo_facet_selectable rs) (find coveo_current rs) = -1.
Proof.
  unfold unset, find. intros ->. split; [|done].
  intros x Hx. by apply elem_of_nil in Hx.
Qed.

Lemma cursor_moveDown w i :
  cursor (searchResults (this w)) = Some i →
  cursor (searchResults (this (execState moveCurrentResultDown w)))
  = Some ((i + 1) mod selectableCount (searchResults (this w))).
Proof.
  intros (Hi & Hsub & Hidx)%cursor_bounds.
  rewrite moveCurrentResultDown_results. cbv zeta.
  rewrite removeCurrentEach_cleared, findAll_selectable_cleared, Hidx.
  fold (selectableCount (searchResults (this w))).
  set (n := selectableCount _) in *.
  case_bool_decide as Hlt.
  - rewrite Z.mod_small by lia.
    replace (i + 1) with (Z.of_nat (Z.to_nat (i + 1))) by lia.
    apply cursor_at_index; [done|]. fold n. lia.
  - replace (i + 1) with n by lia. rewrite Z.mod_same by lia.
    apply (cursor_at_index _ 0%nat); [done|]. fold n. lia.
Qed.

Lemma cursor_moveUp w i :
  cursor (searchResults (this w)) = Some i →
  cursor (searchResults (this (execState moveCurrentResultUp w)))
  = Some ((i - 1) mod selectableCount (searchResults (this w))).
Proof.
  intros (Hi & Hsub & Hidx)%cursor_bounds.
  rewrite moveCurrentResultUp_results. cbv zeta.
  rewrite removeCurrentEach_cleared, findAll_selectable_cleared, Hidx.
  fold (selectableCount (searchResults (this w))).
  set (n := selectableCount _) in *.
  case_bool_decide as Hlt.
  - rewrite Z.mod_small by lia.
    replace (i - 1) with (Z.of_nat (Z.to_nat (i - 1))) by lia.
    apply cursor_at_index; [done|]. fold n. lia.
  - assert (i = 0) as -> by lia.
    replace (0 - 1) with (-1 * n + (n - 1)) by lia.
    rewrite Z.add_comm, Z.mod_add, Z.mod_small by lia.
    replace (n - 1) with (Z.of_nat (Z.to_nat (n - 1))) by lia.
    apply cursor_at_index; [done|]. fold n. lia.
Qed.

Lemma selectableCount_moveDown w :
  selectableCount (searchResults (this (execState moveCurrentResultDown w)))
  = selectableCount (searchResults (this w)).
Proof.
  rewrite moveCurrentResultDown_results. cbv zeta. unfold selectableCount.
  by rewrite findAll_selectable_addCurrent, removeCurrentEach_cleared,
    findAll_selectable_cleared.
Qed.

End DomFacts.
Import DomFacts.

(** ** Moving the cursor *)

(** C8: over a list with n >= 1 selectable entries, [moveCurrentResultDown]
    takes the cursor from index i to (i + 1) mod n and [moveCurrentResultUp]
    to (i - 1) mod n, so that down from the last index gives 0 and up from 0
    gives the last index; down followed by up gives i back; with no cursor
    set, down anchors the first entry and up the last. *)
Theorem cursor_moves_with_wraparound w :
  let rs := searchResults (this w) in
  let n := selectableCount rs in
  let after (m : M unit) := searchResults (this (execState m w)) in
  0 < n →
  (∀ i, cursor rs = Some i →
     cursor (after moveCurrentResultDown) = Some ((i + 1) mod n) ∧
     cursor (after moveCurrentResultUp) = Some ((i - 1) mod n) ∧
     cursor (after (moveCurrentResultDown;; moveCurrentResultUp)) = Some i) ∧
  (unset rs →
     cursor (after moveCurrentResultDown) = Some 0 ∧
     cursor (after moveCurrentResultUp) = Some (n - 1)).
Proof.
  intros rs n after Hn. subst after. split.
  - intros i Hi. split; [by apply cursor_moveDown|]. split; [by apply cursor_moveUp|].
    rewrite execState_bind.
    pose proof (cursor_bounds _ _ Hi) as (Hb & _ & _). fold rs n in Hb.
    rewrite (cursor_moveUp _ ((i + 1) mod n)) by by apply cursor_moveDown.
    rewrite selectableCount_moveDown. fold rs n. f_equal.
    destruct (decide (i + 1 < n)).
    + rewrite (Z.mod_small (i + 1)) by lia. replace (i + 1 - 1) with i by lia.
      apply Z.mod_small. lia.
    + replace (i + 1) with n by lia. rewrite Z.mod_same by lia.
      replace (0 - 1) with (-1 * n + (n - 1)) by lia.
      rewrite Z.add_comm, Z.mod_add, Z.mod_small by lia. lia.
  - intros (Hsub & Hidx)%unset_bounds. fold rs in Hsub, Hidx. split.
    + rewrite moveCurrentResultDown_results. cbv zeta.
      rewrite removeCurrentEach_cleared, findAll_selectable_cleared. fold rs.
      rewrite Hidx. fold (selectableCount rs). fold n.
      rewrite bool_decide_eq_true_2 by lia.
      apply (cursor_at_index _ 0%nat); [done|]. fold n. lia.
    + rewrite moveCurrentResultUp_results. cbv zeta.
      rewrite removeCurrentEach_cleared, findAll_selectable_cleared. fold rs.
      rewrite Hidx. fold (selectableCount rs). fold n.
      rewrite bool_decide_eq_false_2 by lia.
      replace (n - 1) with (Z.of_nat (Z.to_nat (n - 1))) by lia.
      apply cursor_at_index; [done|]. fold n. lia.
Qed.

(** ** Rules for [sat] *)
Section Sat.
Context (R : Rel) `{!Compositional R}.

Lemma sat_ret {A} (a : A) : sat R (mret a).
Proof. intros w. apply rel_refl. Qed.

Lemma sat_bind {A B} (m : M A) (k : A → M B) :
  sat R m → (∀ a, sat R (k a)) → sat R (m ≫= k).
Proof.
  intros Hm Hk w. rewrite execState_bind, execEffects_bind.
  eapply rel_trans; [apply Hm|apply Hk].
Qed.

Lemma sat_gets {A} (f : FacetSearch → A) : sat R (gets f).
Proof. intros w. apply rel_refl. Qed.

Lemma sat_when b (m : M unit) : sat R m → sat R (when b m).
Proof. destruct b; [done|]. intros _. apply sat_ret. Qed.

Lemma sat_iter n (m : M unit) :
  sat R m → sat R (Nat.iter n (λ rest, m;; rest) (mret tt)).
Proof.
  intros Hm. induction n as [|n IH]; simpl; [apply sat_ret|].
  by apply sat_bind.
Qed.
End Sat.

#[global] Instance unlessDismissed_compositional (P : relation FacetSearch) :
  PreOrder P → Compositional (unlessDismissed P).
Proof.
  intros HP. split.
  - intros w. by right.
  - intros w1 w2 w3 e1 e2 [H1|H1] [H2|H2].
    + left. apply elem_of_app. by left.
    + left. apply elem_of_app. by left.
    + left. apply elem_of_app. by right.
    + right. by etrans.
Qed.

#[global] Instance unlessDismissed_from_fields P : FromFields P (unlessDismissed P).
Proof. intros w w' effs H. by right. Qed.

#[global] Instance onFields_compositional (P : relation FacetSearch) :
  PreOrder P → Compositional (onFields P).
Proof.
  intros HP. split.
  - intros w. unfold onFields. done.
  - intros w1 w2 w3 e1 e2 H1 H2. unfold onFields in *. by etrans.
Qed.

#[global] Instance onFields_from_fields P : FromFields P (onFields P).
Proof. intros w w' effs H. done. Qed.

#[global] Instance extends_preorder : PreOrder extends.
Proof.
  split.
  - intros s. by left.
  - intros s1 s2 s3 [H12|[l H12]] [H23|[l' H23]].
    + left. congruence.
    + right. exists l'. rewrite H23. unfold displayed. by rewrite H12.
    + right. exists l. congruence.
    + right. exists (l ++ l'). rewrite H23. unfold displayed at 1. rewrite H12. simpl.
      by rewrite (assoc_L (++)).
Qed.

#[global] Instance notRaised_preorder : PreOrder notRaised.
Proof. split; unfold notRaised; [intros s|intros s1 s2 s3]; tauto. Qed.

#[global] Instance keepsCurrentOnSelectables_preorder : PreOrder keepsCurrentOnSelectables.
Proof. split; unfold keepsCurrentOnSelectables; [intros s|intros s1 s2 s3]; tauto. Qed.

Section SatFields.
Context (P : relation FacetSearch) `{!PreOrder P} (R : Rel) `{!FromFields P R}.

Lemma sat_fields {A} (m : M A) :
  (∀ w, P (this w) (this (execState m w))) → sat R m.
Proof. intros H w. apply from_fields, H. Qed.

Lemma sat_emit e : sat R (emit e).
Proof. by apply sat_fields. Qed.

Lemma sat_modify f : (∀ s, P s (f s)) → sat R (modify f).
Proof. intros Hf. apply sat_fields. intros w. apply Hf. Qed.

Lemma sat_setTimeout cb : sat R (setTimeout cb).
Proof. by apply sat_fields. Qed.

Lemma sat_clearTimeout id : sat R (clearTimeout id).
Proof. by apply sat_fields. Qed.

Lemma sat_search params : sat R (facetQueryController_search params).
Proof. by apply sat_fields. Qed.

Lemma sat_attach promise cb : sat R (attach promise cb).
Proof. by apply sat_fields. Qed.

Lemma sat_takeTimer id : sat R (takeTimer id).
Proof. by apply sat_fields. Qed.

Lemma sat_takePromise id : sat R (takePromise id).
Proof. by apply sat_fields. Qed.
End SatFields.

(** A full dismiss is always visible in the trace. *)
Lemma dismiss_calls_unfade w :
  UnfadeInactiveValuesInMainList ∈ execEffects completelyDismissSearch w.
Proof.
  unfold completelyDismissSearch. rewrite execEffects_bind.
  apply elem_of_app. right. rewrite execEffects_bind.
  apply elem_of_app. left. apply list_elem_of_singleton. done.
Qed.

Lemma sat_completelyDismissSearch P : sat (unlessDismissed P) completelyDismissSearch.
Proof. intros w. left. apply dismiss_calls_unfade. Qed.

(** Every method but [completelyDismissSearch], for unfolding; what is
    already known of a method is kept in the database [sat]. *)
Create HintDb methods discriminated.
#[global] Hint Unfold
  handle run handleFacetSearchKeyUp handleKeyboardNavigation
  keyboardNavigationEnterPressed keyboardNavigationDeletePressed
  showOrHideClearElement handleFacetSearchFocus handleClickElsewhere
  handleFacetSearchClear onResize isSelectable isSelectAllEntry
  selectAllValuesMatchingSearch selectAllFulfilled
  performSelectActionOnCurrentSearchResult
  performExcludeActionOnCurrentSearchResult Assert_check click
  handleFacetSearchResultsScroll searchTimeoutFired startNewSearchTimeout
  buildParamsForFetchingMore buildParamsForExcludingCurrentlyDisplayedValues
  buildParamsForNormalSearch facetSearchRejected facetSearchFulfilled
  triggerNewFacetSearch processNewFacetSearchResults rebuildSearchResults
  moveCurrentResultUp moveCurrentResultDown makeFirstSearchResultTheCurrentOne
  makeCurrentResult highlightCurrentQueryWithinSearchResults
  showSearchResultsElement positionSearchResults hideSearchResultsElement
  cancelAnyPendingSearchOperation hideFacetSearchWaitingAnimation
  showFacetSearchWaitingAnimation appendChild getSelectables
  getValueInInputForFacetSearch : methods.

(** One step down the structure of a method; [solve_modify] settles what a
    field update does to the relation at hand. *)
Create HintDb sat discriminated.

Ltac sat_step P solve_modify :=
  first
    [ solve [auto with sat nocore]
    | apply sat_completelyDismissSearch
    | apply sat_bind; [tc_solve| |intros ?]
    | apply sat_ret; tc_solve
    | apply sat_gets; tc_solve
    | apply (sat_emit P); tc_solve
    | apply sat_when; [tc_solve|]
    | apply sat_iter; [tc_solve|]
    | apply (sat_setTimeout P); tc_solve
    | apply (sat_clearTimeout P); tc_solve
    | apply (sat_search P); tc_solve
    | apply (sat_attach P); tc_solve
    | apply (sat_takeTimer P); tc_solve
    | apply (sat_takePromise P); tc_solve
    | apply (sat_modify P); [tc_solve|intros ?; solve_modify]
    | progress cbv zeta
    | match goal with
      | |- sat _ (match ?x with _ => _ end) => destruct x
      end
    | progress autounfold with methods ].

Ltac sat_auto P solve_modify := repeat sat_step P solve_modify.

(** ** The list of displayed identifiers only grows *)

Ltac solve_extends :=
  first
    [ by left
    | right;
      match goal with
      | |- context [currentlyDisplayedResults ?s] =>
          unfold displayed; destruct (currentlyDisplayedResults s); by eexists
      end ].

Lemma handle_extends facet ev : sat (unlessDismissed extends) (handle facet ev).
Proof. destruct ev; sat_auto extends solve_extends. Qed.

Lemma run_extends facet evs : sat (unlessDismissed extends) (run facet evs).
Proof.
  induction evs as [|ev evs IH]; simpl; [apply sat_ret; tc_solve|].
  apply sat_bind; [tc_solve|apply handle_extends|done].
Qed.

Lemma facetSearchFulfilled_extends facet params fieldValues :
  sat (onFields extends) (facetSearchFulfilled facet params fieldValues).
Proof. sat_auto extends solve_extends. Qed.

Lemma rebuildSearchResults_concat facet fieldValues params w :
  currentlyDisplayedResults
    (this (execState (rebuildSearchResults facet fieldValues params) w))
  = Some (displayed (this w) ++ (fv_value <$> fieldValues)).
Proof.
  unfold rebuildSearchResults, execState, appendChild, modify, when, mbind, M_bind,
    mret, M_ret, displayed.
  rewrite <- list_fmap_compose.
  destruct (fetchMore params), (isNonEmptyString (valueToSearch params)),
    (isMobileDevice facet), (isNewDesign facet),
    (currentlyDisplayedResults (this w)) eqn:E; simpl; rewrite ?E; reflexivity.
Qed.

(** C10: within a session [currentlyDisplayedResults] only grows.  Every
    render, a "replace" render included, concatenates the rendered values
    onto the list; a render never clears it; over any run of events the
    list is kept or extended at its end unless the run went through
    [completelyDismissSearch], the one method that sets it to undefined. *)
Theorem currentlyDisplayedResults_only_grows facet :
  (∀ w fieldValues params,
     currentlyDisplayedResults
       (this (execState (rebuildSearchResults facet fieldValues params) w))
     = Some (displayed (this w) ++ (fv_value <$> fieldValues)))
  ∧ (∀ w params fieldValues,
       extends (this w)
         (this (execState (facetSearchFulfilled facet params fieldValues) w)))
  ∧ (∀ evs w,
       UnfadeInactiveValuesInMainList ∈ execEffects (run facet evs) w
       ∨ extends (this w) (this (execState (run facet evs) w)))
  ∧ (∀ w, currentlyDisplayedResults (this (execState completelyDismissSearch w)) = None).
Proof.
  split; [|split; [|split]].
  - intros. apply rebuildSearchResults_concat.
  - intros w params fieldValues. apply (facetSearchFulfilled_extends facet params fieldValues w).
  - intros evs w. apply (run_extends facet evs w).
  - intros w. unfold completelyDismissSearch. by rewrite !execState_bind.
Qed.

(** ** Dismissing *)

(** Methods that begin with [cancelAnyPendingSearchOperation] branch on the
    two handles only; each branch then computes. *)
Ltac by_handles w :=
  destruct w as [[? ? ? ? ? ? ? [?|] ? [?|] ?] ? ? ?];
  lazy -[insert delete lookup]; repeat split.

Lemma completelyDismissSearch_spec w :
  let w' := execState completelyDismissSearch w in
  searchResults (this w') = []
  ∧ moreValuesToFetch (this w') = true
  ∧ inputValue (this w') = ""
  ∧ currentlyDisplayedResults (this w') = None
  ∧ facetSearchTimeout (this w') = None
  ∧ facetSearchPromise (this w') = None
  ∧ showingFacetSearchWaitAnimation (this w') = false
  ∧ execState completelyDismissSearch w' = w'.
Proof. by_handles w. Qed.

(** C7: after [completelyDismissSearch], from any state, the rendered list
    is empty, no entry carries the cursor, [moreValuesToFetch] is true, the
    input is cleared and [currentlyDisplayedResults] is undefined; nothing is
    left pending; a second call changes nothing. *)
Theorem completelyDismissSearch_resets_and_is_idempotent w :
  let w' := execState completelyDismissSearch w in
  searchResults (this w') = []
  ∧ unset (searchResults (this w'))
  ∧ cursor (searchResults (this w')) = None
  ∧ moreValuesToFetch (this w') = true
  ∧ inputValue (this w') = ""
  ∧ currentlyDisplayedResults (this w') = None
  ∧ facetSearchTimeout (this w') = None
  ∧ facetSearchPromise (this w') = None
  ∧ showingFacetSearchWaitAnimation (this w') = false
  ∧ execState completelyDismissSearch w' = w'.
Proof.
  pose proof (completelyDismissSearch_spec w) as (Hrs & Hm & Hi & Hd & Ht & Hp & Hs & Hw).
  cbv zeta. unfold unset. rewrite Hrs. by repeat split.
Qed.

(** ** Timers and promises: what an event runs *)

Lemma triple_eta {A} (x : A * World * list Effect) :
  (let '(b, w2, e2) := x in (b, w2, [] ++ e2)) = x.
Proof. by destruct x as [[b w2] e2]. Qed.

Lemma handle_TimerFired facet id w cb :
  timers w !! id = Some cb →
  handle facet (TimerFired id) w
  = match cb with
    | SearchTimeout params => searchTimeoutFired params
    | DeferredDismiss => completelyDismissSearch
    end (execState (takeTimer id) w).
Proof.
  intros H. unfold handle, mbind, M_bind, takeTimer, execState. simpl. rewrite H.
  apply triple_eta.
Qed.

Lemma handle_PromiseFulfilled facet id fieldValues w cb :
  promises w !! id = Some cb →
  handle facet (PromiseFulfilled id fieldValues) w
  = match cb with
    | FacetSearchCallbacks params => facetSearchFulfilled facet params fieldValues
    | SelectAllCallbacks => selectAllFulfilled facet fieldValues
    end (execState (takePromise id) w).
Proof.
  intros H. unfold handle, mbind, M_bind, takePromise, execState. simpl. rewrite H.
  apply triple_eta.
Qed.

Lemma handle_PromiseRejected facet id error w cb :
  promises w !! id = Some cb →
  handle facet (PromiseRejected id error) w
  = match cb with
    | FacetSearchCallbacks _ => facetSearchRejected error
    | SelectAllCallbacks => mret tt
    end (execState (takePromise id) w).
Proof.
  intros H. unfold handle, mbind, M_bind, takePromise, execState. simpl. rewrite H.
  apply triple_eta.
Qed.

(** What [triggerNewFacetSearch] leaves behind: one call on the controller,
    and the promise it returned held in [facetSearchPromise]. *)
Lemma triggerNewFacetSearch_spec params w :
  let w' := execState (triggerNewFacetSearch params) w in
  requests (execEffects (triggerNewFacetSearch params) w) = [(nextHandle w, params)]
  ∧ facetSearchPromise (this w') = Some (nextHandle w)
  ∧ promises w' = <[nextHandle w := FacetSearchCallbacks params]> (promises w)
  ∧ facetSearchTimeout (this w') = None
  ∧ showingFacetSearchWaitAnimation (this w') = true.
Proof. by_handles w. Qed.

Lemma completelyDismissSearch_no_request w :
  requests (execEffects completelyDismissSearch w) = [].
Proof. by_handles w. Qed.

(** ** The debounce timer *)

Lemma searchTimeoutFired_cases params w :
  searchTimeoutFired params w
  = if String.eqb (inputValue (this w)) "" && negb (searchEvenIfEmpty params)
    then completelyDismissSearch w
    else triggerNewFacetSearch params w.
Proof.
  unfold searchTimeoutFired, getValueInInputForFacetSearch, gets, mbind, M_bind.
  destruct (String.eqb (inputValue (this w)) ""), (searchEvenIfEmpty params);
    simpl; apply triple_eta.
Qed.

(** C4: when the timer armed by [startNewSearchTimeout] fires with an empty
    input and parameters that do not ask to search even if empty, the
    session is fully dismissed and no request is issued; otherwise exactly
    one facet search is triggered, with the parameters the timer was armed
    with. *)
Theorem searchTimeout_dismisses_or_triggers_once facet w id params :
  timers w !! id = Some (SearchTimeout params) →
  let fired := handle facet (TimerFired id) in
  let w0 := execState (takeTimer id) w in
  if String.eqb (inputValue (this w)) "" && negb (searchEvenIfEmpty params) then
    fired w = completelyDismissSearch w0
    ∧ requests (execEffects fired w) = []
    ∧ searchResults (this (execState fired w)) = []
    ∧ currentlyDisplayedResults (this (execState fired w)) = None
    ∧ facetSearchPromise (this (execState fired w)) = None
  else
    fired w = triggerNewFacetSearch params w0
    ∧ requests (execEffects fired w) = [(nextHandle w, params)]
    ∧ facetSearchPromise (this (execState fired w)) = Some (nextHandle w)
    ∧ promises (execState fired w) !! nextHandle w = Some (FacetSearchCallbacks params).
Proof.
  intros H fired w0. subst fired. unfold execState at 1 2 3 4 5, execEffects.
  rewrite (handle_TimerFired _ _ _ _ H), searchTimeoutFired_cases.
  fold w0. change (inputValue (this w0)) with (inputValue (this w)).
  change (nextHandle w) with (nextHandle w0).
  destruct (String.eqb (inputValue (this w)) "" && negb (searchEvenIfEmpty params)).
  - pose proof (completelyDismissSearch_spec w0) as (Hrs & _ & _ & Hd & _ & Hp & _).
    pose proof (completelyDismissSearch_no_request w0) as Hr. done.
  - pose proof (triggerNewFacetSearch_spec params w0) as (Hr & Hp & Hm & _).
    repeat split; try done.
    fold (execState (triggerNewFacetSearch params) w0).
    rewrite Hm. apply lookup_insert_eq.
Qed.

(** ** A request that fails *)

Lemma facetSearchRejected_spec error w :
  let w' := execState (facetSearchRejected error) w in
  let effs := execEffects (facetSearchRejected error) w in
  timers w' = timers w ∧ promises w' = promises w
  ∧ match error with
    | Some e =>
        effs = [LoggerError e; WaitingAnimationHidden]
        ∧ this w' = set_facetSearchPromise None
                      (set_showingFacetSearchWaitAnimation false (this w))
    | None =>
        effs = [] ∧ this w' = set_facetSearchPromise None (this w)
    end.
Proof. by destruct error. Qed.

(** C3, as the code has it: a rejection with a real error logs it, clears
    the waiting indicator and leaves the session as it is (nothing rendered
    is removed, the input and the displayed identifiers stay, no request is
    issued and no timer armed); a rejection without error value calls no
    collaborator, in particular it does not hide the waiting animation
    again, and it leaves every field other than the pending-request handle
    as it was. *)
Theorem rejection_clears_indicator_only_on_real_error facet w id params error :
  promises w !! id = Some (FacetSearchCallbacks params) →
  let rejected := handle facet (PromiseRejected id error) in
  let w' := execState rejected w in
  let effs := execEffects rejected w in
  searchResults (this w') = searchResults (this w)
  ∧ searchResultsDisplayed (this w') = searchResultsDisplayed (this w)
  ∧ inputValue (this w') = inputValue (this w)
  ∧ currentlyDisplayedResults (this w') = currentlyDisplayedResults (this w)
  ∧ moreValuesToFetch (this w') = moreValuesToFetch (this w)
  ∧ facetSearchTimeout (this w') = facetSearchTimeout (this w)
  ∧ timers w' = timers w
  ∧ requests effs = []
  ∧ match error with
    | Some e =>
        effs = [LoggerError e; WaitingAnimationHidden]
        ∧ showingFacetSearchWaitAnimation (this w') = false
    | None =>
        effs = []
        ∧ ∀ pending, set_facetSearchPromise pending (this w')
                     = set_facetSearchPromise pending (this w)
    end.
Proof.
  intros H rejected w' effs. subst rejected w' effs.
  unfold execState, execEffects. rewrite (handle_PromiseRejected _ _ _ _ _ H).
  destruct w as [s tm pm nh]. by destruct error.
Qed.

(** ** Pagination on scroll *)

Lemma handleFacetSearchResultsScroll_cases facet ch sh st w :
  handleFacetSearchResultsScroll facet ch sh st w
  = if scrollSuppressed (this w) || negb (nearBottom ch sh st) then (tt, w, [])
    else triggerNewFacetSearch (evalM (buildParamsForFetchingMore facet) w) w.
Proof.
  unfold handleFacetSearchResultsScroll, scrollSuppressed, nearBottom,
    getValueInInputForFacetSearch, gets, mbind, M_bind.
  destruct (_ || _ || _); simpl; [done|].
  case_bool_decide; simpl; [|done]. unfold evalM. simpl.
  by destruct (triggerNewFacetSearch _ w) as [[[] w2] e2].
Qed.

Lemma scroll_listeners_idle facet ch sh st n w :
  scrollSuppressed (this w) || negb (nearBottom ch sh st) = true →
  Nat.iter n (λ rest, handleFacetSearchResultsScroll facet ch sh st;; rest) (mret tt) w
  = (tt, w, []).
Proof.
  intros H. induction n as [|n IH]; simpl; [done|].
  unfold mbind, M_bind in *.
  rewrite handleFacetSearchResultsScroll_cases, H. by rewrite IH.
Qed.

Lemma handle_ResultsScroll facet ch sh st w :
  handle facet (ResultsScroll ch sh st) w
  = Nat.iter (scrollListeners (this w))
      (λ rest, handleFacetSearchResultsScroll facet ch sh st;; rest) (mret tt) w.
Proof. unfold handle, gets, mbind at 1, M_bind at 1. apply triple_eta. Qed.

Lemma requests_app e1 e2 : requests (e1 ++ e2) = requests e1 ++ requests e2.
Proof. apply omap_app. Qed.

(** What one scroll event issues: nothing, or the one request of the first
    listener; the listeners after it find that request pending. *)
Lemma handle_ResultsScroll_requests facet ch sh st w :
  requests (execEffects (handle facet (ResultsScroll ch sh st)) w)
  = if scrollSuppressed (this w) || negb (nearBottom ch sh st)
       || bool_decide (scrollListeners (this w) = 0%nat)
    then []
    else [(nextHandle w, evalM (buildParamsForFetchingMore facet) w)].
Proof.
  unfold execEffects. rewrite handle_ResultsScroll.
  destruct (scrollSuppressed (this w) || negb (nearBottom ch sh st)) eqn:Hs.
  { by rewrite scroll_listeners_idle. }
  destruct (scrollListeners (this w)) as [|n]; [done|]. simpl.
  rewrite bind_run. simpl. unfold execEffects, execState.
  rewrite handleFacetSearchResultsScroll_cases, Hs.
  set (params := evalM (buildParamsForFetchingMore facet) w).
  pose proof (triggerNewFacetSearch_spec params w) as (Hr & Hp & _).
  unfold execState, execEffects in Hr, Hp.
  rewrite scroll_listeners_idle.
  - simpl. rewrite app_nil_r. apply Hr.
  - unfold scrollSuppressed. by rewrite Hp.
Qed.

(** C6, as the code has it: a scroll event issues no request when
    [moreValuesToFetch] is false, when the instance holds the handle of a
    request ([facetSearchPromise] is set) or when the input is not empty,
    and in that case changes nothing; when it does issue a request, the
    list is scrolled to within half its height of the bottom, there is
    exactly one request, and that request has [fetchMore] set and excludes
    the values shown. *)
Theorem scroll_pagination_guard facet w clientHeight scrollHeight scrollTop :
  let scrolled := handle facet (ResultsScroll clientHeight scrollHeight scrollTop) in
  let effs := execEffects scrolled w in
  ((moreValuesToFetch (this w) = false ∨ is_Some (facetSearchPromise (this w))
    ∨ inputValue (this w) ≠ "") →
   scrolled w = (tt, w, []))
  ∧ (requests effs ≠ [] →
     2 * (scrollHeight - (scrollTop + clientHeight)) < clientHeight
     ∧ ∃ params,
         requests effs = [(nextHandle w, params)]
         ∧ fetchMore params = true
         ∧ alwaysExclude params = displayedValues (searchResults (this w))
         ∧ valueToSearch params = inputValue (this w)).
Proof.
  intros scrolled effs. subst scrolled effs. split.
  - intros Hg. rewrite handle_ResultsScroll. apply scroll_listeners_idle.
    unfold scrollSuppressed.
    destruct Hg as [->|[[p ->]|Hi]]; simpl.
    + by rewrite !orb_true_r.
    + done.
    + apply String.eqb_neq in Hi. rewrite Hi. simpl. by rewrite orb_true_r.
  - rewrite handle_ResultsScroll_requests.
    destruct (scrollSuppressed (this w)); [done|].
    unfold nearBottom. case_bool_decide; [|done].
    destruct (bool_decide (scrollListeners (this w) = 0%nat)); [done|].
    intros _. split; [done|]. eexists. split; [done|]. done.
Qed.

(** C6 as worded does not hold of the code: the guard of
    [handleFacetSearchResultsScroll] reads the handle [facetSearchPromise],
    not the requests that are under way.  After [x, y] is shown and two
    explicit searches are sent, the rejection without error value of the
    first of the two leaves the handle undefined while the second, the last
    request sent and never superseded, is not settled: a scroll near the
    bottom then sends a "fetch more" request next to it. *)
Lemma scroll_fetches_beside_an_unsettled_request :
  let w3 := execState (run desktopFacet supersededThenCancelled) initial in
  let scrolled := handle desktopFacet (ResultsScroll 100 120 0) in
  promises w3 !! 2%nat
  = Some (FacetSearchCallbacks
            {| valueToSearch := ""; alwaysExclude := []; nbResults := 15;
               fetchMore := false; searchEvenIfEmpty := true |})
  ∧ nextHandle w3 = 3%nat
  ∧ moreValuesToFetch (this w3) = true
  ∧ inputValue (this w3) = ""
  ∧ facetSearchPromise (this w3) = None
  ∧ requests (execEffects scrolled w3)
    = [(3%nat,
        {| valueToSearch := ""; alwaysExclude := ["x"; "y"]; nbResults := 15;
           fetchMore := true; searchEvenIfEmpty := true |})].
Proof. vm_compute. by repeat split. Qed.

(** ** Selecting every matching value *)

Lemma selectAllValuesMatchingSearch_spec facet w :
  let selectAll := selectAllValuesMatchingSearch facet in
  let searchParameters :=
    setValueToSearch (inputValue (this w))
      (with_nbResults 1000 (newFacetSearchParameters facet)) in
  requests (execEffects selectAll w) = [(nextHandle w, searchParameters)]
  ∧ timersArmed (execEffects selectAll w) = []
  ∧ promises (execState selectAll w)
    = <[nextHandle w := SelectAllCallbacks]> (promises w)
  ∧ this (execState selectAll w) = this (execState completelyDismissSearch w).
Proof. by_handles w. Qed.

Lemma selectAllFulfilled_spec facet fieldValues w :
  let fulfilled := selectAllFulfilled facet fieldValues in
  bulkSelections (execEffects fulfilled w) = [markSelected facet <$> fieldValues]
  ∧ requests (execEffects fulfilled w) = []
  ∧ this (execState fulfilled w) = this (execState completelyDismissSearch w).
Proof. by_handles w. Qed.

Lemma completelyDismissSearch_this w1 w2 :
  this w1 = this w2 →
  this (execState completelyDismissSearch w1) = this (execState completelyDismissSearch w2).
Proof.
  destruct w1 as [s1 tm1 pm1 nh1], w2 as [s2 tm2 pm2 nh2]. simpl. intros ->.
  destruct s2 as [? ? ? ? ? ? ? [?|] ? [?|] ?]; lazy -[insert delete lookup]; reflexivity.
Qed.

Lemma markSelected_spec facet fieldValue :
  let facetValue := markSelected facet fieldValue in
  selected facetValue = true ∧ excluded facetValue = false
  ∧ match values_get facet (fv_value fieldValue) with
    | Some known =>
        value facetValue = value known ∧ occurrences facetValue = occurrences known
    | None =>
        value facetValue = fv_value fieldValue
        ∧ occurrences facetValue = numberOfResults fieldValue
    end.
Proof.
  unfold markSelected. by destruct (values_get facet (fv_value fieldValue)).
Qed.

Lemma markSelected_values facet (fieldValues : list IIndexFieldValue) :
  (∀ s known, values_get facet s = Some known → value known = s) →
  value <$> (markSelected facet <$> fieldValues) = fv_value <$> fieldValues.
Proof.
  intros Hget. rewrite <- list_fmap_compose. apply list_fmap_ext.
  intros i fieldValue _. unfold compose.
  destruct (markSelected_spec facet fieldValue) as (_ & _ & Hv). cbv zeta in Hv.
  destruct (values_get facet (fv_value fieldValue)) as [known|] eqn:Hk.
  - destruct Hv as [Hv _]. rewrite Hv. by apply Hget.
  - by destruct Hv as [Hv _].
Qed.

(** C9: [selectAllValuesMatchingSearch] issues exactly one request, at once
    (no timer is armed), for 1000 results and without [fetchMore], and
    leaves the session dismissed whatever becomes of the request; when the
    request fails nothing more happens; when it succeeds with k values there
    is exactly one bulk notification, carrying k values, the i-th of them
    for the i-th returned value (the value the facet holds under that
    identifier, or else a value created from the returned one, with its
    identifier and its number of occurrences), each of them selected and
    not excluded; where the facet holds its values under their own
    identifiers, the identifiers notified are exactly those returned, in
    order. *)
Theorem selectAll_one_request_one_bulk_notification facet w w2 fieldValues error :
  let selectAll := selectAllValuesMatchingSearch facet in
  let promise := nextHandle w in
  promises w2 !! promise = Some SelectAllCallbacks →
  (* the call itself *)
  (∃ params,
     requests (execEffects selectAll w) = [(promise, params)]
     ∧ nbResults params = 1000 ∧ fetchMore params = false
     ∧ valueToSearch params = inputValue (this w))
  ∧ timersArmed (execEffects selectAll w) = []
  ∧ promises (execState selectAll w) !! promise = Some SelectAllCallbacks
  ∧ this (execState selectAll w) = this (execState completelyDismissSearch w)
  (* the request fails *)
  ∧ handle facet (PromiseRejected promise error) w2
    = (tt, execState (takePromise promise) w2, [])
  (* the request succeeds *)
  ∧ (let fulfilled := handle facet (PromiseFulfilled promise fieldValues) in
     ∃ facetValues,
       bulkSelections (execEffects fulfilled w2) = [facetValues]
       ∧ facetValues = markSelected facet <$> fieldValues
       ∧ length facetValues = length fieldValues
       ∧ Forall (λ v, selected v = true ∧ excluded v = false) facetValues
       ∧ this (execState fulfilled w2) = this (execState completelyDismissSearch w2)
       ∧ (∀ (i : nat) fieldValue,
            fieldValues !! i = Some fieldValue →
            ∃ facetValue,
              facetValues !! i = Some facetValue
              ∧ selected facetValue = true ∧ excluded facetValue = false
              ∧ match values_get facet (fv_value fieldValue) with
                | Some known =>
                    value facetValue = value known
                    ∧ occurrences facetValue = occurrences known
                | None =>
                    value facetValue = fv_value fieldValue
                    ∧ occurrences facetValue = numberOfResults fieldValue
                end)
       ∧ ((∀ s known, values_get facet s = Some known → value known = s) →
          value <$> facetValues = fv_value <$> fieldValues)).
Proof.
  intros selectAll promise H. subst selectAll promise.
  pose proof (selectAllValuesMatchingSearch_spec facet w) as (Hr & Ht & Hp & Hd).
  split; [|split; [|split; [|split; [|split]]]].
  - eexists. split; [apply Hr|]. done.
  - done.
  - rewrite Hp. apply lookup_insert_eq.
  - done.
  - by rewrite (handle_PromiseRejected _ _ _ _ _ H).
  - cbv zeta. unfold execEffects, execState.
    rewrite (handle_PromiseFulfilled _ _ _ _ _ H).
    pose proof (selectAllFulfilled_spec facet fieldValues (execState (takePromise (nextHandle w)) w2))
      as (Hb & _ & Hd2).
    eexists. split; [apply Hb|]. split; [done|]. split; [apply length_fmap|].
    split; [apply Forall_fmap, Forall_forall; by intros fv _|].
    fold (execState (selectAllFulfilled facet fieldValues)
            (execState (takePromise (nextHandle w)) w2)).
    fold (execState completelyDismissSearch w2).
    split; [rewrite Hd2; by apply completelyDismissSearch_this|]. split.
    + intros i fieldValue Hi. exists (markSelected facet fieldValue).
      split; [by rewrite list_lookup_fmap, Hi|]. apply markSelected_spec.
    + apply markSelected_values.
Qed.

(** ** Rendering a result set *)

Lemma findAllFrom_app cls k l1 l2 :
  Dom.findAllFrom cls k l1 ++ Dom.findAllFrom cls (k + length l1) l2
  = Dom.findAllFrom cls k (l1 ++ l2).
Proof.
  revert k. induction l1 as [|e l1 IH]; intros k; simpl.
  - by rewrite Nat.add_0_r.
  - rewrite <- (assoc_L (++)). f_equal. rewrite <- IH. do 2 f_equal. lia.
Qed.

Lemma findAllFrom_none cls k l :
  Forall (λ e, cls e = false) l → Dom.findAllFrom cls k l = [].
Proof.
  intros H. revert k. induction H as [|e l He _ IH]; intros k; simpl; [done|].
  by rewrite He, IH.
Qed.

Lemma findAll_current_fresh rs new :
  Forall (λ e, coveo_current e = false) new →
  Dom.findAll coveo_current (rs ++ new) = Dom.findAll coveo_current rs.
Proof.
  intros H. unfold Dom.findAll. rewrite <- findAllFrom_app.
  by rewrite (findAllFrom_none _ _ new), app_nil_r.
Qed.

Lemma currentOnSelectables_fresh rs new :
  Forall (λ e, coveo_current e = false) new →
  currentOnSelectables rs → currentOnSelectables (rs ++ new).
Proof.
  unfold currentOnSelectables. intros Hn H. rewrite findAll_current_fresh by done.
  unfold Dom.findAll at 2. rewrite <- findAllFrom_app.
  intros p Hp. apply elem_of_app. left. by apply H.
Qed.

Lemma build_fresh facetValues : Forall (λ e, coveo_current e = false) (build facetValues).
Proof. apply Forall_fmap, Forall_forall. by intros v _. Qed.

Lemma rendered_fresh facet fieldValues params :
  Forall (λ e, coveo_current e = false) (rendered facet fieldValues params []).
Proof.
  unfold rendered. simpl.
  repeat first
    [ apply build_fresh | apply Forall_app_2 | by repeat constructor | case_match ].
Qed.

Lemma rendered_fetchMore facet fieldValues params rs :
  rendered facet fieldValues params rs
  = (if fetchMore params then rs else []) ++ rendered facet fieldValues params [].
Proof. unfold rendered. by destruct (fetchMore params). Qed.

Lemma rendered_currentOnSelectables facet fieldValues params rs :
  (fetchMore params = true → currentOnSelectables rs) →
  currentOnSelectables (rendered facet fieldValues params rs).
Proof.
  intros H. rewrite rendered_fetchMore.
  apply currentOnSelectables_fresh; [apply rendered_fresh|].
  destruct (fetchMore params); [by apply H|].
  unfold currentOnSelectables. simpl. done.
Qed.

Lemma rebuildSearchResults_results facet fieldValues params w :
  searchResults (this (execState (rebuildSearchResults facet fieldValues params) w))
  = rendered facet fieldValues params (searchResults (this w)).
Proof.
  unfold rebuildSearchResults, rendered, execState, appendChild, modify, when,
    mbind, M_bind, mret, M_ret. fold (selectAllEntry params).
  destruct (fetchMore params), (isNonEmptyString (valueToSearch params)),
    (isMobileDevice facet), (isNewDesign facet); simpl;
    rewrite <- ?(assoc_L (++)), ?app_nil_r; reflexivity.
Qed.

Lemma makeFirstSearchResultTheCurrentOne_results w :
  searchResults (this (execState makeFirstSearchResultTheCurrentOne w))
  = let rs := searchResults (this w) in
    Dom.addCurrent (Dom.at_index (Dom.findAll coveo_facet_selectable rs) 0) (cleared rs).
Proof.
  cbv zeta. rewrite <- removeCurrentEach_cleared. reflexivity.
Qed.

Lemma processNewFacetSearchResults_results facet fieldValues params w :
  (0 < length (reorderValues facet fieldValues))%nat →
  searchResults (this (execState (processNewFacetSearchResults facet fieldValues params) w))
  = let rs := rendered facet (reorderValues facet fieldValues) params
                (searchResults (this w)) in
    Dom.addCurrent (Dom.at_index (Dom.findAll coveo_facet_selectable rs) 0) (cleared rs).
Proof.
  intros Hlen. unfold processNewFacetSearchResults.
  rewrite bool_decide_eq_true_2 by done.
  rewrite !execState_bind, makeFirstSearchResultTheCurrentOne_results. cbv zeta.
  set (w1 := execState (rebuildSearchResults _ _ _) _).
  assert (searchResults (this w1)
          = rendered facet (reorderValues facet fieldValues) params (searchResults (this w)))
    as <- by (subst w1; by rewrite rebuildSearchResults_results).
  by destruct (fetchMore params).
Qed.

Lemma rendered_selectables facet fieldValues params rs :
  (0 < length fieldValues)%nat →
  0 < selectableCount (rendered facet fieldValues params rs).
Proof.
  intros Hlen. unfold selectableCount, rendered, Dom.findAll.
  rewrite <- !findAllFrom_app, !length_app.
  destruct fieldValues as [|fv fieldValues]; simpl in *; lia.
Qed.

Lemma rendered_first_selectable facet fieldValues params :
  (0 < length fieldValues)%nat →
  Dom.findAll coveo_facet_selectable (rendered facet fieldValues params []) !! 0%nat
  = Some 0%nat.
Proof.
  intros Hlen. unfold rendered, selectAllEntry.
  destruct fieldValues as [|fv fieldValues]; simpl in *; [lia|].
  destruct (fetchMore params), (isNonEmptyString (valueToSearch params)),
    (isMobileDevice facet); simpl; reflexivity.
Qed.

Lemma facetSearchFulfilled_results facet params fieldValues w :
  searchResults (this (execState (facetSearchFulfilled facet params fieldValues) w))
  = searchResults
      (this (execState (processNewFacetSearchResults facet fieldValues params) w)).
Proof. unfold facetSearchFulfilled. by rewrite !execState_bind. Qed.

(** C2, as the code has it: whenever a non-empty result set is rendered,
    "replace" or "fetch more" alike, [makeFirstSearchResultTheCurrentOne]
    runs: the cursor ends on the first selectable entry of the whole list,
    which after a "replace" is the first rendered child.  (For "fetch more"
    the entries already there must carry the cursor class on selectable
    entries only, which every method maintains.) *)
Theorem render_anchors_cursor_at_first facet w id params fieldValues :
  promises w !! id = Some (FacetSearchCallbacks params) →
  (0 < length (reorderValues facet fieldValues))%nat →
  (fetchMore params = true → currentOnSelectables (searchResults (this w))) →
  let w' := execState (handle facet (PromiseFulfilled id fieldValues)) w in
  cursor (searchResults (this w')) = Some 0
  ∧ (fetchMore params = false →
     Dom.find coveo_current (searchResults (this w')) = Some 0%nat).
Proof.
  intros H Hlen Hinv w'. subst w'. unfold execState at 1 2.
  rewrite (handle_PromiseFulfilled _ _ _ _ _ H).
  fold (execState (facetSearchFulfilled facet params fieldValues)
          (execState (takePromise id) w)).
  rewrite facetSearchFulfilled_results, processNewFacetSearchResults_results by done.
  cbv zeta. change (this (execState (takePromise id) w)) with (this w).
  set (rs := rendered _ _ _ _).
  assert (currentOnSelectables rs) as Hrs by by apply rendered_currentOnSelectables.
  assert (0 < selectableCount rs) as Hn by by apply rendered_selectables.
  split.
  - by apply (cursor_at_index rs 0%nat).
  - intros Hf.
    assert (rs = rendered facet (reorderValues facet fieldValues) params []) as Hrs0.
    { subst rs. by rewrite rendered_fetchMore, Hf. }
    assert (Dom.at_index (Dom.findAll coveo_facet_selectable rs) 0 = Some 0%nat) as ->.
    { rewrite Hrs0. change 0 with (Z.of_nat 0). rewrite at_index_nat.
      by apply rendered_first_selectable. }
    unfold Dom.find. rewrite findAll_current_addCurrent; [done| |].
    + by apply findAll_current_cleared.
    + rewrite length_cleared. eapply findAll_lt, list_elem_of_lookup_2.
      rewrite Hrs0. by apply rendered_first_selectable.
Qed.

(** ** The cursor class stays on selectable entries *)

Lemma currentOnSelectables_addCurrent_cleared target rs :
  currentOnSelectables rs →
  (∀ q, target = Some q → q ∈ Dom.findAll coveo_facet_selectable rs) →
  currentOnSelectables (Dom.addCurrent target (cleared rs)).
Proof.
  intros Hrs Ht. unfold currentOnSelectables.
  rewrite findAll_selectable_addCurrent, findAll_selectable_cleared.
  destruct target as [q|].
  - rewrite findAll_current_addCurrent.
    + intros p ->%list_elem_of_singleton. by apply Ht.
    + by apply findAll_current_cleared.
    + rewrite length_cleared. eapply findAll_lt, Ht. done.
  - simpl. rewrite findAll_current_cleared by done. intros p Hp.
    by apply elem_of_nil in Hp.
Qed.

Lemma at_index_elem l i q : Dom.at_index l i = Some q → q ∈ l.
Proof.
  unfold Dom.at_index. case_decide; [|done]. apply list_elem_of_lookup_2.
Qed.

Lemma makeCurrentResult_results result w :
  searchResults (this (execState (makeCurrentResult result) w))
  = Dom.addCurrent result (cleared (searchResults (this w))).
Proof. rewrite <- removeCurrentEach_cleared. reflexivity. Qed.

Lemma makeFirstSearchResultTheCurrentOne_keeps :
  sat (onFields keepsCurrentOnSelectables) makeFirstSearchResultTheCurrentOne.
Proof.
  intros w Hrs. rewrite makeFirstSearchResultTheCurrentOne_results.
  apply currentOnSelectables_addCurrent_cleared; [done|].
  intros q. apply at_index_elem.
Qed.

Lemma moveCurrentResultDown_keeps :
  sat (onFields keepsCurrentOnSelectables) moveCurrentResultDown.
Proof.
  intros w Hrs. rewrite moveCurrentResultDown_results. cbv zeta.
  rewrite removeCurrentEach_cleared, findAll_selectable_cleared.
  apply currentOnSelectables_addCurrent_cleared; [done|].
  intros q. case_bool_decide; apply at_index_elem.
Qed.

Lemma moveCurrentResultUp_keeps :
  sat (onFields keepsCurrentOnSelectables) moveCurrentResultUp.
Proof.
  intros w Hrs. rewrite moveCurrentResultUp_results. cbv zeta.
  rewrite removeCurrentEach_cleared, findAll_selectable_cleared.
  apply currentOnSelectables_addCurrent_cleared; [done|].
  intros q. case_bool_decide; apply at_index_elem.
Qed.

Lemma resultMouseMove_keeps facet elem :
  sat (onFields keepsCurrentOnSelectables) (handle facet (ResultMouseMove elem)).
Proof.
  intros w Hrs. unfold handle, isSelectable, getSelectables, gets.
  rewrite execState_bind. unfold evalM at 1. simpl.
  case_bool_decide as He; [|done].
  change (execState (_ ≫= _) w) with w. unfold when.
  rewrite makeCurrentResult_results.
  apply currentOnSelectables_addCurrent_cleared; [done|]. by intros q [= <-].
Qed.

#[global] Hint Resolve makeFirstSearchResultTheCurrentOne_keeps
  moveCurrentResultDown_keeps moveCurrentResultUp_keeps : sat.

Ltac solve_keeps :=
  unfold keepsCurrentOnSelectables; simpl;
  first
    [ by intros
    | intros _; unfold currentOnSelectables; simpl; reflexivity
    | intros; by apply currentOnSelectables_fresh; [repeat constructor|]
    | intros; by apply currentOnSelectables_fresh; [apply build_fresh|] ].

Lemma handle_keeps facet ev :
  sat (onFields keepsCurrentOnSelectables) (handle facet ev).
Proof.
  destruct ev; try apply resultMouseMove_keeps;
    sat_auto keepsCurrentOnSelectables solve_keeps.
Qed.

Lemma run_keeps facet evs : sat (onFields keepsCurrentOnSelectables) (run facet evs).
Proof.
  induction evs as [|ev evs IH]; simpl; [apply sat_ret; tc_solve|].
  apply sat_bind; [tc_solve|apply handle_keeps|done].
Qed.

(** In every state the instance can reach, the cursor class sits on
    selectable entries only. *)
Lemma reachable_currentOnSelectables facet evs :
  currentOnSelectables (searchResults (this (execState (run facet evs) initial))).
Proof. apply (run_keeps facet evs initial). unfold currentOnSelectables. done. Qed.

(** ** When [moreValuesToFetch] changes *)

Ltac solve_notRaised := unfold notRaised; simpl; by intros.

Lemma handle_notRaised facet ev :
  (∀ which shiftKey, ev = KeyUp (OTHER which) shiftKey → isMobileDevice facet = true) →
  sat (unlessDismissed notRaised) (handle facet ev).
Proof.
  intros Hev. destruct ev as [| key shiftKey | | | | | | | | | | | |];
    try (sat_auto notRaised solve_notRaised; fail).
  destruct key as [| | | | | which];
    try (sat_auto notRaised solve_notRaised; fail).
  unfold handle, handleFacetSearchKeyUp. rewrite (Hev which shiftKey eq_refl). simpl.
  sat_auto notRaised solve_notRaised.
Qed.

Lemma facetSearchFulfilled_notRaised facet params fieldValues :
  sat (onFields notRaised) (facetSearchFulfilled facet params fieldValues).
Proof. sat_auto notRaised solve_notRaised. Qed.

Lemma emptyFetchMore_lowers facet params fieldValues w :
  fetchMore params = true → reorderValues facet fieldValues = [] →
  moreValuesToFetch (this (execState (facetSearchFulfilled facet params fieldValues) w))
  = false.
Proof.
  intros Hf He. unfold facetSearchFulfilled, processNewFacetSearchResults.
  rewrite He, Hf. reflexivity.
Qed.

Lemma otherKey_raises facet which shiftKey w :
  isMobileDevice facet = false →
  let typed := handle facet (KeyUp (OTHER which) shiftKey) in
  moreValuesToFetch (this (execState typed w)) = true
  ∧ requests (execEffects typed w) = [].
Proof.
  intros Hm. simpl. unfold handleFacetSearchKeyUp, handleKeyboardNavigation.
  rewrite Hm. simpl.
  destruct w as [[? ? ? ? i ? ? [?|] ? [?|] ?] ? ? ?];
    unfold execState, execEffects, showOrHideClearElement, gets, mbind, M_bind;
    simpl; destruct (String.eqb i ""); lazy -[insert delete lookup]; by split.
Qed.

(** C5, as the code has it: a "fetch more" request that completes with no
    value sets [moreValuesToFetch] to false, and while it is false a scroll
    issues no request and changes nothing.  The flag goes back to true on
    an ordinary keystroke (any key but Enter, Delete, Escape and the
    arrows) off mobile, at once and before any request is issued, or on a
    full dismiss, and on nothing else: a render, "replace" included, leaves
    a false flag false. *)
Theorem moreValuesToFetch_lowered_and_raised facet :
  (∀ w id params fieldValues,
     promises w !! id = Some (FacetSearchCallbacks params) →
     fetchMore params = true → reorderValues facet fieldValues = [] →
     moreValuesToFetch
       (this (execState (handle facet (PromiseFulfilled id fieldValues)) w)) = false)
  ∧ (∀ w clientHeight scrollHeight scrollTop,
       moreValuesToFetch (this w) = false →
       handle facet (ResultsScroll clientHeight scrollHeight scrollTop) w = (tt, w, []))
  ∧ (∀ ev w,
       moreValuesToFetch (this w) = false →
       moreValuesToFetch (this (execState (handle facet ev) w)) = true →
       UnfadeInactiveValuesInMainList ∈ execEffects (handle facet ev) w
       ∨ ∃ which shiftKey,
           ev = KeyUp (OTHER which) shiftKey ∧ isMobileDevice facet = false)
  ∧ (∀ w which shiftKey,
       isMobileDevice facet = false →
       moreValuesToFetch
         (this (execState (handle facet (KeyUp (OTHER which) shiftKey)) w)) = true
       ∧ requests (execEffects (handle facet (KeyUp (OTHER which) shiftKey)) w) = [])
  ∧ (∀ w id params fieldValues,
       promises w !! id = Some (FacetSearchCallbacks params) →
       moreValuesToFetch (this w) = false →
       moreValuesToFetch
         (this (execState (handle facet (PromiseFulfilled id fieldValues)) w)) = false).
Proof.
  split; [|split; [|split; [|split]]].
  - intros w id params fieldValues H Hf He. unfold execState.
    rewrite (handle_PromiseFulfilled _ _ _ _ _ H).
    by apply emptyFetchMore_lowers.
  - intros w ch sh st Hm. rewrite handle_ResultsScroll. apply scroll_listeners_idle.
    unfold scrollSuppressed. rewrite Hm. simpl. by rewrite !orb_true_r.
  - intros ev w Hm Hm'.
    assert (sat (unlessDismissed notRaised) (handle facet ev) →
            UnfadeInactiveValuesInMainList ∈ execEffects (handle facet ev) w) as Hsat.
    { intros Hs. destruct (Hs w) as [Hu|Hn]; [done|].
      unfold notRaised in Hn. rewrite Hn in Hm; done. }
    destruct (isMobileDevice facet) eqn:Hmobile.
    + left. apply Hsat, handle_notRaised. by intros.
    + destruct ev as [| [| | | | | which] shiftKey | | | | | | | | | | | |];
        try (left; apply Hsat, handle_notRaised; by intros ? ? [=]).
      right. by exists which, shiftKey.
  - intros w which shiftKey Hm. by apply otherKey_raises.
  - intros w id params fieldValues H Hm. unfold execState.
    rewrite (handle_PromiseFulfilled _ _ _ _ _ H).
    pose proof (facetSearchFulfilled_notRaised facet params fieldValues
                  (execState (takePromise id) w)) as Hn.
    unfold onFields, notRaised in Hn.
    fold (execState (facetSearchFulfilled facet params fieldValues)
            (execState (takePromise id) w)).
    apply not_true_is_false. intros E. apply Hn in E. simpl in E. congruence.
Qed.

(** ** Concrete runs *)

(** C5 fails as stated: with the flag lowered by an empty "fetch more"
    answer, typing a character raises it although no search has been issued
    yet, and a full "replace" search that renders [z] leaves it false. *)
Lemma moreValuesToFetch_not_reset_by_replace :
  let w := execState (run desktopFacet (fetchingMore ++ [PromiseFulfilled 1 []])) initial in
  let typed := run desktopFacet [UserInput "a"; KeyUp (OTHER 65) false] in
  let replaced := run desktopFacet [KeyUp ENTER true; PromiseFulfilled 2 [valueZ]] in
  moreValuesToFetch (this w) = false
  ∧ moreValuesToFetch (this (execState typed w)) = true
  ∧ requests (execEffects typed w) = []
  ∧ displayedValues (searchResults (this (execState replaced w))) = ["z"]
  ∧ moreValuesToFetch (this (execState replaced w)) = false.
Proof. vm_compute. repeat split. Qed.

(** C2 fails as stated: the cursor sits on the second entry when the "fetch
    more" answer [z] arrives, and is on the first entry afterwards. *)
Lemma append_moves_cursor_to_first :
  let w := execState (run desktopFacet fetchingMore) initial in
  let w' := execState (handle desktopFacet (PromiseFulfilled 1 [valueZ])) w in
  (∃ params, promises w !! 1%nat = Some (FacetSearchCallbacks params)
             ∧ fetchMore params = true)
  ∧ displayedValues (searchResults (this w)) = ["x"; "y"]
  ∧ cursor (searchResults (this w)) = Some 1
  ∧ displayedValues (searchResults (this w')) = ["x"; "y"; "z"]
  ∧ cursor (searchResults (this w')) = Some 0
  ∧ cursor (searchResults (this w')) ≠ cursor (searchResults (this w)).
Proof.
  split; [eexists; split; [vm_compute; reflexivity|reflexivity]|].
  vm_compute. repeat split. discriminate.
Qed.

(** C3 fails as stated: when the rejection without error value of the
    superseded request 0 arrives, the handle of request 1, which is still
    pending, is dropped; the fields are not what they were. *)
Lemma cancelled_rejection_drops_the_current_handle :
  let w := execState (run desktopFacet superseding) initial in
  let w' := execState (handle desktopFacet (PromiseRejected 0 None)) w in
  facetSearchPromise (this w) = Some 1%nat
  ∧ is_Some (promises w !! 0%nat)
  ∧ is_Some (promises w' !! 1%nat)
  ∧ facetSearchPromise (this w') = None
  ∧ this w' ≠ this w.
Proof.
  vm_compute. repeat split; try by eexists. discriminate.
Qed.

(** C1 does not hold of the code.  [cancelAnyPendingSearchOperation] only
    forgets the handle: the callbacks of the superseded request stay
    attached and run unguarded when it settles.  Rejected without error
    value, as a cancelled request is, request 0 drops the handle of request
    1, which is pending; fulfilled after request 1, it renders its own
    values as a "replace", so that the list shown is that of "a" although
    the last search was for "ab".  With the handle of a pending request
    dropped, a scroll starts a "fetch more" request next to it. *)
Theorem superseded_request_still_acts_on_the_session :
  let w := execState (run desktopFacet superseding) initial in
  let late := [PromiseFulfilled 1 [valueY]; PromiseFulfilled 0 [valueX]] in
  let w3 := execState (run desktopFacet supersededThenCancelled) initial in
  (valueToSearch ∘ snd <$> requests (execEffects (run desktopFacet superseding) initial))
    = ["a"; "ab"]
  ∧ facetSearchPromise (this w) = Some 1%nat
  ∧ (valueToSearch <$>
       (promises w !! 0%nat ≫=
          λ cb, match cb with
                | FacetSearchCallbacks params => Some params
                | SelectAllCallbacks => None
                end)) = Some "a"
  ∧ facetSearchPromise (this (execState (handle desktopFacet (PromiseRejected 0 None)) w))
    = None
  ∧ displayedValues (searchResults (this (execState (run desktopFacet late) w))) = ["x"]
  ∧ is_Some (promises w3 !! 2%nat)
  ∧ facetSearchPromise (this w3) = None
  ∧ (fetchMore ∘ snd <$>
       requests (execEffects (handle desktopFacet (ResultsScroll 100 120 0)) w3))
    = [true].
Proof. vm_compute. repeat split. by eexists. Qed.

(** ** The theorems at work on concrete sessions *)

(** Two entries, cursor on the first: down and up both reach the second,
    down then up comes back. *)
Lemma cursor_moves_with_wraparound_witness :
  0 < selectableCount (searchResults (this shown))
  ∧ cursor (searchResults (this (execState moveCurrentResultDown shown))) = Some 1
  ∧ cursor (searchResults (this (execState moveCurrentResultUp shown))) = Some 1
  ∧ cursor (searchResults
              (this (execState (moveCurrentResultDown;; moveCurrentResultUp) shown)))
    = Some 0.
Proof.
  assert (0 < selectableCount (searchResults (this shown))) as Hn
    by (vm_compute; reflexivity).
  split; [exact Hn|].
  destruct (cursor_moves_with_wraparound shown Hn) as [Hmove _].
  destruct (Hmove 0) as (Hd & Hu & Hdu); [vm_compute; reflexivity|].
  split; [exact Hd|]. split; [exact Hu|exact Hdu].
Defined.

(** The timer armed by typing "a" fires: one search for "a". *)
Lemma searchTimeout_dismisses_or_triggers_once_witness :
  let params := {| valueToSearch := "a"; alwaysExclude := []; nbResults := 15;
                   fetchMore := false; searchEvenIfEmpty := true |} in
  timers typing !! 0%nat = Some (SearchTimeout params)
  ∧ requests (execEffects (handle desktopFacet (TimerFired 0)) typing) = [(1%nat, params)].
Proof.
  intros params.
  assert (timers typing !! 0%nat = Some (SearchTimeout params)) as H
    by (vm_compute; reflexivity).
  split; [exact H|].
  pose proof (searchTimeout_dismisses_or_triggers_once desktopFacet typing 0 params H) as T.
  destruct T as (_ & T & _). exact T.
Defined.

(** The current request fails with a server error. *)
Lemma rejection_clears_indicator_only_on_real_error_witness :
  let w := execState (run desktopFacet superseding) initial in
  let error := {| statusCode := 500; message := "Internal Server Error" |} in
  let rejected := handle desktopFacet (PromiseRejected 1 (Some error)) in
  is_Some (promises w !! 1%nat)
  ∧ execEffects rejected w = [LoggerError error; WaitingAnimationHidden]
  ∧ showingFacetSearchWaitAnimation (this (execState rejected w)) = false
  ∧ inputValue (this (execState rejected w)) = inputValue (this w).
Proof.
  intros w error rejected.
  set (params := {| valueToSearch := "ab"; alwaysExclude := []; nbResults := 15;
                    fetchMore := false; searchEvenIfEmpty := true |}).
  assert (promises w !! 1%nat = Some (FacetSearchCallbacks params)) as H
    by (vm_compute; reflexivity).
  split; [by eexists|].
  pose proof (rejection_clears_indicator_only_on_real_error
                desktopFacet w 1 params (Some error) H)
    as (_ & _ & Hi & _ & _ & _ & _ & _ & He & Hs).
  split; [exact He|]. split; [exact Hs|exact Hi].
Defined.

(** [x, y] shown, empty input, scrolled to 20 pixels from the bottom of a
    list 100 pixels high: one request for more, excluding [x] and [y]. *)
Lemma scroll_pagination_guard_witness :
  let effs := execEffects (handle desktopFacet (ResultsScroll 100 120 0)) shown in
  requests effs ≠ []
  ∧ ∃ params, requests effs = [(1%nat, params)]
              ∧ fetchMore params = true
              ∧ alwaysExclude params = ["x"; "y"]
              ∧ valueToSearch params = "".
Proof.
  intros effs.
  assert (requests effs ≠ []) as H by (vm_compute; discriminate).
  split; [exact H|].
  destruct (scroll_pagination_guard desktopFacet shown 100 120 0) as [_ Hfire].
  destruct (Hfire H) as (_ & params & Hr & Hf & He & Hv).
  exists params. split; [exact Hr|]. split; [exact Hf|]. split; [exact He|exact Hv].
Defined.

(** "Select all" for "abc" answered with three values, the first of which
    the facet holds as excluded: one notification carrying the three of
    them, selected and not excluded, the first with the occurrences the
    facet holds for it. *)
Lemma selectAll_one_request_one_bulk_notification_witness :
  let w2 := execState (selectAllValuesMatchingSearch facetHoldingX) typedAbc in
  let fulfilled := handle facetHoldingX (PromiseFulfilled 0 [valueX; valueY; valueZ]) in
  promises w2 !! nextHandle typedAbc = Some SelectAllCallbacks
  ∧ ∃ facetValues,
      bulkSelections (execEffects fulfilled w2) = [facetValues]
      ∧ length facetValues = 3%nat
      ∧ Forall (λ v, selected v = true ∧ excluded v = false) facetValues
      ∧ value <$> facetValues = ["x"; "y"; "z"]
      ∧ occurrences <$> facetValues !! 0%nat = Some 7.
Proof.
  intros w2 fulfilled.
  assert (promises w2 !! nextHandle typedAbc = Some SelectAllCallbacks) as H
    by (vm_compute; reflexivity).
  split; [exact H|].
  destruct (selectAll_one_request_one_bulk_notification
              facetHoldingX typedAbc w2 [valueX; valueY; valueZ] None H)
    as (_ & _ & _ & _ & _ & facetValues & Hb & _ & Hl & Hs & _ & Hi & Hv).
  exists facetValues. split; [exact Hb|]. split; [exact Hl|]. split; [exact Hs|].
  split.
  - apply Hv. intros s known. simpl.
    destruct (String.eqb_spec s "x") as [->|_]; [|discriminate].
    intros E. injection E as <-. reflexivity.
  - destruct (Hi 0%nat valueX eq_refl) as (facetValue & -> & _ & _ & _ & Ho).
    simpl. f_equal. exact Ho.
Defined.

(** The "fetch more" answer [z] arrives with the cursor on [y]. *)
Lemma render_anchors_cursor_at_first_witness :
  let w := execState (run desktopFacet fetchingMore) initial in
  let params := {| valueToSearch := ""; alwaysExclude := ["x"; "y"]; nbResults := 15;
                   fetchMore := true; searchEvenIfEmpty := true |} in
  promises w !! 1%nat = Some (FacetSearchCallbacks params)
  ∧ cursor (searchResults
              (this (execState (handle desktopFacet (PromiseFulfilled 1 [valueZ])) w)))
    = Some 0.
Proof.
  intros w params.
  assert (promises w !! 1%nat = Some (FacetSearchCallbacks params)) as H
    by (vm_compute; reflexivity).
  split; [exact H|].
  apply (render_anchors_cursor_at_first desktopFacet w 1 params [valueZ] H).
  - simpl. lia.
  - intros _. apply (reachable_currentOnSelectables desktopFacet fetchingMore).
Defined.

(** The "fetch more" request is answered with no value. *)
Lemma moreValuesToFetch_lowered_and_raised_witness :
  let w := execState (run desktopFacet fetchingMore) initial in
  moreValuesToFetch (this w) = true
  ∧ moreValuesToFetch
      (this (execState (handle desktopFacet (PromiseFulfilled 1 [])) w)) = false.
Proof.
  intros w. split; [vm_compute; reflexivity|].
  set (params := {| valueToSearch := ""; alwaysExclude := ["x"; "y"]; nbResults := 15;
                    fetchMore := true; searchEvenIfEmpty := true |}).
  destruct (moreValuesToFetch_lowered_and_raised desktopFacet) as [Hlower _].
  apply (Hlower w 1%nat params []); vm_compute; reflexivity.
Defined.

(** * Further properties of the class *)

(** ** Every way to dismiss ends in the same state *)

#[global] Instance anyFields_preorder : PreOrder anyFields.
Proof. by split. Qed.

#[global] Instance sameListeners_preorder : PreOrder sameListeners.
Proof.
  split; unfold sameListeners; [by intros s|intros s1 s2 s3 H1 H2; congruence].
Qed.

#[global] Instance withoutDismiss_compositional (P : relation FacetSearch) :
  PreOrder P → Compositional (withoutDismiss P).
Proof.
  intros HP. split.
  - intros w. split; [apply not_elem_of_nil|done].
  - intros w1 w2 w3 e1 e2 [H1 P1] [H2 P2]. split; [|by etrans].
    rewrite elem_of_app. tauto.
Qed.

Lemma completelyDismissSearch_fields w :
  this (execState completelyDismissSearch w) = dismissedFields (scrollListeners (this w)).
Proof. by_handles w. Qed.

Ltac head_of t :=
  match t with
  | ?f _ => head_of f
  | _ => t
  end.

(** One step down the structure of a method, for any compositional
    relation; [prim] settles the methods that are not sequences. *)
Ltac rel_step prim :=
  cbv beta zeta;
  first
    [ solve [auto with sat nocore]
    | lazymatch goal with
      | |- sat _ (mbind _ _) => apply sat_bind; [tc_solve| |intros ?]
      | |- sat _ (mret _) => apply sat_ret; tc_solve
      | |- sat _ (gets _) => apply sat_gets; tc_solve
      | |- sat _ (when _ _) => apply sat_when; [tc_solve|]
      | |- sat _ (Nat.iter _ _ _) => apply sat_iter; [tc_solve|]
      | |- sat _ (match ?x with _ => _ end) => destruct x
      end
    | solve [intros ?; prim]
    | match goal with
      | |- sat ?R ?m => let h := head_of m in unfold h; cbv beta iota
      end ].

Ltac rel_auto prim := repeat rel_step prim.

Ltac no_unfade :=
  repeat (apply not_elem_of_cons; split; [discriminate|]); apply not_elem_of_nil.

Ltac prim_withoutDismiss solve_fields :=
  split; [cbn; no_unfade|cbn; solve_fields].

Ltac solve_any := exact I.
Ltac solve_sameListeners := reflexivity.

Lemma dismissesAsOne_quiet {A} (m : M A) :
  sat (withoutDismiss anyFields) m → dismissesAsOne m.
Proof. intros Hm w Hu. by destruct (Hm w) as [Hq _]. Qed.

Lemma dismissesAsOne_after {A B} (pre : M A) (k : A → M B) :
  sat (withoutDismiss sameListeners) pre →
  (∀ a, dismissesAsOne (k a)) → dismissesAsOne (pre ≫= k).
Proof.
  intros Hpre Hk w. rewrite execState_bind, execEffects_bind.
  destruct (Hpre w) as [Hq Hl]. unfold sameListeners in Hl.
  intros [Hu|Hu]%elem_of_app; [done|]. rewrite <- Hl. by apply Hk.
Qed.

Lemma dismissesAsOne_dismiss : dismissesAsOne completelyDismissSearch.
Proof. intros w _. apply completelyDismissSearch_fields. Qed.

Lemma dismissesAsOne_before {B} (k : unit → M B) :
  (∀ a n w, this w = dismissedFields n → this (execState (k a) w) = dismissedFields n) →
  dismissesAsOne (completelyDismissSearch ≫= k).
Proof.
  intros Hk w _. rewrite execState_bind. apply Hk, completelyDismissSearch_fields.
Qed.

Ltac keeps_dismissed :=
  intros ? ? [s ? ? ?] Hs; simpl in Hs; subst s; reflexivity.

Lemma completelyDismissSearch_keeps n w :
  this w = dismissedFields n →
  this (execState completelyDismissSearch w) = dismissedFields n.
Proof. intros Hw. by rewrite completelyDismissSearch_fields, Hw. Qed.

Lemma handleClickElsewhere_keeps facet target n w :
  this w = dismissedFields n →
  this (execState (handleClickElsewhere facet target) w) = dismissedFields n.
Proof.
  destruct w as [s tm pm nh]. simpl. intros ->.
  unfold handleClickElsewhere. by destruct target.
Qed.

Lemma handleClickElsewhere_quietOrDismissed facet target :
  sat quietOrDismissed (handleClickElsewhere facet target).
Proof.
  intros w. unfold handleClickElsewhere.
  rewrite execState_bind, execEffects_bind. cbv beta zeta.
  change (execState (gets currentlyDisplayedResults) w) with w.
  destruct (Utils_exists _ && negb (isMobileDevice facet) && _).
  - right. apply completelyDismissSearch_fields.
  - left. split; [apply not_elem_of_nil|done].
Qed.

Lemma click_quietOrDismissed facet e : sat quietOrDismissed (click facet e).
Proof.
  intros w. unfold click. rewrite execState_bind, execEffects_bind.
  destruct (coveo_facet_selectable e); cbn [when].
  - right. apply handleClickElsewhere_keeps.
    destruct (selectAllValuesMatchingSearch_spec facet w) as (_ & _ & _ & ->).
    apply completelyDismissSearch_fields.
  - apply handleClickElsewhere_quietOrDismissed.
Qed.

Lemma quietOrDismissed_quiet {A} (m : M A) :
  sat (withoutDismiss sameListeners) m → sat quietOrDismissed m.
Proof. intros Hm w. left. apply Hm. Qed.

Lemma quietOrDismissed_after {A B} (pre : M A) (k : A → M B) :
  sat (withoutDismiss sameListeners) pre →
  (∀ a, sat quietOrDismissed (k a)) → sat quietOrDismissed (pre ≫= k).
Proof.
  intros Hpre Hk w. rewrite execState_bind, execEffects_bind.
  destruct (Hpre w) as [Hq Hl]. unfold sameListeners in Hl.
  destruct (Hk (evalM pre w) (execState pre w)) as [[Hu Hs]|Hd].
  - left. split; [|congruence]. rewrite elem_of_app. tauto.
  - right. by rewrite <- Hl.
Qed.

Lemma quietOrDismissed_returned {A B} (m : M A) (b : B) :
  sat quietOrDismissed m → sat quietOrDismissed (m ≫= λ _, mret b).
Proof.
  intros Hm w. rewrite execState_bind, execEffects_bind.
  change (execState (mret b) ?v) with v. change (execEffects (mret b) ?v) with (@nil Effect).
  rewrite app_nil_r. apply Hm.
Qed.

Lemma performSelectActionOnCurrentSearchResult_quietOrDismissed facet :
  sat quietOrDismissed (performSelectActionOnCurrentSearchResult facet).
Proof.
  unfold performSelectActionOnCurrentSearchResult.
  apply quietOrDismissed_after;
    [rel_auto ltac:(prim_withoutDismiss solve_sameListeners)|intros current].
  apply quietOrDismissed_after;
    [rel_auto ltac:(prim_withoutDismiss solve_sameListeners)|intros [|]].
  - apply quietOrDismissed_after;
      [rel_auto ltac:(prim_withoutDismiss solve_sameListeners)|intros [e|]].
    + apply quietOrDismissed_returned. destruct (hasValueControls e).
      * apply quietOrDismissed_quiet.
        rel_auto ltac:(prim_withoutDismiss solve_sameListeners).
      * apply click_quietOrDismissed.
    + apply quietOrDismissed_quiet.
      rel_auto ltac:(prim_withoutDismiss solve_sameListeners).
  - apply quietOrDismissed_quiet.
    rel_auto ltac:(prim_withoutDismiss solve_sameListeners).
Qed.

Lemma dismissesAsOne_then {A B} (m : M A) (k : A → M B) :
  sat quietOrDismissed m →
  (∀ a, dismissesAsOne (k a)) →
  (∀ a n w, this w = dismissedFields n → this (execState (k a) w) = dismissedFields n) →
  dismissesAsOne (m ≫= k).
Proof.
  intros Hm Hk Hkeep w. rewrite execState_bind, execEffects_bind.
  destruct (Hm w) as [[Hq Hl]|Hd].
  - intros [Hu|Hu]%elem_of_app; [done|]. rewrite <- Hl. by apply Hk.
  - intros _. by apply Hkeep.
Qed.

Ltac dismiss_step :=
  cbv beta zeta;
  first
    [ apply dismissesAsOne_dismiss
    | apply dismissesAsOne_quiet;
      solve [rel_auto ltac:(prim_withoutDismiss solve_any)]
    | lazymatch goal with
      | |- dismissesAsOne (mbind _ completelyDismissSearch) =>
          apply dismissesAsOne_before; keeps_dismissed
      | |- dismissesAsOne (mbind _ (performSelectActionOnCurrentSearchResult _)) =>
          apply dismissesAsOne_then;
          [ apply performSelectActionOnCurrentSearchResult_quietOrDismissed
          | intros ?
          | intros [|] ? ? ?; [by apply completelyDismissSearch_keeps|done] ]
      | |- dismissesAsOne (mbind _ _) =>
          apply dismissesAsOne_after;
          [solve [rel_auto ltac:(prim_withoutDismiss solve_sameListeners)]|intros ?]
      | |- dismissesAsOne (when ?b _) => unfold when
      | |- dismissesAsOne (match ?x with _ => _ end) => destruct x
      end
    | match goal with
      | |- dismissesAsOne ?m => let h := head_of m in unfold h; cbv beta iota
      end ].

Lemma handle_dismissesAsOne facet ev : dismissesAsOne (handle facet ev).
Proof. destruct ev; repeat dismiss_step. Qed.

(** X1: whichever event leads to a full dismiss (Escape, Enter on a result,
    Shift+Delete, the clear button, a click elsewhere, a release on a
    result, the closing of the mobile box, an empty debounce, "select all"
    and its answer), the handler leaves the fields exactly as
    [completelyDismissSearch] alone would have left them from the state the
    event arrived in: nothing done before or after the dismiss in the same
    handler shows in the result. *)
Theorem every_dismissal_ends_in_the_same_state facet ev w :
  UnfadeInactiveValuesInMainList ∈ execEffects (handle facet ev) w →
  this (execState (handle facet ev) w) = this (execState completelyDismissSearch w).
Proof.
  rewrite completelyDismissSearch_fields. apply handle_dismissesAsOne.
Qed.

(** ** The debounce timer *)

#[global] Instance invariant_compositional I : Compositional (invariant I).
Proof. split; unfold invariant; [tauto|]. intros w1 w2 w3 _ _. tauto. Qed.

Lemma cancelAnyPendingSearchOperation_state w :
  execState cancelAnyPendingSearchOperation w
  = {| this := set_showingFacetSearchWaitAnimation false
                 (set_facetSearchPromise None (set_facetSearchTimeout None (this w)));
       timers := match facetSearchTimeout (this w) with
                 | Some id => delete id (timers w)
                 | None => timers w
                 end;
       promises := promises w; nextHandle := nextHandle w |}.
Proof. destruct w as [[d rs disp n i c nr [t|] sw [p|] m] tm pm nh]; reflexivity. Qed.

Lemma cancelAnyPendingSearchOperation_debounce :
  sat (invariant DebounceInv) cancelAnyPendingSearchOperation.
Proof.
  intros w (Ha & Hb & Hc). rewrite cancelAnyPendingSearchOperation_state.
  split; [|split]; simpl.
  - intros id cb Hid. apply (Ha id cb). destruct (facetSearchTimeout (this w)); [|done].
    by apply lookup_delete_Some in Hid as [_ ?].
  - done.
  - intros id params Hid. exfalso.
    destruct (facetSearchTimeout (this w)) as [id0|] eqn:Ht.
    + apply lookup_delete_Some in Hid as [Hne Hid]. specialize (Hc _ _ Hid). congruence.
    + by specialize (Hc _ _ Hid).
Qed.

Lemma startNewSearchTimeout_state params w :
  execState (startNewSearchTimeout params) w
  = {| this := set_facetSearchTimeout (Some (nextHandle w))
                 (this (execState cancelAnyPendingSearchOperation w));
       timers := <[nextHandle w := SearchTimeout params]>
                   (timers (execState cancelAnyPendingSearchOperation w));
       promises := promises w; nextHandle := S (nextHandle w) |}.
Proof. destruct w as [[d rs disp n i c nr [t|] sw [p|] m] tm pm nh]; reflexivity. Qed.

Lemma startNewSearchTimeout_debounce params :
  sat (invariant DebounceInv) (startNewSearchTimeout params).
Proof.
  intros w (Ha & Hb & Hc). rewrite startNewSearchTimeout_state.
  rewrite cancelAnyPendingSearchOperation_state. simpl.
  assert (∀ id cb,
            match facetSearchTimeout (this w) with
            | Some id0 => delete id0 (timers w)
            | None => timers w
            end !! id = Some cb →
            timers w !! id = Some cb ∧ facetSearchTimeout (this w) ≠ Some id) as Hold.
  { intros id cb Hid. destruct (facetSearchTimeout (this w)) as [id0|]; [|done].
    apply lookup_delete_Some in Hid as [Hne Hid]. split; [done|congruence]. }
  split; [|split]; simpl.
  - intros id cb Hid. apply lookup_insert_Some in Hid as [[<- _]|[_ Hid]]; [lia|].
    apply Hold in Hid as [Hid _]. specialize (Ha _ _ Hid). lia.
  - intros id [= <-]. lia.
  - intros id p Hid. apply lookup_insert_Some in Hid as [[<- _]|[_ Hid]]; [done|].
    apply Hold in Hid as [Hid Hne]. by specialize (Hc _ _ Hid).
Qed.

#[global] Hint Resolve cancelAnyPendingSearchOperation_debounce
  startNewSearchTimeout_debounce : sat.

Lemma setTimeout_DeferredDismiss_debounce :
  sat (invariant DebounceInv) (setTimeout DeferredDismiss).
Proof.
  intros w (Ha & Hb & Hc). split; [|split]; simpl.
  - intros id cb Hid. apply lookup_insert_Some in Hid as [[<- _]|[_ Hid]]; [lia|].
    specialize (Ha _ _ Hid). lia.
  - intros id Hid. specialize (Hb _ Hid). lia.
  - intros id p Hid. apply lookup_insert_Some in Hid as [[_ [=]]|[_ Hid]]. by eapply Hc.
Qed.

Lemma facetQueryController_search_debounce params :
  sat (invariant DebounceInv) (facetQueryController_search params).
Proof.
  intros w (Ha & Hb & Hc). split; [|split]; simpl.
  - intros id cb Hid. specialize (Ha _ _ Hid). lia.
  - intros id Hid. specialize (Hb _ Hid). lia.
  - done.
Qed.

Lemma takeTimer_debounce id : sat (invariant DebounceInv) (takeTimer id).
Proof.
  intros w (Ha & Hb & Hc). split; [|split]; simpl.
  - intros id' cb Hid. apply lookup_delete_Some in Hid as [_ Hid]. by eapply Ha.
  - done.
  - intros id' p Hid. apply lookup_delete_Some in Hid as [_ Hid]. by eapply Hc.
Qed.

#[global] Hint Resolve setTimeout_DeferredDismiss_debounce
  facetQueryController_search_debounce takeTimer_debounce : sat.

(** Every other step leaves the timers, the counter and
    [facetSearchTimeout] alone. *)
Ltac prim_debounce := intros H; exact H.

Lemma handle_debounce facet ev : sat (invariant DebounceInv) (handle facet ev).
Proof. destruct ev; rel_auto prim_debounce. Qed.

Lemma run_debounce facet evs : sat (invariant DebounceInv) (run facet evs).
Proof.
  induction evs as [|ev evs IH]; simpl; [apply sat_ret; tc_solve|].
  apply sat_bind; [tc_solve|apply handle_debounce|done].
Qed.

Lemma initial_debounce : DebounceInv initial.
Proof. by split; [|split]. Qed.

Lemma reachable_debounce facet evs : DebounceInv (execState (run facet evs) initial).
Proof. apply (run_debounce facet evs initial), initial_debounce. Qed.

(** X2: whatever the events so far, at most one debounce timer is armed,
    and it is the one whose identifier [facetSearchTimeout] holds: every
    path that arms a timer first clears the one before. *)
Theorem at_most_one_debounce_timer facet evs id1 params1 id2 params2 :
  let w := execState (run facet evs) initial in
  timers w !! id1 = Some (SearchTimeout params1) →
  timers w !! id2 = Some (SearchTimeout params2) →
  id1 = id2 ∧ params1 = params2 ∧ facetSearchTimeout (this w) = Some id1.
Proof.
  intros w H1 H2. destruct (reachable_debounce facet evs) as (_ & _ & Hc). fold w in Hc.
  pose proof (Hc _ _ H1) as E1. pose proof (Hc _ _ H2) as E2.
  assert (id1 = id2) as <- by congruence. split; [done|]. split; [congruence|done].
Qed.

Lemma cancelled_has_no_debounce_timer w id params :
  DebounceInv w →
  timers (execState cancelAnyPendingSearchOperation w) !! id ≠ Some (SearchTimeout params).
Proof.
  intros Hw Hid.
  destruct (cancelAnyPendingSearchOperation_debounce w Hw) as (_ & _ & Hc).
  specialize (Hc _ _ Hid). by rewrite cancelAnyPendingSearchOperation_state in Hc.
Qed.

Lemma triggerNewFacetSearch_timers params w :
  timers (execState (triggerNewFacetSearch params) w)
  = timers (execState cancelAnyPendingSearchOperation w).
Proof. destruct w as [[d rs disp n i c nr [t|] sw [p|] m] tm pm nh]; reflexivity. Qed.

Lemma completelyDismissSearch_timers w :
  timers (execState completelyDismissSearch w)
  = timers (execState cancelAnyPendingSearchOperation w).
Proof. destruct w as [[d rs disp n i c nr [t|] sw [p|] m] tm pm nh]; reflexivity. Qed.

(** X3: in every state the instance can reach, an explicit search and a
    dismiss leave no debounce timer armed (the one that was pending can no
    longer fire), and re-arming the debounce leaves exactly one: the new
    timer, with the new parameters. *)
Theorem debounce_timer_is_replaced_or_cancelled facet evs params id armed :
  let w := execState (run facet evs) initial in
  timers (execState (triggerNewFacetSearch params) w) !! id ≠ Some (SearchTimeout armed)
  ∧ timers (execState completelyDismissSearch w) !! id ≠ Some (SearchTimeout armed)
  ∧ (timers (execState (startNewSearchTimeout params) w) !! id = Some (SearchTimeout armed)
     ↔ id = nextHandle w ∧ armed = params).
Proof.
  intros w. pose proof (reachable_debounce facet evs) as Hw. fold w in Hw.
  split; [|split].
  - rewrite triggerNewFacetSearch_timers. by apply cancelled_has_no_debounce_timer.
  - rewrite completelyDismissSearch_timers. by apply cancelled_has_no_debounce_timer.
  - rewrite startNewSearchTimeout_state. simpl. rewrite lookup_insert_Some. split.
    + intros [[<- [= <-]]|[_ Hid]]; [done|].
      by apply cancelled_has_no_debounce_timer in Hid.
    + intros [-> ->]. by left.
Qed.

(** ** The waiting animation *)

Lemma waitingWhileHeld_no_handle w :
  facetSearchPromise (this w) = None → waitingWhileHeld w.
Proof. intros H [p Hp]. congruence. Qed.

Lemma cancelAnyPendingSearchOperation_waiting :
  sat (invariant waitingWhileHeld) cancelAnyPendingSearchOperation.
Proof.
  intros w _. apply waitingWhileHeld_no_handle.
  by rewrite cancelAnyPendingSearchOperation_state.
Qed.

Lemma triggerNewFacetSearch_waiting params :
  sat (invariant waitingWhileHeld) (triggerNewFacetSearch params).
Proof.
  intros w _ _. by destruct (triggerNewFacetSearch_spec params w) as (_ & _ & _ & _ & ?).
Qed.

Lemma facetSearchFulfilled_waiting facet params fieldValues :
  sat (invariant waitingWhileHeld) (facetSearchFulfilled facet params fieldValues).
Proof.
  intros w _. apply waitingWhileHeld_no_handle.
  unfold facetSearchFulfilled. by rewrite !execState_bind.
Qed.

Lemma facetSearchRejected_waiting error :
  sat (invariant waitingWhileHeld) (facetSearchRejected error).
Proof.
  intros w _. apply waitingWhileHeld_no_handle.
  unfold facetSearchRejected. by rewrite !execState_bind.
Qed.

#[global] Hint Resolve cancelAnyPendingSearchOperation_waiting
  triggerNewFacetSearch_waiting facetSearchFulfilled_waiting
  facetSearchRejected_waiting : sat.

Ltac prim_waiting := intros H; exact H.

Lemma handle_waiting facet ev : sat (invariant waitingWhileHeld) (handle facet ev).
Proof. destruct ev; rel_auto prim_waiting. Qed.

Lemma run_waiting facet evs : sat (invariant waitingWhileHeld) (run facet evs).
Proof.
  induction evs as [|ev evs IH]; simpl; [apply sat_ret; tc_solve|].
  apply sat_bind; [tc_solve|apply handle_waiting|done].
Qed.

(** X4: whatever the events so far, while [facetSearchPromise] holds a
    request the waiting animation is showing: the animation is only hidden
    by steps that also let go of the handle. *)
Theorem waiting_animation_shows_while_a_request_is_held facet evs :
  let w := execState (run facet evs) initial in
  is_Some (facetSearchPromise (this w)) →
  showingFacetSearchWaitAnimation (this w) = true.
Proof.
  intros w. apply (run_waiting facet evs initial).
  by apply waitingWhileHeld_no_handle.
Qed.

(** ** The clear button *)

Lemma completelyDismissSearch_clear :
  sat (invariant clearMatchesInput) completelyDismissSearch.
Proof.
  intros w _. unfold clearMatchesInput. by rewrite completelyDismissSearch_fields.
Qed.

Lemma dismissed_input_cleared_clear :
  sat (invariant clearMatchesInput)
      (completelyDismissSearch;; modify (set_inputValue "")).
Proof.
  intros w _. unfold clearMatchesInput. rewrite execState_bind. simpl.
  by rewrite completelyDismissSearch_fields.
Qed.

Ltac prim_clear := intros H; exact H.

Lemma keyboardNavigationDeletePressed_clear shiftKey :
  sat (invariant clearMatchesInput) (keyboardNavigationDeletePressed shiftKey).
Proof.
  unfold keyboardNavigationDeletePressed. apply sat_when; [tc_solve|].
  apply sat_bind; [tc_solve|rel_auto prim_clear|intros [|]].
  - apply dismissed_input_cleared_clear.
  - apply sat_ret; tc_solve.
Qed.

#[global] Hint Resolve completelyDismissSearch_clear
  keyboardNavigationDeletePressed_clear : sat.

Lemma handleKeyboardNavigation_clear facet key shiftKey isEmpty :
  sat (invariant clearMatchesInput) (handleKeyboardNavigation facet key shiftKey isEmpty).
Proof. destruct key; rel_auto prim_clear. Qed.

Lemma startNewSearchTimeout_clear params :
  sat (invariant clearMatchesInput) (startNewSearchTimeout params).
Proof. rel_auto prim_clear. Qed.

Lemma debounced_search_clear facet :
  sat (invariant clearMatchesInput)
      (params ← buildParamsForNormalSearch facet; startNewSearchTimeout params).
Proof. rel_auto prim_clear. Qed.

Lemma showOrHideClearElement_clear w :
  clearMatchesInput
    (execState (showOrHideClearElement (String.eqb (inputValue (this w)) "")) w).
Proof.
  unfold clearMatchesInput, showOrHideClearElement.
  by destruct (String.eqb (inputValue (this w)) "") eqn:E; simpl; rewrite E.
Qed.

(** X5: after every keyup on the input, and after a click on the clear
    button, the clear button is shown exactly when the input holds some
    text, whatever the key did (search, navigation, selection, dismiss). *)
Theorem clear_button_follows_the_input facet w key shiftKey :
  clearMatchesInput (execState (handle facet (KeyUp key shiftKey)) w)
  ∧ clearMatchesInput (execState (handle facet ClearClick) w).
Proof.
  split.
  - unfold handle, handleFacetSearchKeyUp.
    rewrite execState_bind. unfold gets at 1 2, execState at 2, evalM. simpl.
    rewrite execState_bind.
    pose proof (showOrHideClearElement_clear w) as H.
    destruct (negb (isMobileDevice facet)).
    + by apply handleKeyboardNavigation_clear.
    + by apply (debounced_search_clear facet).
  - unfold handle, handleFacetSearchClear, clearMatchesInput.
    rewrite !execState_bind. by rewrite completelyDismissSearch_fields.
Qed.

(** ** Pointing at an entry, and moving on from it *)

Lemma displayedValues_cleared rs : displayedValues (cleared rs) = displayedValues rs.
Proof.
  unfold displayedValues, cleared. induction rs as [|e rs IH]; [done|].
  csimpl. rewrite IH. by destruct (coveo_facet_selectable e).
Qed.

Lemma displayedValues_addCurrent target rs :
  displayedValues (Dom.addCurrent target rs) = displayedValues rs.
Proof.
  destruct target as [p|]; [|done]. unfold displayedValues. simpl. revert p.
  induction rs as [|e rs IH]; intros [|p]; csimpl; try done.
  by rewrite IH.
Qed.

Lemma resultMouseMove_results facet elem w :
  elem ∈ Dom.findAll coveo_facet_selectable (searchResults (this w)) →
  handle facet (ResultMouseMove elem) w
  = (tt,
     {| this := set_searchResults
                  (Dom.addCurrent (Some elem) (cleared (searchResults (this w)))) (this w);
        timers := timers w; promises := promises w; nextHandle := nextHandle w |},
     []).
Proof.
  intros He. rewrite <- removeCurrentEach_cleared.
  unfold handle, isSelectable, getSelectables, gets, mbind, M_bind, mret, M_ret. simpl.
  rewrite bool_decide_eq_true_2 by done. simpl.
  by destruct w as [[d rs disp n i c nr t sw p m] tm pm nh].
Qed.

(** X6: moving the pointer over a selectable entry puts the cursor on that
    entry, wherever it was before, and does nothing else: no call is made
    and the entries shown are the same. *)
Theorem pointing_at_an_entry_moves_the_cursor_there facet w elem (j : nat) :
  currentOnSelectables (searchResults (this w)) →
  Dom.findAll coveo_facet_selectable (searchResults (this w)) !! j = Some elem →
  let w' := execState (handle facet (ResultMouseMove elem)) w in
  cursor (searchResults (this w')) = Some (Z.of_nat j)
  ∧ execEffects (handle facet (ResultMouseMove elem)) w = []
  ∧ displayedValues (searchResults (this w')) = displayedValues (searchResults (this w)).
Proof.
  intros Hrs Hj w'. subst w'. unfold execState, execEffects.
  rewrite resultMouseMove_results by by eapply list_elem_of_lookup_2.
  cbn [fst snd this searchResults set_searchResults].
  split; [by apply cursor_addCurrent_cleared|]. split; [done|].
  by rewrite displayedValues_addCurrent, displayedValues_cleared.
Qed.

(** ** The arrow keys *)

Lemma keyUp_off_mobile facet key shiftKey w :
  isMobileDevice facet = false →
  let isEmpty := String.eqb (inputValue (this w)) "" in
  handle facet (KeyUp key shiftKey) w
  = handleKeyboardNavigation facet key shiftKey isEmpty
      (execState (showOrHideClearElement isEmpty) w).
Proof.
  intros Hm isEmpty. subst isEmpty.
  unfold handle, handleFacetSearchKeyUp, showOrHideClearElement, execState.
  rewrite Hm. cbn [negb]. generalize (handleKeyboardNavigation facet key shiftKey).
  intros navigate. unfold mbind, M_bind, gets, modify. simpl.
  destruct (String.eqb (inputValue (this w)) ""); simpl;
    by destruct (navigate _ _) as [[[] w'] effs].
Qed.

Lemma showOrHideClearElement_others isEmpty w :
  let w1 := execState (showOrHideClearElement isEmpty) w in
  searchResults (this w1) = searchResults (this w)
  ∧ searchResultsDisplayed (this w1) = searchResultsDisplayed (this w)
  ∧ scrollListeners (this w1) = scrollListeners (this w).
Proof. by destruct isEmpty. Qed.

Lemma entries_alter b p rs : entries (alter (with_current b) p rs) = entries rs.
Proof.
  unfold entries. revert p.
  induction rs as [|e rs IH]; intros [|p]; csimpl; try done.
  by rewrite IH.
Qed.

Lemma entries_addCurrent target rs : entries (Dom.addCurrent target rs) = entries rs.
Proof. destruct target; [apply entries_alter|done]. Qed.

Lemma entries_removeCurrentEach targets rs :
  entries (Dom.removeCurrentEach targets rs) = entries rs.
Proof.
  unfold Dom.removeCurrentEach. revert rs.
  induction targets as [|p targets IH]; intros rs; [done|].
  simpl. rewrite IH. apply entries_alter.
Qed.

#[global] Instance navigationOnly_compositional : Compositional navigationOnly.
Proof.
  split.
  - intros w. by repeat split.
  - intros w1 w2 w3 e1 e2 H1 H2. unfold navigationOnly in *.
    destruct H1 as (-> & ? & ? & ? & ? & ? & ? & ? & ? & ? & ? & ? & ?).
    destruct H2 as (-> & ? & ? & ? & ? & ? & ? & ? & ? & ? & ? & ? & ?).
    repeat split; congruence.
Qed.

Ltac prim_navigation :=
  repeat split; cbn;
  first [reflexivity|apply entries_removeCurrentEach|apply entries_addCurrent].

Lemma handle_navigationOnly facet ev :
  isMobileDevice facet = false → isArrowKeyUp ev = true →
  sat navigationOnly (handle facet ev).
Proof.
  intros Hm Hev. destruct ev as [|[]| | | | | | | | | | | |]; try done;
    unfold handle, handleFacetSearchKeyUp; rewrite Hm; cbn [negb];
    rel_auto prim_navigation.
Qed.

Lemma run_navigationOnly facet evs :
  isMobileDevice facet = false → Forall (λ ev, isArrowKeyUp ev = true) evs →
  sat navigationOnly (run facet evs).
Proof.
  intros Hm. induction 1 as [|ev evs Hev _ IH]; simpl; [apply sat_ret; tc_solve|].
  apply sat_bind; [tc_solve|by apply handle_navigationOnly|done].
Qed.

Lemma moveCurrentResult_marks w :
  let down := execState moveCurrentResultDown w in
  let up := execState moveCurrentResultUp w in
  clearDisplayed (this down) = clearDisplayed (this w)
  ∧ noResultsClass (this down) = noResultsClass (this w)
  ∧ clearDisplayed (this up) = clearDisplayed (this w)
  ∧ noResultsClass (this up) = noResultsClass (this w).
Proof.
  unfold moveCurrentResultDown, moveCurrentResultUp, execState, getSelectables, gets,
    modify, mbind, M_bind.
  simpl. by repeat case_bool_decide.
Qed.

Lemma arrow_keyUp_marks facet ev w :
  isMobileDevice facet = false → isArrowKeyUp ev = true →
  marksSetFromInput w (execState (handle facet ev) w).
Proof.
  intros Hm Hev. destruct (moveCurrentResult_marks
    (execState (showOrHideClearElement (String.eqb (inputValue (this w)) "")) w))
    as (Hdc & Hdn & Huc & Hun).
  destruct ev as [|[]| | | | | | | | | | | |]; try done;
    unfold marksSetFromInput, execState at 1 2;
    rewrite (keyUp_off_mobile _ _ _ _ Hm); cbv zeta; unfold handleKeyboardNavigation;
    [fold (execState moveCurrentResultDown
             (execState (showOrHideClearElement (String.eqb (inputValue (this w)) "")) w));
     rewrite Hdc, Hdn
    |fold (execState moveCurrentResultUp
             (execState (showOrHideClearElement (String.eqb (inputValue (this w)) "")) w));
     rewrite Huc, Hun];
    unfold showOrHideClearElement;
    destruct (String.eqb (inputValue (this w)) ""); simpl;
    by rewrite ?andb_true_r, ?andb_false_r.
Qed.

Lemma arrow_keyUps_marks facet evs : ∀ w,
  isMobileDevice facet = false →
  Forall (λ ev, isArrowKeyUp ev = true) evs →
  let w' := execState (run facet evs) w in
  match evs with
  | [] => clearDisplayed (this w') = clearDisplayed (this w)
          ∧ noResultsClass (this w') = noResultsClass (this w)
  | _ :: _ => marksSetFromInput w w'
  end.
Proof.
  induction evs as [|ev evs IH]; intros w Hm Hevs; [done|].
  apply Forall_cons in Hevs as [Hev Hevs]. cbn [run]. cbv zeta.
  rewrite execState_bind.
  pose proof (arrow_keyUp_marks facet ev w Hm Hev) as [Hc Hn].
  destruct (handle_navigationOnly facet ev Hm Hev w)
    as (_ & _ & _ & _ & _ & _ & _ & _ & Hi & _).
  set (w1 := execState (handle facet ev) w) in *.
  specialize (IH w1 Hm Hevs). cbv zeta in IH. destruct evs as [|ev' evs].
  - exact (conj Hc Hn).
  - destruct IH as [Hc' Hn']. split.
    + by rewrite Hc', Hi.
    + rewrite Hn', Hn, Hi. by destruct (String.eqb (inputValue (this w)) ""),
        (noResultsClass (this w)).
Qed.

(** X7: off the mobile layout, any number of presses of the arrow keys
    makes no call on a collaborator, creates and drops no timer and no
    request, and leaves the entries, the input and the request state as
    they were.  What changes, besides the cursor class, is what
    [showOrHideClearElement] does on every keyup: after at least one press
    the clear button shows exactly when the input holds text, and the
    no-results mark is gone when the input is empty. *)
Theorem arrow_keys_only_move_the_cursor facet evs w :
  isMobileDevice facet = false →
  Forall (λ ev, isArrowKeyUp ev = true) evs →
  let w' := execState (run facet evs) w in
  navigationOnly w w' (execEffects (run facet evs) w)
  ∧ match evs with
    | [] => clearDisplayed (this w') = clearDisplayed (this w)
            ∧ noResultsClass (this w') = noResultsClass (this w)
    | _ :: _ => marksSetFromInput w w'
    end.
Proof.
  intros Hm Hevs w'. split.
  - by apply run_navigationOnly.
  - by apply arrow_keyUps_marks.
Qed.

Lemma selectableCount_moveUp w :
  selectableCount (searchResults (this (execState moveCurrentResultUp w)))
  = selectableCount (searchResults (this w)).
Proof.
  rewrite moveCurrentResultUp_results. cbv zeta. unfold selectableCount.
  by rewrite findAll_selectable_addCurrent, removeCurrentEach_cleared,
    findAll_selectable_cleared.
Qed.

Lemma keyUp_arrow_results facet shiftKey w :
  isMobileDevice facet = false →
  searchResults (this (execState (handle facet (KeyUp DOWN_ARROW shiftKey)) w))
  = searchResults (this (execState moveCurrentResultDown w))
  ∧ searchResults (this (execState (handle facet (KeyUp UP_ARROW shiftKey)) w))
    = searchResults (this (execState moveCurrentResultUp w)).
Proof.
  intros Hm. unfold handle, handleFacetSearchKeyUp. rewrite Hm. cbn [negb].
  rewrite !execState_bind. unfold handleKeyboardNavigation.
  rewrite !moveCurrentResultDown_results, !moveCurrentResultUp_results. cbv zeta.
  set (w1 := execState (showOrHideClearElement _) _).
  assert (searchResults (this w1) = searchResults (this w)) as ->; [|done].
  subst w1. unfold showOrHideClearElement, evalM, gets. simpl.
  by destruct (String.eqb (inputValue (this w)) "").
Qed.

Lemma arrows_walk facet shiftKey (k : nat) : ∀ w i,
  isMobileDevice facet = false →
  cursor (searchResults (this w)) = Some i →
  let n := selectableCount (searchResults (this w)) in
  let after key := execState (run facet (replicate k (KeyUp key shiftKey))) w in
  cursor (searchResults (this (after DOWN_ARROW))) = Some ((i + Z.of_nat k) mod n)
  ∧ selectableCount (searchResults (this (after DOWN_ARROW))) = n
  ∧ cursor (searchResults (this (after UP_ARROW))) = Some ((i - Z.of_nat k) mod n)
  ∧ selectableCount (searchResults (this (after UP_ARROW))) = n.
Proof.
  induction k as [|k IH]; intros w i Hm Hi n after; subst after.
  - destruct (cursor_bounds _ _ Hi) as (Hb & _). fold n in Hb.
    rewrite Z.add_0_r, Z.sub_0_r, Z.mod_small by done. by simpl.
  - destruct (cursor_bounds _ _ Hi) as (Hb & _). fold n in Hb.
    destruct (keyUp_arrow_results facet shiftKey w Hm) as [Hd Hu].
    cbn [replicate run]. rewrite !execState_bind.
    set (wd := execState (handle facet (KeyUp DOWN_ARROW shiftKey)) w) in *.
    set (wu := execState (handle facet (KeyUp UP_ARROW shiftKey)) w) in *.
    assert (selectableCount (searchResults (this wd)) = n) as Hnd
      by (rewrite Hd; apply selectableCount_moveDown).
    assert (selectableCount (searchResults (this wu)) = n) as Hnu
      by (rewrite Hu; apply selectableCount_moveUp).
    assert (cursor (searchResults (this wd)) = Some ((i + 1) mod n)) as Hcd
      by (rewrite Hd; by apply cursor_moveDown).
    assert (cursor (searchResults (this wu)) = Some ((i - 1) mod n)) as Hcu
      by (rewrite Hu; by apply cursor_moveUp).
    destruct (IH wd _ Hm Hcd) as (IHd & IHnd & _).
    destruct (IH wu _ Hm Hcu) as (_ & _ & IHu & IHnu).
    rewrite Hnd in IHd, IHnd. rewrite Hnu in IHu, IHnu.
    split; [|split; [done|split; [|done]]].
    + rewrite IHd. f_equal. rewrite Zplus_mod_idemp_l. f_equal. lia.
    + rewrite IHu. f_equal. rewrite Zminus_mod_idemp_l. f_equal. lia.
Qed.

(** X8: off the mobile layout, with the cursor on entry i of n selectable
    entries, k presses of the down arrow put it on entry (i + k) mod n and k
    presses of the up arrow on entry (i - k) mod n; so n presses of either
    key bring the cursor back to where it was. *)
Theorem arrow_keys_walk_the_list_round facet shiftKey w i (k : nat) :
  isMobileDevice facet = false →
  cursor (searchResults (this w)) = Some i →
  let n := selectableCount (searchResults (this w)) in
  let after key := execState (run facet (replicate k (KeyUp key shiftKey))) w in
  cursor (searchResults (this (after DOWN_ARROW))) = Some ((i + Z.of_nat k) mod n)
  ∧ cursor (searchResults (this (after UP_ARROW))) = Some ((i - Z.of_nat k) mod n)
  ∧ (Z.of_nat k = n →
     cursor (searchResults (this (after DOWN_ARROW))) = Some i
     ∧ cursor (searchResults (this (after UP_ARROW))) = Some i).
Proof.
  intros Hm Hi n after. subst after. cbv beta.
  destruct (arrows_walk facet shiftKey k w i Hm Hi) as (Hd & _ & Hu & _).
  destruct (cursor_bounds _ _ Hi) as (Hb & _). fold n in Hb, Hd, Hu.
  split; [done|]. split; [done|]. intros Hk.
  rewrite Hd, Hu, Hk. split; f_equal.
  - replace (i + n) with (i + 1 * n) by lia. rewrite Z.mod_add by lia.
    apply Z.mod_small; lia.
  - replace (i - n) with (i + (-1) * n) by lia. rewrite Z.mod_add by lia.
    apply Z.mod_small; lia.
Qed.

(** ** Enter and Shift+Delete act on the entry under the cursor *)

Lemma cursor_current rs (j : nat) p :
  cursor rs = Some (Z.of_nat j) →
  Dom.findAll coveo_facet_selectable rs !! j = Some p →
  Dom.findAll coveo_current rs = [p] ∧ Dom.find coveo_current rs = Some p.
Proof.
  intros (j' & p' & Hj & Hp & Hc)%cursor_Some Hsel.
  assert (j' = j) as -> by lia. assert (p' = p) as -> by congruence.
  split; [done|]. unfold Dom.find. by rewrite Hc.
Qed.

Lemma enterPressed_on_value_entry facet isEmpty w p e :
  searchResultsDisplayed (this w) = true →
  Dom.find coveo_current (searchResults (this w)) = Some p →
  searchResults (this w) !! p = Some e →
  hasValueControls e = true →
  keyboardNavigationEnterPressed facet false isEmpty w
  = (tt, execState completelyDismissSearch w,
     SelectActionOnCurrent (Some p) :: execEffects completelyDismissSearch w).
Proof.
  intros Hd Hp He Hv.
  unfold keyboardNavigationEnterPressed, performSelectActionOnCurrentSearchResult,
    Assert_check, execState, execEffects.
  generalize completelyDismissSearch. intros dismiss.
  unfold mbind, M_bind, gets, emit. simpl. rewrite Hd, Hp. simpl. rewrite He, Hv. simpl.
  by destruct (dismiss w) as [[[] w'] effs].
Qed.

Lemma deletePressed_on_value_entry w p e :
  Dom.findAll coveo_current (searchResults (this w)) = [p] →
  searchResults (this w) !! p = Some e →
  hasValueControls e = true →
  keyboardNavigationDeletePressed true w
  = (tt, execState (completelyDismissSearch;; modify (set_inputValue "")) w,
     ExcludeActionOnCurrent [p]
       :: execEffects (completelyDismissSearch;; modify (set_inputValue "")) w).
Proof.
  intros Hp He Hv.
  unfold keyboardNavigationDeletePressed, performExcludeActionOnCurrentSearchResult,
    Assert_check, execState, execEffects.
  generalize (completelyDismissSearch;; modify (set_inputValue "")). intros dismiss.
  unfold when, mbind, M_bind, gets, emit. simpl. rewrite Hp. simpl. rewrite He, Hv. simpl.
  by destruct (dismiss w) as [[[] w'] effs].
Qed.

Lemma enter_on_shown_list facet w p e :
  isMobileDevice facet = false →
  searchResultsDisplayed (this w) = true →
  Dom.find coveo_current (searchResults (this w)) = Some p →
  searchResults (this w) !! p = Some e →
  hasValueControls e = true →
  ∃ w1,
    execEffects (handle facet (KeyUp ENTER false)) w
    = SelectActionOnCurrent (Some p) :: execEffects completelyDismissSearch w1
    ∧ this (execState (handle facet (KeyUp ENTER false)) w)
      = dismissedFields (scrollListeners (this w)).
Proof.
  intros Hm Hd Hp He Hv. unfold execEffects at 1, execState at 1.
  rewrite (keyUp_off_mobile _ _ _ _ Hm). cbv zeta.
  set (isEmpty := String.eqb _ _).
  destruct (showOrHideClearElement_others isEmpty w) as (Hrs & Hdisp & Hn).
  set (w1 := execState (showOrHideClearElement isEmpty) w) in *.
  exists w1. unfold handleKeyboardNavigation.
  rewrite (enterPressed_on_value_entry facet isEmpty w1 p e) by congruence.
  split; [done|]. simpl. by rewrite completelyDismissSearch_fields, Hn.
Qed.

Lemma shift_delete facet w p e :
  isMobileDevice facet = false →
  Dom.findAll coveo_current (searchResults (this w)) = [p] →
  searchResults (this w) !! p = Some e →
  hasValueControls e = true →
  ∃ w1,
    execEffects (handle facet (KeyUp DELETE true)) w
    = ExcludeActionOnCurrent [p] :: execEffects completelyDismissSearch w1
    ∧ this (execState (handle facet (KeyUp DELETE true)) w)
      = dismissedFields (scrollListeners (this w)).
Proof.
  intros Hm Hp He Hv. unfold execEffects at 1, execState at 1.
  rewrite (keyUp_off_mobile _ _ _ _ Hm). cbv zeta.
  set (isEmpty := String.eqb _ _).
  destruct (showOrHideClearElement_others isEmpty w) as (Hrs & Hdisp & Hn).
  set (w1 := execState (showOrHideClearElement isEmpty) w) in *.
  exists w1. unfold handleKeyboardNavigation.
  rewrite (deletePressed_on_value_entry w1 p e) by congruence.
  cbn [fst snd]. rewrite execEffects_bind, execState_bind.
  split; [by rewrite app_nil_r|]. simpl. by rewrite completelyDismissSearch_fields, Hn.
Qed.

Lemma completelyDismissSearch_quiet w :
  selectActions (execEffects completelyDismissSearch w) = []
  ∧ excludeActions (execEffects completelyDismissSearch w) = []
  ∧ requests (execEffects completelyDismissSearch w) = []
  ∧ timersArmed (execEffects completelyDismissSearch w) = [].
Proof. by_handles w. Qed.

(** X9: off the mobile layout, with the cursor on an entry built for a
    value (for the "select all" entry the click that Enter makes on it is
    the request of [selectAllValuesMatchingSearch]), Enter on a shown list
    activates that entry, once, and Shift+Delete excludes that entry, once
    (shown list or not); either key then dismisses the search, and the
    class itself sends no request and arms no timer. *)
Theorem enter_and_shift_delete_act_on_the_cursor facet w (j : nat) p v :
  isMobileDevice facet = false →
  cursor (searchResults (this w)) = Some (Z.of_nat j) →
  Dom.findAll coveo_facet_selectable (searchResults (this w)) !! j = Some p →
  el_value <$> searchResults (this w) !! p = Some (Some v) →
  let enter := handle facet (KeyUp ENTER false) in
  let shiftDelete := handle facet (KeyUp DELETE true) in
  (searchResultsDisplayed (this w) = true →
   selectActions (execEffects enter w) = [Some p]
   ∧ excludeActions (execEffects enter w) = []
   ∧ requests (execEffects enter w) = []
   ∧ timersArmed (execEffects enter w) = []
   ∧ this (execState enter w) = this (execState completelyDismissSearch w))
  ∧ selectActions (execEffects shiftDelete w) = []
  ∧ excludeActions (execEffects shiftDelete w) = [[p]]
  ∧ requests (execEffects shiftDelete w) = []
  ∧ timersArmed (execEffects shiftDelete w) = []
  ∧ this (execState shiftDelete w) = this (execState completelyDismissSearch w).
Proof.
  intros Hm Hc Hp Hv enter shiftDelete. subst enter shiftDelete.
  destruct (cursor_current _ _ _ Hc Hp) as [Hall Hone].
  destruct (searchResults (this w) !! p) as [e|] eqn:He; [|done].
  assert (hasValueControls e = true) as Hctl
    by (simpl in Hv; injection Hv as Hv; unfold hasValueControls; by rewrite Hv).
  rewrite completelyDismissSearch_fields. split.
  - intros Hd. destruct (enter_on_shown_list facet w p e Hm Hd Hone He Hctl)
      as (w1 & -> & ->).
    destruct (completelyDismissSearch_quiet w1) as (Hs & Hx & Hr & Ht).
    unfold selectActions, excludeActions, requests, timersArmed in *.
    csimpl. by rewrite Hs, Hx, Hr, Ht.
  - destruct (shift_delete facet w p e Hm Hall He Hctl) as (w1 & -> & ->).
    destruct (completelyDismissSearch_quiet w1) as (Hs & Hx & Hr & Ht).
    unfold selectActions, excludeActions, requests, timersArmed in *.
    csimpl. by rewrite Hs, Hx, Hr, Ht.
Qed.

(** ** An answer without values, and Enter after it *)

Lemma emptyReplace_state facet params fieldValues w :
  fetchMore params = false →
  reorderValues facet fieldValues = [] →
  execState (facetSearchFulfilled facet params fieldValues) w
  = {| this := set_facetSearchPromise None
                 (set_showingFacetSearchWaitAnimation false
                    (set_noResultsClass true
                       (set_searchResultsDisplayed false (this w))));
       timers := timers w; promises := promises w; nextHandle := nextHandle w |}.
Proof.
  intros Hf Hr. unfold facetSearchFulfilled, processNewFacetSearchResults.
  rewrite Hr, Hf. by destruct w as [[d rs disp n i c nr t sw p m] tm pm nh].
Qed.

Lemma enter_on_hidden_list facet w :
  isMobileDevice facet = false →
  searchResultsDisplayed (this w) = false →
  let enter := handle facet (KeyUp ENTER false) in
  if noResultsClass (this w) && negb (String.eqb (inputValue (this w)) "") then
    requests (execEffects enter w)
    = [(nextHandle w,
        setValueToSearch (inputValue (this w))
          (with_nbResults 1000 (newFacetSearchParameters facet)))]
    ∧ selectActions (execEffects enter w) = []
    ∧ this (execState enter w) = dismissedFields (scrollListeners (this w))
  else
    execEffects enter w = []
    ∧ noResultsClass (this (execState enter w))
      = noResultsClass (this w) && negb (String.eqb (inputValue (this w)) "").
Proof.
  intros Hm Hd enter. subst enter. unfold handle, handleFacetSearchKeyUp.
  rewrite Hm. cbn [negb].
  destruct w as [[d rs disp n i c [|] [t|] sw [p|] m] tm pm nh];
    simpl in Hd; subst disp; cbn [this noResultsClass inputValue andb];
    destruct (String.eqb i "") eqn:Ei; cbn [negb];
    lazy -[insert delete lookup String.eqb];
    rewrite ?Ei; lazy -[insert delete lookup String.eqb]; rewrite ?Ei;
    by repeat split.
Qed.

(** X10: off the mobile layout, an answer without values to a search that
    replaces the list hides the list and marks the search as without
    results, leaving the entries and [currentlyDisplayedResults] as they
    were.  Enter after it, with text in the input, sends the one request
    for all the values that match the text (up to 1000) and dismisses the
    search; with an empty input it takes the mark away and does nothing
    else. *)
Theorem enter_after_an_empty_answer_selects_all facet w id params fieldValues :
  isMobileDevice facet = false →
  promises w !! id = Some (FacetSearchCallbacks params) →
  fetchMore params = false →
  reorderValues facet fieldValues = [] →
  let w1 := execState (handle facet (PromiseFulfilled id fieldValues)) w in
  let enter := handle facet (KeyUp ENTER false) in
  searchResultsDisplayed (this w1) = false
  ∧ noResultsClass (this w1) = true
  ∧ searchResults (this w1) = searchResults (this w)
  ∧ currentlyDisplayedResults (this w1) = currentlyDisplayedResults (this w)
  ∧ if String.eqb (inputValue (this w)) "" then
      execEffects enter w1 = [] ∧ noResultsClass (this (execState enter w1)) = false
    else
      requests (execEffects enter w1)
      = [(nextHandle w,
          setValueToSearch (inputValue (this w))
            (with_nbResults 1000 (newFacetSearchParameters facet)))]
      ∧ selectActions (execEffects enter w1) = []
      ∧ this (execState enter w1) = this (execState completelyDismissSearch w1).
Proof.
  intros Hm Hid Hf Hr w1 enter.
  assert (w1 = {| this := set_facetSearchPromise None
                            (set_showingFacetSearchWaitAnimation false
                               (set_noResultsClass true
                                  (set_searchResultsDisplayed false (this w))));
                  timers := timers w; promises := delete id (promises w);
                  nextHandle := nextHandle w |}) as Hw1.
  { subst w1. unfold execState at 1. rewrite (handle_PromiseFulfilled _ _ _ _ _ Hid).
    fold (execState (facetSearchFulfilled facet params fieldValues)
            (execState (takePromise id) w)).
    by rewrite emptyReplace_state. }
  assert (searchResultsDisplayed (this w1) = false) as Hd by by rewrite Hw1.
  pose proof (enter_on_hidden_list facet w1 Hm Hd) as He. cbv zeta in He. fold enter in He.
  rewrite completelyDismissSearch_fields.
  split; [done|]. rewrite Hw1 in He |- *. cbn [this noResultsClass inputValue
    set_facetSearchPromise set_showingFacetSearchWaitAnimation set_noResultsClass
    set_searchResultsDisplayed searchResults currentlyDisplayedResults nextHandle
    scrollListeners andb] in He |- *.
  repeat (split; [done|]).
  by destruct (String.eqb (inputValue (this w)) "").
Qed.

(** ** Nothing cancels a request *)

Lemma setTimeout_attached id cb tcb : sat (invariant (attached id cb)) (setTimeout tcb).
Proof. intros w [Hlt Hid]. split; [simpl; lia|done]. Qed.

Lemma facetQueryController_search_attached id cb params :
  sat (invariant (attached id cb)) (facetQueryController_search params).
Proof. intros w [Hlt Hid]. split; [simpl; lia|done]. Qed.

Lemma triggerNewFacetSearch_promises params w :
  promises (execState (triggerNewFacetSearch params) w)
  = <[nextHandle w := FacetSearchCallbacks params]> (promises w)
  ∧ nextHandle (execState (triggerNewFacetSearch params) w) = S (nextHandle w).
Proof. by_handles w. Qed.

Lemma selectAllValuesMatchingSearch_promises facet w :
  promises (execState (selectAllValuesMatchingSearch facet) w)
  = <[nextHandle w := SelectAllCallbacks]> (promises w)
  ∧ nextHandle (execState (selectAllValuesMatchingSearch facet) w) = S (nextHandle w).
Proof. by_handles w. Qed.

Lemma triggerNewFacetSearch_attached id cb params :
  sat (invariant (attached id cb)) (triggerNewFacetSearch params).
Proof.
  intros w [Hlt Hid]. destruct (triggerNewFacetSearch_promises params w) as [Hp Hn].
  split; [lia|]. rewrite Hp, lookup_insert_ne by lia. done.
Qed.

Lemma selectAllValuesMatchingSearch_attached facet id cb :
  sat (invariant (attached id cb)) (selectAllValuesMatchingSearch facet).
Proof.
  intros w [Hlt Hid]. destruct (selectAllValuesMatchingSearch_promises facet w) as [Hp Hn].
  split; [lia|]. rewrite Hp, lookup_insert_ne by lia. done.
Qed.

Lemma takePromise_attached id cb k :
  k ≠ id → sat (invariant (attached id cb)) (takePromise k).
Proof. intros Hk w [Hlt Hid]. split; [done|]. simpl. by rewrite lookup_delete_ne. Qed.

#[local] Hint Resolve setTimeout_attached facetQueryController_search_attached
  triggerNewFacetSearch_attached selectAllValuesMatchingSearch_attached
  takePromise_attached : sat.

Ltac prim_attached := intros H; exact H.

Lemma handle_attached facet id cb ev :
  settles id ev = false → sat (invariant (attached id cb)) (handle facet ev).
Proof.
  intros Hev. destruct ev; simpl in Hev; try apply bool_decide_eq_false in Hev;
    rel_auto prim_attached.
Qed.

Lemma run_attached facet id cb evs :
  Forall (λ ev, settles id ev = false) evs →
  sat (invariant (attached id cb)) (run facet evs).
Proof.
  induction 1 as [|ev evs Hev _ IH]; simpl; [apply sat_ret; tc_solve|].
  apply sat_bind; [tc_solve|by apply handle_attached|done].
Qed.

(** X11: the callbacks attached to a request stay attached until the
    request itself is settled.  No other event (a dismiss, a newer search, a
    keystroke, a click, a timer, the settlement of another request) takes
    them away, so the answer still acts on the instance when it arrives. *)
Theorem a_request_is_never_cancelled facet evs w id cb :
  (id < nextHandle w)%nat →
  promises w !! id = Some cb →
  Forall (λ ev, settles id ev = false) evs →
  promises (execState (run facet evs) w) !! id = Some cb.
Proof.
  intros Hlt Hid Hevs. by apply (run_attached facet id cb evs Hevs w).
Qed.

(** ** What an answer puts in the list *)

Lemma displayedValues_app rs1 rs2 :
  displayedValues (rs1 ++ rs2) = displayedValues rs1 ++ displayedValues rs2.
Proof. apply omap_app. Qed.

Lemma displayedValues_build fieldValues :
  displayedValues (build (FacetValue_create <$> fieldValues)) = fv_value <$> fieldValues.
Proof.
  unfold displayedValues, build. induction fieldValues as [|f l IH]; [done|].
  csimpl. by rewrite IH.
Qed.

Lemma displayedValues_rendered facet fieldValues params rs :
  displayedValues (rendered facet fieldValues params rs)
  = (if fetchMore params then displayedValues rs else []) ++ (fv_value <$> fieldValues).
Proof.
  unfold rendered. rewrite !displayedValues_app, displayedValues_build.
  by destruct (fetchMore params), (isNonEmptyString (valueToSearch params)),
    (isMobileDevice facet); simpl; rewrite ?app_nil_r.
Qed.

Lemma facetSearchFulfilled_values facet params fieldValues w :
  (0 < length (reorderValues facet fieldValues))%nat →
  displayedValues
    (searchResults (this (execState (facetSearchFulfilled facet params fieldValues) w)))
  = (if fetchMore params then displayedValues (searchResults (this w)) else [])
    ++ (fv_value <$> reorderValues facet fieldValues).
Proof.
  intros Hlen.
  rewrite facetSearchFulfilled_results, processNewFacetSearchResults_results by done.
  cbv zeta. by rewrite displayedValues_addCurrent, displayedValues_cleared,
    displayedValues_rendered.
Qed.

Lemma facetSearchFulfilled_fields facet params fieldValues w :
  (0 < length (reorderValues facet fieldValues))%nat →
  let w' := execState (facetSearchFulfilled facet params fieldValues) w in
  searchResultsDisplayed (this w')
  = (if fetchMore params then searchResultsDisplayed (this w) else true)
  ∧ noResultsClass (this w') = false
  ∧ inputValue (this w') = inputValue (this w)
  ∧ currentlyDisplayedResults (this w')
    = Some (displayed (this w) ++ (fv_value <$> reorderValues facet fieldValues))
  ∧ facetSearchPromise (this w') = None
  ∧ showingFacetSearchWaitAnimation (this w') = false
  ∧ moreValuesToFetch (this w') = moreValuesToFetch (this w)
  ∧ scrollListeners (this w')
    = (if isNewDesign facet then S (scrollListeners (this w))
       else scrollListeners (this w)).
Proof.
  intros Hlen w'. subst w'.
  unfold facetSearchFulfilled, processNewFacetSearchResults, rebuildSearchResults.
  rewrite bool_decide_eq_true_2 by done. unfold isMobileDevice.
  rewrite <- (list_fmap_compose FacetValue_create value).
  change (value ∘ FacetValue_create) with fv_value.
  generalize (reorderValues facet fieldValues) as l. intros l.
  destruct (fetchMore params), (isNonEmptyString (valueToSearch params)),
    (deviceIsMobile facet), (isNewDesign facet),
    w as [[[d|] rs disp n i c nr t sw p m] tm pm nh];
    lazy -[insert delete lookup Dom.removeCurrentEach Dom.addCurrent Dom.findAll
           Dom.at_index build fmap app];
    by repeat split.
Qed.

Lemma handle_PromiseFulfilled_this facet id params fieldValues w :
  promises w !! id = Some (FacetSearchCallbacks params) →
  this (execState (handle facet (PromiseFulfilled id fieldValues)) w)
  = this (execState (facetSearchFulfilled facet params fieldValues)
            (execState (takePromise id) w)).
Proof.
  intros Hid. unfold execState at 1. by rewrite (handle_PromiseFulfilled _ _ _ _ _ Hid).
Qed.

(** X12: an answer with values puts in the list, in the order the facet
    sorts them, exactly the values of the answer, after the values already
    there when it is an answer to "fetch more" and in place of them
    otherwise, and opens the list unless it is an answer to "fetch more";
    [currentlyDisplayedResults] gets the same values appended in both
    cases, so that after a replacement it still starts with the values that
    are no longer shown. *)
Theorem an_answer_shows_its_values facet w id params fieldValues :
  promises w !! id = Some (FacetSearchCallbacks params) →
  (0 < length (reorderValues facet fieldValues))%nat →
  let w' := execState (handle facet (PromiseFulfilled id fieldValues)) w in
  let answer := fv_value <$> reorderValues facet fieldValues in
  displayedValues (searchResults (this w'))
  = (if fetchMore params then displayedValues (searchResults (this w)) else []) ++ answer
  ∧ currentlyDisplayedResults (this w') = Some (displayed (this w) ++ answer)
  ∧ searchResultsDisplayed (this w')
    = (if fetchMore params then searchResultsDisplayed (this w) else true)
  ∧ noResultsClass (this w') = false.
Proof.
  intros Hid Hlen w' answer. subst w' answer.
  rewrite (handle_PromiseFulfilled_this _ _ _ _ _ Hid).
  destruct (facetSearchFulfilled_fields facet params fieldValues
              (execState (takePromise id) w) Hlen) as (Hd & Hn & _ & Hc & _).
  split; [by rewrite facetSearchFulfilled_values|]. by rewrite Hd, Hn, Hc.
Qed.

(** X13: a dismiss does not stop the answer to a request that is under
    way: when the answer arrives its values are rendered into the list that
    the dismiss had emptied, and, unless it is an answer to "fetch more",
    the list that the dismiss had closed is open again, over an input that
    is empty. *)
Theorem an_answer_after_a_dismiss_opens_the_list_again facet w id params fieldValues :
  promises w !! id = Some (FacetSearchCallbacks params) →
  (0 < length (reorderValues facet fieldValues))%nat →
  let w1 := execState completelyDismissSearch w in
  let w2 := execState (handle facet (PromiseFulfilled id fieldValues)) w1 in
  let answer := fv_value <$> reorderValues facet fieldValues in
  searchResultsDisplayed (this w1) = false
  ∧ displayedValues (searchResults (this w1)) = []
  ∧ displayedValues (searchResults (this w2)) = answer
  ∧ currentlyDisplayedResults (this w2) = Some answer
  ∧ searchResultsDisplayed (this w2) = negb (fetchMore params)
  ∧ inputValue (this w2) = "".
Proof.
  intros Hid Hlen w1 w2 answer.
  assert (this w1 = dismissedFields (scrollListeners (this w))) as Hw1
    by apply completelyDismissSearch_fields.
  assert (promises w1 !! id = Some (FacetSearchCallbacks params)) as Hid1.
  { subst w1. clear Hw1. revert Hid. by by_handles w. }
  subst w2 answer. rewrite (handle_PromiseFulfilled_this _ _ _ _ _ Hid1).
  destruct (facetSearchFulfilled_fields facet params fieldValues
              (execState (takePromise id) w1) Hlen) as (Hd & _ & Hi & Hc & _).
  rewrite facetSearchFulfilled_values, Hd, Hi, Hc by done.
  change (this (execState (takePromise id) w1)) with (this w1). rewrite Hw1.
  unfold displayed. cbn [dismissedFields searchResults searchResultsDisplayed inputValue
    currentlyDisplayedResults default].
  by destruct (fetchMore params).
Qed.

(** ** The list and [currentlyDisplayedResults] *)

Lemma displayedValues_entries rs : displayedValues (entries rs) = displayedValues rs.
Proof.
  unfold displayedValues, entries. induction rs as [|e rs IH]; [done|].
  csimpl. by rewrite IH.
Qed.

Lemma displayedValues_removeCurrentEach targets rs :
  displayedValues (Dom.removeCurrentEach targets rs) = displayedValues rs.
Proof.
  by rewrite <- displayedValues_entries, entries_removeCurrentEach,
    displayedValues_entries.
Qed.

Lemma completelyDismissSearch_shownAtTheEnd :
  sat (invariant shownAtTheEnd) completelyDismissSearch.
Proof.
  intros w _. unfold shownAtTheEnd, displayed.
  by rewrite completelyDismissSearch_fields.
Qed.

Lemma rebuildSearchResults_shownAtTheEnd facet fieldValues params :
  sat (invariant shownAtTheEnd) (rebuildSearchResults facet fieldValues params).
Proof.
  intros w Hw. unfold shownAtTheEnd in *.
  rewrite rebuildSearchResults_results, displayedValues_rendered. unfold displayed at 1.
  rewrite rebuildSearchResults_concat. simpl.
  destruct (fetchMore params).
  - by apply suffix_app.
  - apply suffix_app_r. done.
Qed.

#[local] Hint Resolve completelyDismissSearch_shownAtTheEnd
  rebuildSearchResults_shownAtTheEnd : sat.

Ltac prim_shownAtTheEnd :=
  intros H;
  first
    [ exact H
    | unfold shownAtTheEnd, execState in *;
      cbn [fst snd this searchResults set_searchResults displayed
           currentlyDisplayedResults];
      rewrite ?displayedValues_addCurrent, ?displayedValues_removeCurrentEach;
      exact H ].

Lemma handle_shownAtTheEnd facet ev : sat (invariant shownAtTheEnd) (handle facet ev).
Proof. destruct ev; rel_auto prim_shownAtTheEnd. Qed.

Lemma run_shownAtTheEnd facet evs : sat (invariant shownAtTheEnd) (run facet evs).
Proof.
  induction evs as [|ev evs IH]; simpl; [apply sat_ret; tc_solve|].
  apply sat_bind; [tc_solve|apply handle_shownAtTheEnd|done].
Qed.

(** X14: whatever the events so far, the values shown in the list are the
    last values of [currentlyDisplayedResults], in the same order: the two
    are filled together, and only the list is emptied by an answer that
    replaces it. *)
Theorem the_list_shows_the_last_displayed_results facet evs :
  let w := execState (run facet evs) initial in
  displayedValues (searchResults (this w)) `suffix_of` displayed (this w).
Proof.
  intros w. apply (run_shownAtTheEnd facet evs initial). by exists [].
Qed.

(** ** The mobile layout *)

Lemma mobile_keyUp facet key shiftKey w :
  isMobileDevice facet = true →
  let keyup := handle facet (KeyUp key shiftKey) in
  let params :=
    with_fetchMore false
      (setValueToSearch (inputValue (this w)) (newFacetSearchParameters facet)) in
  timers (execState keyup w)
  = <[nextHandle w := SearchTimeout params]>
      (timers (execState cancelAnyPendingSearchOperation w))
  ∧ facetSearchTimeout (this (execState keyup w)) = Some (nextHandle w)
  ∧ timersArmed (execEffects keyup w) = [nextHandle w]
  ∧ requests (execEffects keyup w) = []
  ∧ selectActions (execEffects keyup w) = []
  ∧ excludeActions (execEffects keyup w) = []
  ∧ searchResults (this (execState keyup w)) = searchResults (this w)
  ∧ inputValue (this (execState keyup w)) = inputValue (this w)
  ∧ facetSearchPromise (this (execState keyup w)) = None
  ∧ showingFacetSearchWaitAnimation (this (execState keyup w)) = false
  ∧ marksSetFromInput w (execState keyup w)
  ∧ promises (execState keyup w) = promises w
  ∧ currentlyDisplayedResults (this (execState keyup w))
    = currentlyDisplayedResults (this w)
  ∧ searchResultsDisplayed (this (execState keyup w)) = searchResultsDisplayed (this w)
  ∧ moreValuesToFetch (this (execState keyup w)) = moreValuesToFetch (this w)
  ∧ scrollListeners (this (execState keyup w)) = scrollListeners (this w)
  ∧ execEffects keyup w
    = match facetSearchTimeout (this w) with
      | Some id => [ClearTimeout id]
      | None => []
      end ++ [WaitingAnimationHidden; SetTimeout (nextHandle w)].
Proof.
  intros Hm keyup params. subst keyup params. unfold marksSetFromInput.
  unfold handle, handleFacetSearchKeyUp.
  rewrite Hm. cbn [negb].
  destruct w as [[d rs disp n i c nr [t|] sw [p|] m] tm pm nh];
    destruct (String.eqb i "") eqn:Ei;
    lazy -[insert delete lookup String.eqb gmap_partial_alter gmap_lookup map_insert
           map_delete nat_countable Nat.eq_dec]; rewrite ?Ei;
    lazy -[insert delete lookup String.eqb gmap_partial_alter gmap_lookup map_insert
           map_delete nat_countable Nat.eq_dec];
    repeat split.
  all: by destruct nr.
Qed.

Lemma mobile_inert facet w target smallFacet searching :
  isMobileDevice facet = true →
  handle facet Focus w = (tt, w, [])
  ∧ handle facet (DocumentClick target) w = (tt, w, [])
  ∧ handle facet (WindowResize smallFacet searching) w = (tt, w, []).
Proof.
  intros Hm. unfold handle, handleFacetSearchFocus, handleClickElsewhere, onResize.
  rewrite Hm. cbn [negb andb].
  by destruct w as [[[d|] rs disp n i c nr t sw p m] tm pm nh].
Qed.

(** X15: on the mobile layout no key is a navigation key.  Every keyup,
    Enter, Escape and the arrows included, does the same three things: it
    sets the clear button and the no-results mark from the input, it lets
    go of what is pending (the armed timer is cleared, the handle of the
    request under way is dropped, the waiting animation is hidden), and it
    arms the debounce timer for a plain search of the text in the input.
    It sends no request at once, activates no entry, and leaves the list,
    the input and the callbacks of the requests as they were.  A focus, a
    click in the document and a resize of the window do nothing at all. *)
Theorem on_mobile_every_key_only_rearms_the_debounce
    facet w key shiftKey target smallFacet searching :
  isMobileDevice facet = true →
  let keyup := handle facet (KeyUp key shiftKey) in
  let params :=
    with_fetchMore false
      (setValueToSearch (inputValue (this w)) (newFacetSearchParameters facet)) in
  timers (execState keyup w) !! nextHandle w = Some (SearchTimeout params)
  ∧ facetSearchTimeout (this (execState keyup w)) = Some (nextHandle w)
  ∧ timersArmed (execEffects keyup w) = [nextHandle w]
  ∧ requests (execEffects keyup w) = []
  ∧ selectActions (execEffects keyup w) = []
  ∧ excludeActions (execEffects keyup w) = []
  ∧ searchResults (this (execState keyup w)) = searchResults (this w)
  ∧ inputValue (this (execState keyup w)) = inputValue (this w)
  ∧ handle facet Focus w = (tt, w, [])
  ∧ handle facet (DocumentClick target) w = (tt, w, [])
  ∧ handle facet (WindowResize smallFacet searching) w = (tt, w, [])
  ∧ facetSearchPromise (this (execState keyup w)) = None
  ∧ showingFacetSearchWaitAnimation (this (execState keyup w)) = false
  ∧ marksSetFromInput w (execState keyup w)
  ∧ promises (execState keyup w) = promises w
  ∧ currentlyDisplayedResults (this (execState keyup w))
    = currentlyDisplayedResults (this w)
  ∧ searchResultsDisplayed (this (execState keyup w)) = searchResultsDisplayed (this w)
  ∧ moreValuesToFetch (this (execState keyup w)) = moreValuesToFetch (this w)
  ∧ scrollListeners (this (execState keyup w)) = scrollListeners (this w)
  ∧ execEffects keyup w
    = match facetSearchTimeout (this w) with
      | Some id => [ClearTimeout id]
      | None => []
      end ++ [WaitingAnimationHidden; SetTimeout (nextHandle w)].
Proof.
  intros Hm keyup params.
  destruct (mobile_keyUp facet key shiftKey w Hm)
    as (H1 & H2 & H3 & H4 & H5 & H6 & H7 & H8 & K1 & K2 & K3 & K4 & K5 & K6 & K7 & K8 & K9).
  destruct (mobile_inert facet w target smallFacet searching Hm) as (H9 & H10 & H11).
  split; [subst keyup; rewrite H1; apply lookup_insert_eq|].
  repeat (split; [assumption|]). assumption.
Qed.

(** ** The scroll listeners *)

#[global] Instance listenersKept_preorder : PreOrder listenersKept.
Proof. split; unfold listenersKept; [intros s|intros s1 s2 s3 ? ?]; lia. Qed.

Ltac prim_listenersKept := unfold onFields, listenersKept; cbn; lia.

Lemma handle_listenersKept facet ev : sat (onFields listenersKept) (handle facet ev).
Proof. destruct ev; rel_auto prim_listenersKept. Qed.

Lemma run_listenersKept facet evs : sat (onFields listenersKept) (run facet evs).
Proof.
  induction evs as [|ev evs IH]; simpl; [apply sat_ret; tc_solve|].
  apply sat_bind; [tc_solve|apply handle_listenersKept|done].
Qed.

(** X16: a scroll listener, once put on the list, stays: over any run of
    events the number of scroll listeners does not go down, a dismiss leaves
    it as it is, and in the new design every answer with values adds one
    more (none in the old design). *)
Theorem scroll_listeners_are_never_removed facet w :
  (∀ evs,
     (scrollListeners (this w) ≤ scrollListeners (this (execState (run facet evs) w)))%nat)
  ∧ scrollListeners (this (execState completelyDismissSearch w)) = scrollListeners (this w)
  ∧ (∀ id params fieldValues,
       promises w !! id = Some (FacetSearchCallbacks params) →
       (0 < length (reorderValues facet fieldValues))%nat →
       scrollListeners (this (execState (handle facet (PromiseFulfilled id fieldValues)) w))
       = if isNewDesign facet then S (scrollListeners (this w))
         else scrollListeners (this w)).
Proof.
  split; [|split].
  - intros evs. apply (run_listenersKept facet evs w).
  - by rewrite completelyDismissSearch_fields.
  - intros id params fieldValues Hid Hlen.
    rewrite (handle_PromiseFulfilled_this _ _ _ _ _ Hid).
    by destruct (facetSearchFulfilled_fields facet params fieldValues
                   (execState (takePromise id) w) Hlen) as (_ & _ & _ & _ & _ & _ & _ & ->).
Qed.

(** ** From the keystroke to the request *)

Lemma otherKey_state facet which shiftKey w :
  isMobileDevice facet = false →
  let typed := handle facet (KeyUp (OTHER which) shiftKey) in
  let params :=
    with_fetchMore false
      (setValueToSearch (inputValue (this w)) (newFacetSearchParameters facet)) in
  timers (execState typed w)
  = <[nextHandle w := SearchTimeout params]>
      (timers (execState cancelAnyPendingSearchOperation w))
  ∧ nextHandle (execState typed w) = S (nextHandle w)
  ∧ inputValue (this (execState typed w)) = inputValue (this w)
  ∧ facetSearchPromise (this (execState typed w)) = None
  ∧ timersArmed (execEffects typed w) = [nextHandle w]
  ∧ requests (execEffects typed w) = [].
Proof.
  intros Hm typed params. subst typed params.
  unfold handle, handleFacetSearchKeyUp, handleKeyboardNavigation.
  rewrite Hm. cbn [negb].
  destruct w as [[d rs disp n i c nr [t|] sw [p|] m] tm pm nh];
    destruct (String.eqb i "") eqn:Ei;
    lazy -[insert delete lookup String.eqb gmap_partial_alter gmap_lookup map_insert
           map_delete nat_countable Nat.eq_dec]; rewrite ?Ei;
    lazy -[insert delete lookup String.eqb gmap_partial_alter gmap_lookup map_insert
           map_delete nat_countable Nat.eq_dec].
  all: by repeat split.
Qed.

(** X17: off the mobile layout, an ordinary keystroke arms the debounce
    timer with the text the input holds at that moment, and arms nothing
    else.  When the timer fires, the one request that is sent carries that
    text, also when the input has changed since; only the test for an empty
    input looks at the text of that later moment, and dismisses without a
    request when the input is empty and the facet does not search on an
    empty text. *)
Theorem debounced_search_carries_the_text_at_the_keystroke
    facet w which shiftKey text :
  isMobileDevice facet = false →
  let typed := handle facet (KeyUp (OTHER which) shiftKey) in
  let params :=
    with_fetchMore false
      (setValueToSearch (inputValue (this w)) (newFacetSearchParameters facet)) in
  let later := execState (run facet [KeyUp (OTHER which) shiftKey; UserInput text]) w in
  let fired := execEffects (handle facet (TimerFired (nextHandle w))) later in
  timersArmed (execEffects typed w) = [nextHandle w]
  ∧ requests (execEffects typed w) = []
  ∧ timers later !! nextHandle w = Some (SearchTimeout params)
  ∧ if String.eqb text "" && negb (searchEvenIfEmptyByDefault facet) then
      requests fired = [] ∧ UnfadeInactiveValuesInMainList ∈ fired
    else requests fired = [(S (nextHandle w), params)].
Proof.
  intros Hm typed params later fired.
  destruct (otherKey_state facet which shiftKey w Hm) as (Ht & Hn & Hi & _ & Ha & Hr).
  fold typed params in Ht, Hn, Hi, Ha, Hr.
  assert (later = execState (modify (set_inputValue text)) (execState typed w)) as Hl.
  { subst later typed. cbn [run]. rewrite !execState_bind. reflexivity. }
  assert (timers later !! nextHandle w = Some (SearchTimeout params)) as Hlater.
  { rewrite Hl. change (timers (execState (modify _) ?v)) with (timers v).
    rewrite Ht. apply lookup_insert_eq. }
  split; [done|]. split; [done|]. split; [done|].
  subst fired. unfold execEffects. rewrite (handle_TimerFired _ _ _ _ Hlater).
  rewrite searchTimeoutFired_cases.
  set (w0 := execState (takeTimer (nextHandle w)) later).
  assert (inputValue (this w0) = text) as -> by (subst w0; by rewrite Hl).
  assert (nextHandle w0 = S (nextHandle w)) as Hn0 by (subst w0; by rewrite Hl).
  change (searchEvenIfEmpty params) with (searchEvenIfEmptyByDefault facet).
  destruct (String.eqb text "" && negb (searchEvenIfEmptyByDefault facet)).
  - split; [apply completelyDismissSearch_no_request|apply dismiss_calls_unfade].
  - destruct (triggerNewFacetSearch_spec params w0) as [Hreq _].
    unfold execEffects in Hreq. by rewrite Hreq, Hn0.
Qed.

(** ** Focus *)

Lemma focus_state facet w :
  isMobileDevice facet = false →
  let params :=
    if isNewDesign facet then
      setValueToSearch (inputValue (this w))
        (excludeCurrentlyDisplayedValuesInSearch (searchResults (this w))
           (newFacetSearchParameters facet))
    else
      with_fetchMore false
        (setValueToSearch (inputValue (this w)) (newFacetSearchParameters facet)) in
  timers (execState (handle facet Focus) w)
  = <[nextHandle w := SearchTimeout params]>
      (timers (execState cancelAnyPendingSearchOperation w))
  ∧ this (execState (handle facet Focus) w)
    = set_facetSearchTimeout (Some (nextHandle w))
        (this (execState cancelAnyPendingSearchOperation w))
  ∧ timersArmed (execEffects (handle facet Focus) w) = [nextHandle w]
  ∧ requests (execEffects (handle facet Focus) w) = [].
Proof.
  intros Hm params. subst params. unfold handle, handleFacetSearchFocus.
  rewrite Hm. cbn [negb when].
  destruct (isNewDesign facet),
    w as [[d rs disp n i c nr [t|] sw [p|] m] tm pm nh];
    lazy -[insert delete lookup String.eqb gmap_partial_alter gmap_lookup map_insert
           map_delete nat_countable Nat.eq_dec displayedValues app].
  all: by repeat split.
Qed.

(** X18: off the mobile layout, a focus on the input sends nothing at
    once: it lets go of the request under way, if any, and arms the
    debounce timer, for a search of the text in the input that replaces the
    list; in the new design that search leaves out the values the list
    shows, in the old design it leaves out nothing. *)
Theorem focus_starts_a_debounced_search facet w :
  isMobileDevice facet = false →
  let w' := execState (handle facet Focus) w in
  let effs := execEffects (handle facet Focus) w in
  requests effs = []
  ∧ timersArmed effs = [nextHandle w]
  ∧ facetSearchTimeout (this w') = Some (nextHandle w)
  ∧ facetSearchPromise (this w') = None
  ∧ showingFacetSearchWaitAnimation (this w') = false
  ∧ ∃ params,
      timers w' !! nextHandle w = Some (SearchTimeout params)
      ∧ valueToSearch params = inputValue (this w)
      ∧ fetchMore params = false
      ∧ alwaysExclude params
        = if isNewDesign facet then displayedValues (searchResults (this w)) else [].
Proof.
  intros Hm w' effs. subst w' effs.
  destruct (focus_state facet w Hm) as (Ht & Hs & Ha & Hr).
  rewrite Hs, cancelAnyPendingSearchOperation_state.
  repeat (split; [done|]). eexists. split; [rewrite Ht; apply lookup_insert_eq|].
  by destruct (isNewDesign facet).
Qed.

(** ** Releasing the pointer on an entry *)

Lemma resultMouseUp_state facet elem w :
  elem ∈ Dom.findAll coveo_facet_selectable (searchResults (this w)) →
  handle facet (ResultMouseUp elem) w
  = (tt,
     {| this := this w; timers := <[nextHandle w := DeferredDismiss]> (timers w);
        promises := promises w; nextHandle := S (nextHandle w) |},
     [SetTimeout (nextHandle w)]).
Proof.
  intros He.
  unfold handle, isSelectable, getSelectables, gets, mbind, M_bind, mret, M_ret. simpl.
  rewrite bool_decide_eq_true_2 by done. reflexivity.
Qed.

(** X19: releasing the pointer on a selectable entry changes nothing at
    once (the list stays as it is, so that the click on the entry can still
    be delivered): it arms a timer of its own, which the debounce handle
    does not know, and when that timer fires the search is dismissed. *)
Theorem release_on_an_entry_dismisses_on_the_next_tick facet w elem :
  elem ∈ Dom.findAll coveo_facet_selectable (searchResults (this w)) →
  let released := handle facet (ResultMouseUp elem) in
  let w1 := execState released w in
  let w2 := execState (handle facet (TimerFired (nextHandle w))) w1 in
  this w1 = this w
  ∧ execEffects released w = [SetTimeout (nextHandle w)]
  ∧ timers w1 !! nextHandle w = Some DeferredDismiss
  ∧ this w2 = this (execState completelyDismissSearch w)
  ∧ timers w2 !! nextHandle w = None.
Proof.
  intros He released w1 w2.
  pose proof (resultMouseUp_state facet elem w He) as Hr. fold released in Hr.
  assert (w1 = {| this := this w; timers := <[nextHandle w := DeferredDismiss]> (timers w);
                  promises := promises w; nextHandle := S (nextHandle w) |}) as Hw1
    by (subst w1; unfold execState; by rewrite Hr).
  assert (timers w1 !! nextHandle w = Some DeferredDismiss) as Ht
    by (rewrite Hw1; apply lookup_insert_eq).
  split; [by rewrite Hw1|]. split; [unfold execEffects; by rewrite Hr|].
  split; [done|].
  assert (w2 = execState completelyDismissSearch (execState (takeTimer (nextHandle w)) w1))
    as -> by (subst w2; unfold execState at 1; by rewrite (handle_TimerFired _ _ _ _ Ht)).
  split.
  - apply completelyDismissSearch_this. by rewrite Hw1.
  - rewrite completelyDismissSearch_timers, cancelAnyPendingSearchOperation_state.
    cbn [timers execState takeTimer fst snd this].
    destruct (facetSearchTimeout (this w1)) as [id|].
    + destruct (decide (id = nextHandle w)) as [->|Hne].
      * apply lookup_delete_eq.
      * rewrite lookup_delete_ne by done. apply lookup_delete_eq.
    + apply lookup_delete_eq.
Qed.

(** ** The listeners on the window and on the document *)

Lemma addEventListener_elem l ls : l ∈ Listeners.addEventListener l ls.
Proof.
  unfold Listeners.addEventListener. case_decide; [done|].
  apply elem_of_app. right. by apply list_elem_of_singleton.
Qed.

Lemma addEventListener_mono l l' ls :
  l ∈ ls → l ∈ Listeners.addEventListener l' ls.
Proof.
  intros Hl. unfold Listeners.addEventListener. case_decide; [done|].
  apply elem_of_app. by left.
Qed.

Lemma removeEventListener_other l l' ls :
  l ≠ l' → l ∈ ls → l ∈ Listeners.removeEventListener l' ls.
Proof. intros Hne Hl. unfold Listeners.removeEventListener. by apply list_elem_of_filter. Qed.

Lemma removeEventListener_absent l ls :
  l ∉ ls → Listeners.removeEventListener l ls = ls.
Proof.
  intros Hl. unfold Listeners.removeEventListener.
  induction ls as [|l' ls IH]; [done|].
  apply not_elem_of_cons in Hl as [Hne Hl].
  rewrite filter_cons_True by done. by rewrite IH.
Qed.

Lemma dispatch_elem target type f ls :
  (target, type, f) ∈ ls → f ∈ Listeners.dispatch target type ls.
Proof.
  intros Hl. unfold Listeners.dispatch. apply list_elem_of_omap.
  exists (target, type, f). split; [done|]. simpl. by rewrite decide_True.
Qed.

(** X20: [handleNuke] takes away none of the listeners the constructor
    registered.  It hands [removeEventListener] the functions stored in
    [this.onResize] and [this.onDocumentClick], while the listeners
    registered are the arrow functions around them: after [handleNuke] a
    resize of the window and a click in the document still call into the
    instance, and when no listener of the instance was registered before
    its constructor ran, [handleNuke] leaves the listeners exactly as they
    were. *)
Theorem handleNuke_removes_no_listener inst ls :
  let nuked := Listeners.handleNuke inst (Listeners.constructor inst ls) in
  (inst, Listeners.ResizeArrow) ∈ Listeners.dispatch Listeners.Window "resize" nuked
  ∧ (inst, Listeners.ClickArrow) ∈ Listeners.dispatch Listeners.Document "click" nuked
  ∧ ((∀ l, l ∈ ls → l.2.1 ≠ inst) → nuked = Listeners.constructor inst ls).
Proof.
  intros nuked. subst nuked. unfold Listeners.handleNuke, Listeners.constructor.
  split; [|split].
  - apply dispatch_elem. do 2 (apply removeEventListener_other; [done|]).
    apply addEventListener_mono, addEventListener_elem.
  - apply dispatch_elem. do 2 (apply removeEventListener_other; [done|]).
    apply addEventListener_elem.
  - intros Hfresh.
    assert (∀ f, f ≠ Listeners.ResizeArrow → f ≠ Listeners.ClickArrow → ∀ target type,
              (target, type, (inst, f))
                ∉ Listeners.addEventListener
                    (Listeners.Document, "click", (inst, Listeners.ClickArrow))
                    (Listeners.addEventListener
                       (Listeners.Window, "resize", (inst, Listeners.ResizeArrow)) ls))
      as Habsent.
    { intros f Hr Hc target type Hin. unfold Listeners.addEventListener in Hin.
      repeat case_decide;
        repeat (apply elem_of_app in Hin as [Hin|Hin%list_elem_of_singleton]);
        try (by specialize (Hfresh _ Hin)); congruence. }
    rewrite (removeEventListener_absent (_, _, (inst, Listeners.OnResize)))
      by by apply Habsent.
    by rewrite removeEventListener_absent by by apply Habsent.
Qed.

(** ** A click elsewhere *)

Ltac prim_nothingRendered := intros H; first [exact H|reflexivity].

Lemma handle_nothingRendered facet ev :
  isAnswer ev = false → sat (invariant nothingRendered) (handle facet ev).
Proof. intros Hev. destruct ev; try done; rel_auto prim_nothingRendered. Qed.

Lemma run_nothingRendered facet evs :
  Forall (λ ev, isAnswer ev = false) evs →
  sat (invariant nothingRendered) (run facet evs).
Proof.
  induction 1 as [|ev evs Hev _ IH]; simpl; [apply sat_ret; tc_solve|].
  apply sat_bind; [tc_solve|by apply handle_nothingRendered|done].
Qed.

Lemma clickElsewhere_nothingRendered facet target w :
  nothingRendered w → handle facet (DocumentClick target) w = (tt, w, []).
Proof.
  unfold nothingRendered, handle, handleClickElsewhere.
  destruct w as [[d rs disp n i c nr t sw p m] tm pm nh]. simpl. by intros ->.
Qed.

(** X21: from a dismissed search until the first answer is rendered, a
    click in the document does nothing, wherever it lands and whatever has
    happened in between: typing, a debounce timer that is armed or has
    fired, a request under way are all left as they are. *)
Theorem click_elsewhere_is_ignored_until_an_answer_is_rendered facet evs w target :
  currentlyDisplayedResults (this w) = None →
  Forall (λ ev, isAnswer ev = false) evs →
  let w' := execState (run facet evs) w in
  handle facet (DocumentClick target) w' = (tt, w', []).
Proof.
  intros Hw Hevs w'. apply clickElsewhere_nothingRendered.
  by apply (run_nothingRendered facet evs Hevs w).
Qed.

(** ** Enter and Shift+Delete where no value entry is current *)

Lemma selectAllValuesMatchingSearch_quiet facet w :
  selectActions (execEffects (selectAllValuesMatchingSearch facet) w) = [].
Proof. by_handles w. Qed.

Lemma selectActions_app e1 e2 :
  selectActions (e1 ++ e2) = selectActions e1 ++ selectActions e2.
Proof. apply omap_app. Qed.

Lemma timersArmed_app e1 e2 : timersArmed (e1 ++ e2) = timersArmed e1 ++ timersArmed e2.
Proof. apply omap_app. Qed.

Lemma completelyDismissSearch_promises w :
  promises (execState completelyDismissSearch w) = promises w.
Proof. by_handles w. Qed.

Lemma showOrHideClearElement_kept isEmpty w :
  let w1 := execState (showOrHideClearElement isEmpty) w in
  inputValue (this w1) = inputValue (this w)
  ∧ currentlyDisplayedResults (this w1) = currentlyDisplayedResults (this w)
  ∧ facetSearchPromise (this w1) = facetSearchPromise (this w)
  ∧ facetSearchTimeout (this w1) = facetSearchTimeout (this w)
  ∧ timers w1 = timers w ∧ promises w1 = promises w ∧ nextHandle w1 = nextHandle w.
Proof. by destruct isEmpty. Qed.

Lemma enterPressed_without_current facet isEmpty w :
  searchResultsDisplayed (this w) = true →
  Dom.find coveo_current (searchResults (this w)) = None →
  keyboardNavigationEnterPressed facet false isEmpty w = (tt, w, [AssertionFailed]).
Proof.
  intros Hd Hp.
  unfold keyboardNavigationEnterPressed, performSelectActionOnCurrentSearchResult,
    Assert_check, mbind, M_bind, gets, emit.
  simpl. rewrite Hd, Hp. reflexivity.
Qed.

Lemma deletePressed_without_one_current w :
  length (Dom.findAll coveo_current (searchResults (this w))) ≠ 1%nat →
  keyboardNavigationDeletePressed true w = (tt, w, [AssertionFailed]).
Proof.
  intros Hp.
  unfold keyboardNavigationDeletePressed, performExcludeActionOnCurrentSearchResult,
    Assert_check, when, mbind, M_bind, gets, emit.
  simpl. rewrite bool_decide_eq_false_2 by done. reflexivity.
Qed.

(** X22: off the mobile layout, Enter on a shown list in which no entry is
    current, and Shift+Delete when it is not exactly one entry that is
    current, fail their assertion: the exception leaves the key handler
    before the dismiss, so that, [showOrHideClearElement] apart, nothing
    has happened: the input keeps its text, the list, the timers and the
    requests are as they were. *)
Theorem failed_assertion_stops_the_key_handler facet w :
  isMobileDevice facet = false →
  let w1 := execState (showOrHideClearElement (String.eqb (inputValue (this w)) "")) w in
  (searchResultsDisplayed (this w) = true →
   Dom.find coveo_current (searchResults (this w)) = None →
   handle facet (KeyUp ENTER false) w = (tt, w1, [AssertionFailed]))
  ∧ (length (Dom.findAll coveo_current (searchResults (this w))) ≠ 1%nat →
     handle facet (KeyUp DELETE true) w = (tt, w1, [AssertionFailed]))
  ∧ inputValue (this w1) = inputValue (this w)
  ∧ searchResults (this w1) = searchResults (this w)
  ∧ searchResultsDisplayed (this w1) = searchResultsDisplayed (this w)
  ∧ currentlyDisplayedResults (this w1) = currentlyDisplayedResults (this w)
  ∧ facetSearchPromise (this w1) = facetSearchPromise (this w)
  ∧ facetSearchTimeout (this w1) = facetSearchTimeout (this w)
  ∧ timers w1 = timers w ∧ promises w1 = promises w.
Proof.
  intros Hm w1.
  destruct (showOrHideClearElement_others (String.eqb (inputValue (this w)) "") w)
    as (Hrs & Hdisp & _).
  destruct (showOrHideClearElement_kept (String.eqb (inputValue (this w)) "") w)
    as (Hi & Hc & Hp & Ht & Htm & Hpm & _).
  fold w1 in Hrs, Hdisp, Hi, Hc, Hp, Ht, Htm, Hpm.
  split; [|split; [|by repeat split]].
  - intros Hd Hcur. rewrite (keyUp_off_mobile _ _ _ _ Hm). cbv zeta. fold w1.
    unfold handleKeyboardNavigation. apply enterPressed_without_current; congruence.
  - intros Hcur. rewrite (keyUp_off_mobile _ _ _ _ Hm). cbv zeta. fold w1.
    unfold handleKeyboardNavigation. apply deletePressed_without_one_current.
    by rewrite Hrs.
Qed.

Lemma enterPressed_on_select_all facet isEmpty w p e :
  searchResultsDisplayed (this w) = true →
  Dom.find coveo_current (searchResults (this w)) = Some p →
  searchResults (this w) !! p = Some e →
  el_value e = None → coveo_facet_selectable e = true →
  keyboardNavigationEnterPressed facet false isEmpty w
  = (selectAllValuesMatchingSearch facet;;
     handleClickElsewhere facet Elsewhere;;
     completelyDismissSearch) w.
Proof.
  intros Hd Hp He Hv Hs.
  unfold keyboardNavigationEnterPressed, performSelectActionOnCurrentSearchResult,
    Assert_check, click, hasValueControls.
  generalize (selectAllValuesMatchingSearch facet), (handleClickElsewhere facet Elsewhere),
    completelyDismissSearch.
  intros selectAll clicked dismiss.
  unfold when, mbind, M_bind, gets, emit. simpl. rewrite Hd, Hp. simpl.
  rewrite He, Hv, Hs. simpl.
  destruct (selectAll w) as [[[] wa] ea]. destruct (clicked wa) as [[[] wb] eb].
  destruct (dismiss wb) as [[[] wc] ec]. by rewrite !app_nil_r, <- !(assoc_L (++)).
Qed.

(** X23: off the mobile layout, Enter on a shown list with the "select
    all" entry current is a click on that entry: it sends the one request
    of [selectAllValuesMatchingSearch] (the text of the input, up to 1000
    values), at once, activates no value, and leaves the search
    dismissed. *)
Theorem enter_on_the_select_all_entry_selects_all facet w p e :
  isMobileDevice facet = false →
  searchResultsDisplayed (this w) = true →
  Dom.find coveo_current (searchResults (this w)) = Some p →
  searchResults (this w) !! p = Some e →
  el_value e = None → coveo_facet_selectable e = true →
  let enter := handle facet (KeyUp ENTER false) in
  requests (execEffects enter w)
  = [(nextHandle w,
      setValueToSearch (inputValue (this w))
        (with_nbResults 1000 (newFacetSearchParameters facet)))]
  ∧ selectActions (execEffects enter w) = []
  ∧ timersArmed (execEffects enter w) = []
  ∧ promises (execState enter w) !! nextHandle w = Some SelectAllCallbacks
  ∧ this (execState enter w) = this (execState completelyDismissSearch w).
Proof.
  intros Hm Hd Hp He Hv Hs enter. subst enter.
  set (isEmpty := String.eqb (inputValue (this w)) "").
  destruct (showOrHideClearElement_others isEmpty w) as (Hrs & Hdisp & Hn).
  destruct (showOrHideClearElement_kept isEmpty w) as (Hi & _ & _ & _ & _ & Hpm & Hnh).
  unfold execEffects, execState at 1 2.
  rewrite (keyUp_off_mobile _ _ _ _ Hm). cbv zeta. fold isEmpty.
  set (w1 := execState (showOrHideClearElement isEmpty) w) in *.
  unfold handleKeyboardNavigation.
  rewrite (enterPressed_on_select_all facet isEmpty w1 p e) by congruence.
  destruct (selectAllValuesMatchingSearch_spec facet w1) as (Hr & Ht & Hp1 & Hf).
  cbv zeta in Hr, Ht, Hp1, Hf.
  set (wa := execState (selectAllValuesMatchingSearch facet) w1) in *.
  assert (this wa = dismissedFields (scrollListeners (this w))) as Hwa
    by (rewrite Hf, completelyDismissSearch_fields; by rewrite Hn).
  assert (handleClickElsewhere facet Elsewhere wa = (tt, wa, [])) as Hce
    by (apply (clickElsewhere_nothingRendered facet Elsewhere);
        unfold nothingRendered; by rewrite Hwa).
  assert ((selectAllValuesMatchingSearch facet;;
           handleClickElsewhere facet Elsewhere;; completelyDismissSearch) w1
          = (tt, execState completelyDismissSearch wa,
             execEffects (selectAllValuesMatchingSearch facet) w1
               ++ execEffects completelyDismissSearch wa)) as ->.
  { unfold mbind, M_bind.
    rewrite (M_eta (selectAllValuesMatchingSearch facet) w1). fold wa.
    cbv beta iota. rewrite Hce. cbv beta iota. unfold execState, execEffects.
    by destruct (completelyDismissSearch wa) as [[[] wc] ec]. }
  cbn [fst snd].
  destruct (completelyDismissSearch_quiet wa) as (Qs & _ & Qr & Qt).
  rewrite requests_app, selectActions_app, timersArmed_app, Hr, Ht, Qs, Qr, Qt,
    selectAllValuesMatchingSearch_quiet, Hnh, Hi.
  split; [done|]. split; [done|]. split; [done|]. split.
  - rewrite completelyDismissSearch_promises, Hp1, Hnh, Hpm. apply lookup_insert_eq.
  - by rewrite !completelyDismissSearch_fields, Hwa.
Qed.

(** ** The further properties on concrete sessions *)

(** Escape on the list [x, y]. *)
Lemma every_dismissal_ends_in_the_same_state_witness :
  UnfadeInactiveValuesInMainList
    ∈ execEffects (handle desktopFacet (KeyUp ESCAPE false)) shown
  ∧ this (execState (handle desktopFacet (KeyUp ESCAPE false)) shown)
    = this (execState completelyDismissSearch shown).
Proof.
  assert (UnfadeInactiveValuesInMainList
            ∈ execEffects (handle desktopFacet (KeyUp ESCAPE false)) shown) as H
    by (vm_compute; repeat constructor).
  split; [exact H|].
  exact (every_dismissal_ends_in_the_same_state desktopFacet (KeyUp ESCAPE false) shown H).
Defined.

(** The user has typed "a": timer 0 is the debounce timer. *)
Lemma at_most_one_debounce_timer_witness :
  let evs := [UserInput "a"; KeyUp (OTHER 65) false] in
  let params := {| valueToSearch := "a"; alwaysExclude := []; nbResults := 15;
                   fetchMore := false; searchEvenIfEmpty := true |} in
  let w := execState (run desktopFacet evs) initial in
  timers w !! 0%nat = Some (SearchTimeout params)
  ∧ facetSearchTimeout (this w) = Some 0%nat.
Proof.
  intros evs params w.
  assert (timers w !! 0%nat = Some (SearchTimeout params)) as H
    by (vm_compute; reflexivity).
  split; [exact H|].
  destruct (at_most_one_debounce_timer desktopFacet evs 0 params 0 params H H)
    as (_ & _ & T).
  exact T.
Defined.

(** An explicit search has been sent and is not answered yet. *)
Lemma waiting_animation_shows_while_a_request_is_held_witness :
  let w := execState (run desktopFacet [KeyUp ENTER true]) initial in
  is_Some (facetSearchPromise (this w))
  ∧ showingFacetSearchWaitAnimation (this w) = true.
Proof.
  intros w.
  assert (is_Some (facetSearchPromise (this w))) as H
    by (vm_compute; eexists; reflexivity).
  split; [exact H|].
  exact (waiting_animation_shows_while_a_request_is_held desktopFacet [KeyUp ENTER true] H).
Defined.

(** The pointer moves over [y], the second entry of the list [x, y]. *)
Lemma pointing_at_an_entry_moves_the_cursor_there_witness :
  currentOnSelectables (searchResults (this shown))
  ∧ Dom.findAll coveo_facet_selectable (searchResults (this shown)) !! 1%nat = Some 1%nat
  ∧ cursor (searchResults (this (execState (handle desktopFacet (ResultMouseMove 1)) shown)))
    = Some 1.
Proof.
  assert (currentOnSelectables (searchResults (this shown))) as Hc
    by (apply (bool_decide_unpack _); vm_compute; exact I).
  assert (Dom.findAll coveo_facet_selectable (searchResults (this shown)) !! 1%nat
          = Some 1%nat) as Hj by (vm_compute; reflexivity).
  split; [exact Hc|]. split; [exact Hj|].
  destruct (pointing_at_an_entry_moves_the_cursor_there desktopFacet shown 1 1 Hc Hj)
    as [T _].
  exact T.
Defined.

(** An answer without values has set the no-results mark over an empty
    input; the down arrow takes the mark away and makes no call. *)
Lemma arrow_keys_only_move_the_cursor_witness :
  let w := execState (run desktopFacet [KeyUp ENTER true; PromiseFulfilled 0 []]) initial in
  let evs := [KeyUp DOWN_ARROW false] in
  isMobileDevice desktopFacet = false
  ∧ Forall (λ ev, isArrowKeyUp ev = true) evs
  ∧ noResultsClass (this w) = true
  ∧ execEffects (run desktopFacet evs) w = []
  ∧ noResultsClass (this (execState (run desktopFacet evs) w))
    = noResultsClass (this w) && negb (String.eqb (inputValue (this w)) "").
Proof.
  intros w evs.
  assert (isMobileDevice desktopFacet = false) as Hm by reflexivity.
  assert (Forall (λ ev, isArrowKeyUp ev = true) evs) as Hevs
    by (repeat constructor).
  split; [exact Hm|]. split; [exact Hevs|]. split; [vm_compute; reflexivity|].
  destruct (arrow_keys_only_move_the_cursor desktopFacet evs w Hm Hevs)
    as [[T _] [_ N]].
  split; [exact T|exact N].
Defined.

(** Two presses of the down arrow on the list [x, y], cursor on [x]. *)
Lemma arrow_keys_walk_the_list_round_witness :
  isMobileDevice desktopFacet = false
  ∧ cursor (searchResults (this shown)) = Some 0
  ∧ cursor (searchResults
              (this (execState (run desktopFacet (replicate 2 (KeyUp DOWN_ARROW false)))
                       shown))) = Some 0.
Proof.
  assert (isMobileDevice desktopFacet = false) as Hm by reflexivity.
  assert (cursor (searchResults (this shown)) = Some 0) as Hc by (vm_compute; reflexivity).
  split; [exact Hm|]. split; [exact Hc|].
  destruct (arrow_keys_walk_the_list_round desktopFacet false shown 0 2 Hm Hc)
    as (_ & _ & T).
  destruct T as [T _]; [vm_compute; reflexivity|]. exact T.
Defined.

(** Enter on the list [x, y], cursor on [x]. *)
Lemma enter_and_shift_delete_act_on_the_cursor_witness :
  isMobileDevice desktopFacet = false
  ∧ cursor (searchResults (this shown)) = Some (Z.of_nat 0)
  ∧ Dom.findAll coveo_facet_selectable (searchResults (this shown)) !! 0%nat = Some 0%nat
  ∧ el_value <$> searchResults (this shown) !! 0%nat = Some (Some "x")
  ∧ searchResultsDisplayed (this shown) = true
  ∧ selectActions (execEffects (handle desktopFacet (KeyUp ENTER false)) shown)
    = [Some 0%nat]
  ∧ excludeActions (execEffects (handle desktopFacet (KeyUp DELETE true)) shown)
    = [[0%nat]].
Proof.
  assert (isMobileDevice desktopFacet = false) as Hm by reflexivity.
  assert (cursor (searchResults (this shown)) = Some (Z.of_nat 0)) as Hc
    by (vm_compute; reflexivity).
  assert (Dom.findAll coveo_facet_selectable (searchResults (this shown)) !! 0%nat
          = Some 0%nat) as Hp by (vm_compute; reflexivity).
  assert (el_value <$> searchResults (this shown) !! 0%nat = Some (Some "x")) as Hv
    by (vm_compute; reflexivity).
  assert (searchResultsDisplayed (this shown) = true) as Hd by (vm_compute; reflexivity).
  repeat (split; [assumption|]).
  destruct (enter_and_shift_delete_act_on_the_cursor desktopFacet shown 0 0 "x" Hm Hc Hp Hv)
    as (Te & _ & Td & _).
  destruct (Te Hd) as (Te' & _).
  split; [exact Te'|exact Td].
Defined.

(** The search under way is answered without values. *)
Lemma enter_after_an_empty_answer_selects_all_witness :
  isMobileDevice desktopFacet = false
  ∧ promises awaiting !! 0%nat = Some (FacetSearchCallbacks plainSearch)
  ∧ fetchMore plainSearch = false
  ∧ reorderValues desktopFacet [] = []
  ∧ noResultsClass (this (execState (handle desktopFacet (PromiseFulfilled 0 [])) awaiting))
    = true.
Proof.
  assert (isMobileDevice desktopFacet = false) as Hm by reflexivity.
  assert (promises awaiting !! 0%nat = Some (FacetSearchCallbacks plainSearch)) as Hid
    by (vm_compute; reflexivity).
  assert (fetchMore plainSearch = false) as Hf by reflexivity.
  assert (reorderValues desktopFacet [] = []) as Hr by reflexivity.
  repeat (split; [assumption|]).
  destruct (enter_after_an_empty_answer_selects_all
              desktopFacet awaiting 0 plainSearch [] Hm Hid Hf Hr) as (_ & T & _).
  exact T.
Defined.

(** Request 0, superseded by request 1, through an Escape and the answer to
    request 1. *)
Lemma a_request_is_never_cancelled_witness :
  let w := execState (run desktopFacet superseding) initial in
  let cb := FacetSearchCallbacks
              {| valueToSearch := "a"; alwaysExclude := []; nbResults := 15;
                 fetchMore := false; searchEvenIfEmpty := true |} in
  let evs := [KeyUp ESCAPE false; PromiseFulfilled 1 [valueY]] in
  (0 < nextHandle w)%nat
  ∧ promises w !! 0%nat = Some cb
  ∧ Forall (λ ev, settles 0 ev = false) evs
  ∧ promises (execState (run desktopFacet evs) w) !! 0%nat = Some cb.
Proof.
  intros w cb evs.
  assert (0 < nextHandle w)%nat as Hlt by (vm_compute; lia).
  assert (promises w !! 0%nat = Some cb) as Hid by (vm_compute; reflexivity).
  assert (Forall (λ ev, settles 0 ev = false) evs) as Hevs by (repeat constructor).
  repeat (split; [assumption|]).
  exact (a_request_is_never_cancelled desktopFacet evs w 0 cb Hlt Hid Hevs).
Defined.

(** The search under way is answered with [x, y]. *)
Lemma an_answer_shows_its_values_witness :
  promises awaiting !! 0%nat = Some (FacetSearchCallbacks plainSearch)
  ∧ (0 < length (reorderValues desktopFacet [valueX; valueY]))%nat
  ∧ displayedValues
      (searchResults
         (this (execState (handle desktopFacet (PromiseFulfilled 0 [valueX; valueY]))
                  awaiting)))
    = [] ++ (fv_value <$> [valueX; valueY]).
Proof.
  assert (promises awaiting !! 0%nat = Some (FacetSearchCallbacks plainSearch)) as Hid
    by (vm_compute; reflexivity).
  assert (0 < length (reorderValues desktopFacet [valueX; valueY]))%nat as Hlen
    by (simpl; lia).
  repeat (split; [assumption|]).
  destruct (an_answer_shows_its_values desktopFacet awaiting 0 plainSearch
              [valueX; valueY] Hid Hlen) as [T _].
  exact T.
Defined.

(** The search under way is dismissed, and then answered with [x, y]. *)
Lemma an_answer_after_a_dismiss_opens_the_list_again_witness :
  promises awaiting !! 0%nat = Some (FacetSearchCallbacks plainSearch)
  ∧ (0 < length (reorderValues desktopFacet [valueX; valueY]))%nat
  ∧ searchResultsDisplayed
      (this (execState (handle desktopFacet (PromiseFulfilled 0 [valueX; valueY]))
               (execState completelyDismissSearch awaiting)))
    = negb (fetchMore plainSearch).
Proof.
  assert (promises awaiting !! 0%nat = Some (FacetSearchCallbacks plainSearch)) as Hid
    by (vm_compute; reflexivity).
  assert (0 < length (reorderValues desktopFacet [valueX; valueY]))%nat as Hlen
    by (simpl; lia).
  repeat (split; [assumption|]).
  destruct (an_answer_after_a_dismiss_opens_the_list_again desktopFacet awaiting 0
              plainSearch [valueX; valueY] Hid Hlen) as (_ & _ & _ & _ & T & _).
  exact T.
Defined.

(** Escape on a mobile device while request 1 is under way: the handle
    is dropped and the debounce timer armed. *)
Lemma on_mobile_every_key_only_rearms_the_debounce_witness :
  let w := execState (run mobileFacet [KeyUp (OTHER 65) false; TimerFired 0]) initial in
  isMobileDevice mobileFacet = true
  ∧ facetSearchPromise (this w) = Some 1%nat
  ∧ timersArmed (execEffects (handle mobileFacet (KeyUp ESCAPE false)) w) = [nextHandle w]
  ∧ facetSearchPromise (this (execState (handle mobileFacet (KeyUp ESCAPE false)) w))
    = None.
Proof.
  intros w.
  assert (isMobileDevice mobileFacet = true) as Hm by reflexivity.
  split; [exact Hm|]. split; [vm_compute; reflexivity|].
  destruct (on_mobile_every_key_only_rearms_the_debounce
              mobileFacet w ESCAPE false Elsewhere false false Hm)
    as (_ & _ & T & _ & _ & _ & _ & _ & _ & _ & _ & P & _).
  split; [exact T|exact P].
Defined.

(** The search under way is answered with [x, y], in the new design. *)
Lemma scroll_listeners_are_never_removed_witness :
  promises awaiting !! 0%nat = Some (FacetSearchCallbacks plainSearch)
  ∧ (0 < length (reorderValues desktopFacet [valueX; valueY]))%nat
  ∧ scrollListeners
      (this (execState (handle desktopFacet (PromiseFulfilled 0 [valueX; valueY]))
               awaiting))
    = (if isNewDesign desktopFacet then S (scrollListeners (this awaiting))
       else scrollListeners (this awaiting)).
Proof.
  assert (promises awaiting !! 0%nat = Some (FacetSearchCallbacks plainSearch)) as Hid
    by (vm_compute; reflexivity).
  assert (0 < length (reorderValues desktopFacet [valueX; valueY]))%nat as Hlen
    by (simpl; lia).
  repeat (split; [assumption|]).
  destruct (scroll_listeners_are_never_removed desktopFacet awaiting) as (_ & _ & T).
  exact (T 0%nat plainSearch [valueX; valueY] Hid Hlen).
Defined.

(** A keystroke on "abc"; the input is "abcd" when the timer fires. *)
Lemma debounced_search_carries_the_text_at_the_keystroke_witness :
  isMobileDevice desktopFacet = false
  ∧ timersArmed (execEffects (handle desktopFacet (KeyUp (OTHER 68) false)) typedAbc)
    = [nextHandle typedAbc].
Proof.
  assert (isMobileDevice desktopFacet = false) as Hm by reflexivity.
  split; [exact Hm|].
  destruct (debounced_search_carries_the_text_at_the_keystroke
              desktopFacet typedAbc 68 false "abcd" Hm) as [T _].
  exact T.
Defined.

(** A focus on the input over the list [x, y]. *)
Lemma focus_starts_a_debounced_search_witness :
  isMobileDevice desktopFacet = false
  ∧ requests (execEffects (handle desktopFacet Focus) shown) = [].
Proof.
  assert (isMobileDevice desktopFacet = false) as Hm by reflexivity.
  split; [exact Hm|].
  destruct (focus_starts_a_debounced_search desktopFacet shown Hm) as [T _].
  exact T.
Defined.

(** The pointer is released on [y], the second entry of the list [x, y]. *)
Lemma release_on_an_entry_dismisses_on_the_next_tick_witness :
  1%nat ∈ Dom.findAll coveo_facet_selectable (searchResults (this shown))
  ∧ this (execState (handle desktopFacet (ResultMouseUp 1)) shown) = this shown.
Proof.
  assert (1%nat ∈ Dom.findAll coveo_facet_selectable (searchResults (this shown))) as He
    by (apply (bool_decide_unpack _); vm_compute; exact I).
  split; [exact He|].
  destruct (release_on_an_entry_dismisses_on_the_next_tick desktopFacet shown 1 He)
    as [T _].
  exact T.
Defined.

(** The first instance on the page. *)
Lemma handleNuke_removes_no_listener_witness :
  (∀ l : Listeners.Listener, l ∈ [] → l.2.1 ≠ 0%nat)
  ∧ Listeners.handleNuke 0 (Listeners.constructor 0 []) = Listeners.constructor 0 [].
Proof.
  assert (∀ l : Listeners.Listener, l ∈ [] → l.2.1 ≠ 0%nat) as Hfresh
    by (intros l Hl; by apply elem_of_nil in Hl).
  split; [exact Hfresh|].
  destruct (handleNuke_removes_no_listener 0 []) as (_ & _ & T).
  exact (T Hfresh).
Defined.

(** The user has typed "a" and the debounce timer has fired: request 1 is
    under way when the click arrives. *)
Lemma click_elsewhere_is_ignored_until_an_answer_is_rendered_witness :
  let evs := [UserInput "a"; KeyUp (OTHER 65) false; TimerFired 0] in
  currentlyDisplayedResults (this initial) = None
  ∧ Forall (λ ev, isAnswer ev = false) evs
  ∧ facetSearchPromise
      (this (execState (handle desktopFacet (DocumentClick Elsewhere))
               (execState (run desktopFacet evs) initial)))
    = Some 1%nat.
Proof.
  intros evs.
  assert (currentlyDisplayedResults (this initial) = None) as Hw by reflexivity.
  assert (Forall (λ ev, isAnswer ev = false) evs) as Hevs by (repeat constructor).
  repeat (split; [assumption|]).
  unfold execState at 1.
  rewrite (click_elsewhere_is_ignored_until_an_answer_is_rendered
             desktopFacet evs initial Elsewhere Hw Hevs).
  vm_compute. reflexivity.
Defined.

(** Shift+Delete on the input "abc", no list shown: the assertion fails
    and the input keeps its text. *)
Lemma failed_assertion_stops_the_key_handler_witness :
  isMobileDevice desktopFacet = false
  ∧ length (Dom.findAll coveo_current (searchResults (this typedAbc))) ≠ 1%nat
  ∧ execEffects (handle desktopFacet (KeyUp DELETE true)) typedAbc = [AssertionFailed]
  ∧ inputValue (this (execState (handle desktopFacet (KeyUp DELETE true)) typedAbc))
    = inputValue (this typedAbc).
Proof.
  assert (isMobileDevice desktopFacet = false) as Hm by reflexivity.
  assert (length (Dom.findAll coveo_current (searchResults (this typedAbc))) ≠ 1%nat)
    as Hc by (vm_compute; lia).
  split; [exact Hm|]. split; [exact Hc|].
  destruct (failed_assertion_stops_the_key_handler desktopFacet typedAbc Hm)
    as (_ & T & I & _).
  unfold execEffects, execState. rewrite (T Hc). split; [reflexivity|exact I].
Defined.

(** The list for "a" is shown, the "select all" entry first and current:
    Enter sends the request for all the values that match "a". *)
Lemma enter_on_the_select_all_entry_selects_all_witness :
  let w := execState (run desktopFacet
                        [UserInput "a"; KeyUp ENTER true; PromiseFulfilled 0 [valueX]])
                     initial in
  let e := {| el_value := None; coveo_facet_selectable := true; coveo_current := true |} in
  isMobileDevice desktopFacet = false
  ∧ searchResultsDisplayed (this w) = true
  ∧ Dom.find coveo_current (searchResults (this w)) = Some 0%nat
  ∧ searchResults (this w) !! 0%nat = Some e
  ∧ el_value e = None ∧ coveo_facet_selectable e = true
  ∧ requests (execEffects (handle desktopFacet (KeyUp ENTER false)) w)
    = [(nextHandle w,
        setValueToSearch (inputValue (this w))
          (with_nbResults 1000 (newFacetSearchParameters desktopFacet)))].
Proof.
  intros w e.
  assert (isMobileDevice desktopFacet = false) as Hm by reflexivity.
  assert (searchResultsDisplayed (this w) = true) as Hd by (vm_compute; reflexivity).
  assert (Dom.find coveo_current (searchResults (this w)) = Some 0%nat) as Hp
    by (vm_compute; reflexivity).
  assert (searchResults (this w) !! 0%nat = Some e) as He by (vm_compute; reflexivity).
  assert (el_value e = None) as Hv by reflexivity.
  assert (coveo_facet_selectable e = true) as Hs by reflexivity.
  repeat (split; [assumption|]).
  destruct (enter_on_the_select_all_entry_selects_all desktopFacet w 0 e Hm Hd Hp He Hv Hs)
    as [T _].
  exact T.
Defined.
